(** * oglelib: a shallow embedding of the acquisition pipeline and of the
    analysis engine, with the properties of its specification.

    The development follows the source files:
    - [filegrabber.py]: archive generations, zero padding, the FTP client
      with its reconnect-and-retry path, the local cache and [save];
    - [calculations.py]: the point-lens light curve, the reduced chi-square
      and the post-processing of the Lomb-Scargle periodogram;
    - [event.py]: how an [Event] builds its [FileGrabber] and cleanses its
      photometry.

    Python exceptions are values of [exn]; a computation that may raise
    returns a [result].  Code that touches the file system, the FTP
    connection or the standard output threads a [world] explicitly. *)

From Stdlib Require Import ZArith QArith Qround Qabs Qminmax Reals Lra Lia Bool
  Ascii String.
From Stdlib Require Lqa.
From stdpp Require Import gmap strings pretty list.

Set Default Proof Using "Type".

(** ** Python exceptions and results *)

Module Py.

(** The exception classes the modelled code can raise. *)
Inductive exn : Type :=
| Exception (msg : string)          (* raise Exception(msg) *)
| AttributeError (attr : string)    (* missing instance attribute *)
| UnboundLocalError (var : string)  (* local read before assignment *)
| ZeroDivisionError                 (* float or int division by zero *)
| ValueError (msg : string)         (* math domain error, empty reduction *)
| IndexError                        (* index out of bounds *)
| RecursionError                    (* interpreter stack exhausted *)
| KeyError (key : string)           (* missing dictionary key *)
| OSError (msg : string).           (* open / makedirs failures *)

Inductive result (A : Type) : Type :=
| Ok (a : A)
| Raise (e : exn).
Arguments Ok {A} a.
Arguments Raise {A} e.

Definition bind {A B} (r : result A) (k : A -> result B) : result B :=
  match r with
  | Ok a => k a
  | Raise e => Raise e
  end.

Definition raises {A} (r : result A) : Prop :=
  match r with Ok _ => False | Raise _ => True end.

Definition returns {A} (r : result A) : Prop :=
  match r with Ok _ => True | Raise _ => False end.

End Py.
Import Py.

Declare Scope py_scope.
Delimit Scope py_scope with py.
Notation "x <- c1 ;; c2" := (Py.bind c1 (fun x => c2))
  (at level 100, c1 at next level, right associativity) : py_scope.

(** ** filegrabber.py: archive generations and zero padding *)

Module filegrabber.

Local Open Scope Z_scope.
Local Open Scope py_scope.

Definition ftp_url : string := "ftp.astrouw.edu.pl".

(** [get_ogle_version]: the chained comparisons of the source on a Python
    integer year. *)
Definition get_ogle_version (year : Z) : result Z :=
  if (1998 <=? year) && (year <=? 2000) then Ok 2
  else if (2002 <=? year) && (year <=? 2009) then Ok 3
  else if (2011 <=? year) && (year <=? 2019) then Ok 4
  else Raise (Exception "Unsupported year.").

(** [str(n)] for a Python integer. *)
Definition str (n : Z) : string := pretty n.

Fixpoint zeros (k : nat) : string :=
  match k with
  | O => ""
  | S k' => String "0"%char (zeros k')
  end.

(** [str.zfill(width)]: a leading sign stays in front of the padding. *)
Definition zfill (s : string) (width : nat) : string :=
  if (width <=? String.length s)%nat then s
  else
    let fill := (width - String.length s)%nat in
    match s with
    | String c rest =>
        if (Ascii.eqb c "+"%char || Ascii.eqb c "-"%char)%bool
        then String c (zeros fill +:+ rest)
        else zeros fill +:+ s
    | EmptyString => zeros fill
    end.

(** [padded_n]: the three [if]/[elif] branches on the version; a version
    outside 2..4 would leave [nwidth] unbound. *)
Definition padded_n (n : Z) (year : Z) : result string :=
  version <- get_ogle_version year ;;
  nwidth <- (if version =? 4 then Ok 4%nat
             else if version =? 3 then Ok 3%nat
             else if version =? 2 then Ok 2%nat
             else Raise (UnboundLocalError "nwidth")) ;;
  Ok (zfill (str n) nwidth).

(** *** Strings: the pieces of [str] the module uses *)

(** [str.isspace] on the ASCII range: tab, line feed, vertical tab, form
    feed, carriage return, the four separators 28..31 and the space. *)
Definition isspace (c : ascii) : bool :=
  let k := nat_of_ascii c in
  ((9 <=? k) && (k <=? 13) || (28 <=? k) && (k <=? 32))%nat.

Fixpoint lstrip (s : string) : string :=
  match s with
  | String c r => if isspace c then lstrip r else s
  | EmptyString => EmptyString
  end.

Fixpoint rstrip (s : string) : string :=
  match s with
  | String c r =>
      match rstrip r with
      | EmptyString => if isspace c then EmptyString else String c EmptyString
      | r' => String c r'
      end
  | EmptyString => EmptyString
  end.

(** [s.strip()] *)
Definition strip (s : string) : string := rstrip (lstrip s).

Definition lower_char (c : ascii) : ascii :=
  let k := nat_of_ascii c in
  if ((65 <=? k) && (k <=? 90))%nat then ascii_of_nat (k + 32) else c.

(** [s.lower()] on ASCII text (field names are BLG, LMC, SMC). *)
Fixpoint lower (s : string) : string :=
  match s with
  | String c r => String (lower_char c) (lower r)
  | EmptyString => EmptyString
  end.

(** The last character of a string, [None] when it is empty. *)
Fixpoint last_char (s : string) : option ascii :=
  match s with
  | EmptyString => None
  | String c EmptyString => Some c
  | String _ r => last_char r
  end.

(** [s.endswith('/')] *)
Definition endswith_slash (s : string) : bool :=
  match last_char s with
  | Some c => Ascii.eqb c "/"%char
  | None => false
  end.

(** *** The two path templates *)

(** [filepath_temp.substitute(...)] *)
Definition filepath_temp (version_num year : Z) (field n dat_type : string)
  : string :=
  "/ogle/ogle" +:+ str version_num +:+ "/ews/" +:+ str year +:+ "/"
    +:+ field +:+ "-" +:+ n +:+ "/" +:+ dat_type +:+ ".dat".

(** [local_filepath_temp.substitute(...)] *)
Definition local_filepath_temp (datadir : string) (year : Z)
    (field padded dat_type : string) : string :=
  datadir +:+ "/" +:+ str year +:+ "/" +:+ field +:+ "-" +:+ padded
    +:+ "/" +:+ dat_type +:+ ".dat".

(** *** The world: file system, FTP server, environment, standard output *)

(** What the server answers to one [RETR]: the lines of the file, a
    permanent error with its reply code ([error_perm]), or a transient
    failure ([error_temp] or [BrokenPipeError]). *)
Inductive response : Type :=
| Lines (ls : list string)
| PermError (code : Z)
| TempError.

Inductive ftp_event : Type :=
| EvConnect (host : string)
| EvLogin
| EvClose
| EvRetr (cmd : string).

Record world : Type := mkWorld {
  files : gmap string string;       (* regular files and their text *)
  dirs : gset string;               (* directories *)
  environ : gmap string string;     (* os.environ *)
  server : nat -> response;         (* the reply to the k-th RETR *)
  sent : nat;                       (* RETR commands sent so far *)
  ftplog : list ftp_event;          (* every use of the connection *)
  stdout : list string;             (* lines printed *)
  recursion_limit : nat             (* interpreter stack still available *)
}.

Definition set_files (f : gmap string string) (w : world) : world :=
  mkWorld f (dirs w) (environ w) (server w) (sent w) (ftplog w) (stdout w)
    (recursion_limit w).
Definition set_dirs (d : gset string) (w : world) : world :=
  mkWorld (files w) d (environ w) (server w) (sent w) (ftplog w) (stdout w)
    (recursion_limit w).
Definition log_ftp (e : ftp_event) (w : world) : world :=
  mkWorld (files w) (dirs w) (environ w) (server w) (sent w)
    (ftplog w ++ [e]) (stdout w) (recursion_limit w).
Definition bump_sent (w : world) : world :=
  mkWorld (files w) (dirs w) (environ w) (server w) (S (sent w))
    (ftplog w) (stdout w) (recursion_limit w).
Definition print (line : string) (w : world) : world :=
  mkWorld (files w) (dirs w) (environ w) (server w) (sent w) (ftplog w)
    (stdout w ++ [line]) (recursion_limit w).

(** Stateful, fallible code: the world after the call (also when it
    raised) and the value or the exception. *)
Definition M (A : Type) : Type := world -> world * result A.

Definition ret {A} (a : A) : M A := fun w => (w, Ok a).
Definition raise {A} (e : exn) : M A := fun w => (w, Raise e).
Definition mbind {A B} (m : M A) (k : A -> M B) : M B :=
  fun w =>
    match m w with
    | (w', Ok a) => k a w'
    | (w', Raise e) => (w', Raise e)
    end.
Definition lift {A} (r : result A) : M A := fun w => (w, r).
Definition effect (f : world -> world) : M unit := fun w => (f w, Ok tt).
Definition gets {A} (f : world -> A) : M A := fun w => (w, Ok (f w)).

Declare Scope io_scope.
Delimit Scope io_scope with io.
Notation "x <- c1 ;; c2" := (mbind c1 (fun x => c2))
  (at level 100, c1 at next level, right associativity) : io_scope.
Notation "c1 ;;; c2" := (mbind c1 (fun _ => c2))
  (at level 100, right associativity) : io_scope.
Local Open Scope io_scope.

(** *** os.path, os.makedirs, open *)

Definition isfile (p : string) (w : world) : bool :=
  bool_decide (is_Some (files w !! p)).
Definition isdir (p : string) (w : world) : bool :=
  bool_decide (p ∈ dirs w).
Definition exists_path (p : string) (w : world) : bool :=
  isfile p w || isdir p w.

(** The part of a path up to and including its last slash. *)
Fixpoint head_of (p : string) : string :=
  match p with
  | EmptyString => EmptyString
  | String c r =>
      match head_of r with
      | EmptyString =>
          if Ascii.eqb c "/"%char then String c EmptyString else EmptyString
      | h => String c h
      end
  end.

Fixpoint all_slashes (s : string) : bool :=
  match s with
  | EmptyString => true
  | String c r => Ascii.eqb c "/"%char && all_slashes r
  end.

Fixpoint rstrip_slash (s : string) : string :=
  match s with
  | EmptyString => EmptyString
  | String c r =>
      match rstrip_slash r with
      | EmptyString =>
          if Ascii.eqb c "/"%char then EmptyString else String c EmptyString
      | r' => String c r'
      end
  end.

(** [os.path.dirname] (posixpath). *)
Definition dirname (p : string) : string :=
  let head := head_of p in
  if all_slashes head then head else rstrip_slash head.

(** The proper prefixes of a path that end just before a slash: the
    directories [os.makedirs] creates on the way. *)
Fixpoint parents_from (acc p : string) : list string :=
  match p with
  | EmptyString => []
  | String c r =>
      (if Ascii.eqb c "/"%char && negb (String.eqb acc EmptyString)
       then [acc] else [])
      ++ parents_from (acc +:+ String c EmptyString) r
  end.
Definition parents (p : string) : list string := parents_from EmptyString p.

(** [os.makedirs(name, exist_ok=True)]: the directory and every missing
    ancestor; a regular file on the way is an error. *)
Definition makedirs (name : string) : M unit := fun w =>
  let wanted := parents name ++ [name] in
  if String.eqb name EmptyString then (w, Raise (OSError "FileNotFoundError"))
  else if existsb (fun d => isfile d w) wanted
  then (w, Raise (OSError "FileExistsError"))
  else (set_dirs (dirs w ∪ list_to_set wanted) w, Ok tt).

(** [with open(filepath, 'w') as f: f.write(s)] *)
Definition write_file (filepath s : string) : M unit := fun w =>
  if isdir filepath w then (w, Raise (OSError "IsADirectoryError"))
  else if String.eqb (dirname filepath) EmptyString || isdir (dirname filepath) w
  then (set_files (<[filepath := s]> (files w)) w, Ok tt)
  else (w, Raise (OSError "FileNotFoundError")).

(** [with open(local_filepath, 'r') as f: contents = f.read()] *)
Definition read_file (filepath : string) : M string := fun w =>
  match files w !! filepath with
  | Some s => (w, Ok s)
  | None => (w, Raise (OSError "FileNotFoundError"))
  end.

(** *** DatStream *)

Definition newline : string := String (ascii_of_nat 10) EmptyString.

(** The buffer of the [StringIO]. *)
Definition DatStream : Type := string.
Definition DatStream_new : DatStream := EmptyString.
(** [write]: the line and a newline are appended. *)
Definition DatStream_write (stream : DatStream) (s : string) : DatStream :=
  stream +:+ (s +:+ newline).
(** [getvalue]: the stripped buffer. *)
Definition DatStream_getvalue (stream : DatStream) : string := strip stream.

(** *** The FTP connection *)

(** The one connection object; the handle is what [self.ftpclient] holds. *)
Inductive FTP : Type := FTPClient.

Definition FTP_connect (ftp : FTP) (host : string) : M unit :=
  effect (log_ftp (EvConnect host)).
Definition FTP_login (ftp : FTP) : M unit := effect (log_ftp EvLogin).
Definition FTP_close (ftp : FTP) : M unit := effect (log_ftp EvClose).
(** [FTP(host)] connects at construction. *)
Definition FTP_new (host : string) : M FTP :=
  FTP_connect FTPClient host ;;; ret FTPClient.
(** [retrlines]: the command goes out and the server's next reply comes
    back; the two error replies are the exceptions of [ftplib]. *)
Definition FTP_retrlines (ftp : FTP) (cmd : string) : M response := fun w =>
  (bump_sent (log_ftp (EvRetr cmd) w), Ok (server w (sent w))).

(** *** RemoteDatFile *)

Record RemoteDatFile : Type := mkRemoteDatFile {
  rdf_year : Z;
  rdf_n : string;
  rdf_field : string;
  rdf_dat_type : string;
  filepath : string;
  fileurl : string
}.

Definition __ftp_filepath (year : Z) (n field dat_type : string)
  : result string :=
  (version_num <- get_ogle_version year ;;
   Ok (filepath_temp version_num year field n dat_type))%py.

Definition __ftp_fileurl (filepath : string) : string :=
  "ftp://" +:+ ftp_url +:+ filepath.

(** [RemoteDatFile.__init__] *)
Definition RemoteDatFile_init (year n : Z) (field dat_type : string)
  : result RemoteDatFile :=
  (pn <- padded_n n year ;;
   fp <- __ftp_filepath year pn field dat_type ;;
   Ok (mkRemoteDatFile year pn field dat_type fp (__ftp_fileurl fp)))%py.

(** [RemoteDatFile.get_contents].  [depth] is the stack the recursion may
    still use.  In the transient branch the value of the inner call is
    dropped, and the [return(filecontents)] after the [with] block reads a
    local that the failed [try] never assigned. *)
Fixpoint get_contents_at (depth : nat) (self : RemoteDatFile) (ftp : FTP)
  : M string :=
  match depth with
  | O => raise RecursionError
  | S depth' =>
      let cmd := "RETR " +:+ filepath self in
      reply <- FTP_retrlines ftp cmd ;;
      match reply with
      | Lines ls =>
          let stream := fold_left DatStream_write ls DatStream_new in
          ret (DatStream_getvalue stream)
      | PermError err_code =>
          if (err_code =? 550)%Z
          then raise (Exception ("url: " +:+ filepath self +:+ " is invalid"))
          else if (err_code =? 530)%Z
          then raise (Exception "ftp is not enabled")
          else raise (UnboundLocalError "msg")
      | TempError =>
          FTP_close ftp ;;;
          FTP_connect ftp ftp_url ;;;
          FTP_login ftp ;;;
          _ <- get_contents_at depth' self ftp ;;
          raise (UnboundLocalError "filecontents")
      end
  end.

Definition get_contents (self : RemoteDatFile) (ftp : FTP) : M string :=
  fun w => get_contents_at (recursion_limit w) self ftp w.

(** *** DatFile and FileGrabber *)

Record DatFile : Type := mkDatFile {
  df_fileurl : string;
  contents : string
}.

Definition DatFile_init (fileurl filecontents : string) : DatFile :=
  mkDatFile fileurl (strip filecontents).

(** [ftpclient] is [None] when the attribute was never set. *)
Record FileGrabber : Type := mkFileGrabber {
  datadir : option string;
  ftpclient : option FTP
}.

(** [self.ftpclient] *)
Definition getattr_ftpclient (self : FileGrabber) : result FTP :=
  match ftpclient self with
  | Some ftp => Ok ftp
  | None => Raise (AttributeError "ftpclient")
  end.

(** [__verify_datadir]: note [datadir[-1]], the last character, where the
    comment announces the removal of a trailing slash. *)
Definition __verify_datadir (datadir : option string) : M (option string) :=
  fun w =>
    match datadir with
    | None => (w, Ok (environ w !! "OGLEDATADIR"))
    | Some d =>
        if isdir d w then
          if endswith_slash d
          then (w, Ok (Some (match last_char d with
                             | Some c => String c EmptyString
                             | None => EmptyString
                             end)))
          else (w, Ok (Some d))
        else (w, Raise (Exception "Invalid data directory."))
    end.

(** [FileGrabber.__init__] *)
Definition FileGrabber_init (datadir : option string) (ftp_enabled : bool)
  : M FileGrabber :=
  d <- __verify_datadir datadir ;;
  if ftp_enabled then
    ftp <- FTP_new ftp_url ;;
    FTP_login ftp ;;;
    ret (mkFileGrabber d (Some ftp))
  else ret (mkFileGrabber d None).

(** [str(self.datadir)] as the template renders it. *)
Definition str_datadir (self : FileGrabber) : string :=
  match datadir self with
  | Some d => d
  | None => "None"
  end.

Definition __get_local_filepath (self : FileGrabber) (year n : Z)
    (field dat_type : string) : result string :=
  (pn <- padded_n n year ;;
   Ok (local_filepath_temp (str_datadir self) year (lower field) pn
         dat_type))%py.

(** [FileGrabber.get_datfile] *)
Definition get_datfile (self : FileGrabber) (year n : Z)
    (field dat_type : string) : M DatFile :=
  rdf <- lift (RemoteDatFile_init year n field dat_type) ;;
  contents <-
    match datadir self with
    | Some _ =>
        local_filepath <-
          lift (__get_local_filepath self year n field dat_type) ;;
        cached <- gets (isfile local_filepath) ;;
        if cached then read_file local_filepath
        else
          ftp <- lift (getattr_ftpclient self) ;;
          get_contents rdf ftp
    | None =>
        ftp <- lift (getattr_ftpclient self) ;;
        get_contents rdf ftp
    end ;;
  ret (DatFile_init (fileurl rdf) contents).

(** [__force_write]: 0 when the file was there, 1 when it was written. *)
Definition __force_write (filepath s : string) : M Z :=
  present <- gets (isfile filepath) ;;
  if present then ret 0%Z
  else
    let event_dir := dirname filepath in
    there <- gets (exists_path event_dir) ;;
    (if there then ret tt else makedirs event_dir) ;;;
    write_file filepath s ;;;
    ret 1%Z.

(** The body of the loop of [save] for one document type. *)
Definition save_one (self : FileGrabber) (year n : Z) (field dt : string)
  : M unit :=
  datfile <- get_datfile self year n field dt ;;
  filepath <- lift (__get_local_filepath self year n field dt) ;;
  outcome <- __force_write filepath (contents datfile) ;;
  if (outcome =? 0)%Z then effect (print (filepath +:+ " " +:+ "exists"))
  else if (outcome =? 1)%Z then effect (print (filepath +:+ " " +:+ "saved"))
  else ret tt.

Fixpoint for_each {A} (body : A -> M unit) (l : list A) : M unit :=
  match l with
  | [] => ret tt
  | x :: l' => body x ;;; for_each body l'
  end.

Definition dat_types : list string := ["phot"; "params"].

(** [FileGrabber.save] *)
Definition save (self : FileGrabber) (year n : Z) (field : string) : M unit :=
  match datadir self with
  | Some _ => for_each (save_one self year n field) dat_types
  | None => raise (Exception "No data directory provided.")
  end.

End filegrabber.

(** ** event.py: how an event gets its files *)

Module event.

Import filegrabber.
Local Open Scope io_scope.

Definition upper_char (c : ascii) : ascii :=
  let k := nat_of_ascii c in
  if ((97 <=? k) && (k <=? 122))%nat then ascii_of_nat (k - 32) else c.

(** [s.upper()] on ASCII text. *)
Fixpoint upper (s : string) : string :=
  match s with
  | String c r => String (upper_char c) (upper r)
  | EmptyString => EmptyString
  end.

(** The [if fgrabber == None] block of [Event.__init__]:
    [FileGrabber(defaultpath)] leaves [ftp_enabled] at its default. *)
Definition default_fgrabber (fgrabber : option FileGrabber) : M FileGrabber :=
  match fgrabber with
  | None =>
      defaultpath <- gets (fun w => environ w !! "OGLEDATADIR") ;;
      FileGrabber_init defaultpath false
  | Some fg => ret fg
  end.

(** What [Event.__init__] holds once both documents are in. *)
Record Event : Type := mkEvent {
  year : Z;
  n : Z;
  field : string;
  title : string;
  phot_datfile : DatFile;
  params_datfile : DatFile
}.

(** [Event.__init__] up to the two [get_datfile] calls.  Parsing the
    parameters and building the light curve come after; they touch no
    file, can still raise, and are not part of this definition: a
    returned [Event] says that both documents were obtained. *)
Definition Event_init (year n : Z) (field : string)
    (fgrabber : option FileGrabber) : M Event :=
  pn <- lift (padded_n n year) ;;
  let title := str year +:+ "-" +:+ upper (lower field) +:+ "-" +:+ pn in
  fg <- default_fgrabber fgrabber ;;
  phot <- get_datfile fg year n field "phot" ;;
  params <- get_datfile fg year n field "params" ;;
  ret (mkEvent year n (lower field) title phot params).

End event.

(** ** calculations.py: the light curve and the reduced chi-square

    Floats are modelled by the real numbers they approximate; what is kept
    of the floating-point semantics is what decides whether a call raises:
    a Python float division by zero raises [ZeroDivisionError], a NumPy
    scalar division by zero yields an infinity or a NaN and goes on.

    The real numbers know no overflow and no underflow: a square that
    overflows raises [OverflowError] in Python, and one that underflows is
    zero and can make a later division raise.  The statements below that
    say a call returns therefore bound the magnitudes they are about.
    [round] rounds the exact value, ties to the even digit; Python rounds
    the binary float, which can lie on either side of a decimal tie, so
    the statements below rely on the sign of a rounded value and on the
    rounded zero only. *)

Module calculations.

Local Open Scope R_scope.
Local Open Scope py_scope.

(** *** Python float operations that can raise *)

(** [a / b] on Python floats *)
Definition truediv (a b : R) : result R :=
  if Req_dec_T b 0 then Raise ZeroDivisionError else Ok (a / b).

(** [math.sqrt] *)
Definition math_sqrt (x : R) : result R :=
  if Rlt_dec x 0 then Raise (ValueError "math domain error") else Ok (sqrt x).

(** [math.log10] *)
Definition math_log10 (x : R) : result R :=
  if Rle_dec x 0 then Raise (ValueError "math domain error")
  else Ok (ln x / ln 10).

(** [math.floor] *)
Definition floor (x : R) : Z := (up x - 1)%Z.

(** Rounding to the nearest integer, ties to the even one. *)
Definition round_half_even (x : R) : Z :=
  let f := floor x in
  let d := x - IZR f in
  if Rlt_dec d (1 / 2) then f
  else if Rlt_dec (1 / 2) d then (f + 1)%Z
  else if Z.even f then f else (f + 1)%Z.

(** [round(x, ndigits)] *)
Definition round (x : R) (ndigits : nat) : R :=
  IZR (round_half_even (x * 10 ^ ndigits)) / 10 ^ ndigits.

(** *** Lightcurve *)

Record Lightcurve : Type := mkLightcurve {
  Ibl : R;    (* incident magnitude *)
  umin : R;   (* impact parameter *)
  tE : R;     (* characteristic timescale *)
  t0 : R;     (* time of max intensity *)
  fbl : R     (* blending fraction *)
}.

Definition __validate_fbl (fbl : R) : R :=
  if Rgt_dec fbl 1 then 1
  else if Rlt_dec fbl 0 then 0
  else fbl.

(** [params[key]] *)
Definition getitem (params : gmap string R) (key : string) : result R :=
  match params !! key with
  | Some v => Ok v
  | None => Raise (KeyError key)
  end.

(** [Lightcurve.__init__] *)
Definition Lightcurve_init (params : gmap string R) : result Lightcurve :=
  Ibl <- getitem params "I_bl" ;;
  umin <- getitem params "umin" ;;
  tE <- getitem params "tau" ;;
  t0 <- getitem params "Tmax" ;;
  fbl <- getitem params "fbl" ;;
  Ok (mkLightcurve Ibl umin tE t0 (__validate_fbl fbl)).

(** [Lightcurve.mag] *)
Definition mag (self : Lightcurve) (t : R) : result R :=
  q <- truediv (t - t0 self) (tE self) ;;
  u <- math_sqrt (umin self ^ 2 + q ^ 2) ;;
  s <- math_sqrt (u ^ 2 + 4) ;;
  flux_ratio <- truediv (u ^ 2 + 2) (u * s) ;;
  let flux_ratio := (flux_ratio - 1) * fbl self + 1 in
  l <- math_log10 flux_ratio ;;
  Ok (-2.5 * l + Ibl self).

(** [min(time_array)] and [max(time_array)] *)
Definition py_min (l : list R) : result R :=
  match l with
  | [] => Raise (ValueError "min() arg is an empty sequence")
  | x :: l' => Ok (fold_left Rmin l' x)
  end.
Definition py_max (l : list R) : result R :=
  match l with
  | [] => Raise (ValueError "max() arg is an empty sequence")
  | x :: l' => Ok (fold_left Rmax l' x)
  end.

(** [[f(x) for x in l]]: the first exception ends the comprehension. *)
Fixpoint comprehension {A B} (f : A -> result B) (l : list A)
  : result (list B) :=
  match l with
  | [] => Ok []
  | x :: l' => y <- f x ;; ys <- comprehension f l' ;; Ok (y :: ys)
  end.

(** [np.arange(first_t, last_t + 1, 1/24)] *)
Definition arange24 (first_t last_t : Z) : list R :=
  map (fun k : nat => IZR first_t + INR k / 24)
      (seq 0 (Z.to_nat (24 * (last_t + 1 - first_t)))).

(** [Lightcurve.centered_vals]: the dictionary with keys [t] and [I]. *)
Definition centered_vals (self : Lightcurve) (time_array : list R)
  : result (list R * list R) :=
  lo <- py_min time_array ;;
  hi <- py_max time_array ;;
  let first_t := floor lo in
  let last_t := floor hi in
  let tmodel := arange24 first_t last_t in
  Imodel <- comprehension (mag self) tmodel ;;
  Ok (tmodel, Imodel).

(** A method call on a [Lightcurve] and what it leaves of the object:
    neither method assigns an attribute of [self]. *)
Inductive method : Type :=
| call_mag (t : R)
| call_centered_vals (time_array : list R).

Inductive outcome : Type :=
| out_mag (r : result R)
| out_centered_vals (r : result (list R * list R)).

Definition call (self : Lightcurve) (m : method) : Lightcurve * outcome :=
  match m with
  | call_mag t => (self, out_mag (mag self t))
  | call_centered_vals ts => (self, out_centered_vals (centered_vals self ts))
  end.

(** The object after a sequence of calls. *)
Definition after_calls (self : Lightcurve) (ms : list method) : Lightcurve :=
  fold_left (fun o m => fst (call o m)) ms self.

(** *** reduced_chi_square *)

(** A float that may have left the finite range. *)
Inductive xreal : Type :=
| Fin (x : R)
| PInf
| NInf
| NaN.

(** The scalars of the data points: plain Python floats, or
    [numpy.float64] as [Event.datapoints] takes them out of the arrays. *)
Inductive scalar_kind : Type :=
| PythonFloat
| NumpyFloat64.

Definition xadd (a b : xreal) : xreal :=
  match a, b with
  | NaN, _ | _, NaN => NaN
  | PInf, NInf | NInf, PInf => NaN
  | PInf, _ | _, PInf => PInf
  | NInf, _ | _, NInf => NInf
  | Fin x, Fin y => Fin (x + y)
  end.

(** IEEE division of [a] by (positive) zero. *)
Definition xdiv_zero (a : xreal) : xreal :=
  match a with
  | Fin x => if Rlt_dec 0 x then PInf else if Rlt_dec x 0 then NInf else NaN
  | PInf => PInf
  | NInf => NInf
  | NaN => NaN
  end.

(** Division of [a] by a finite, nonzero [d]. *)
Definition xdiv_by (a : xreal) (d : R) : xreal :=
  match a with
  | Fin x => Fin (x / d)
  | PInf => if Rlt_dec 0 d then PInf else NInf
  | NInf => if Rlt_dec 0 d then NInf else PInf
  | NaN => NaN
  end.

(** [a / d] where [numpy] tells whether a NumPy scalar takes part. *)
Definition xtruediv (numpy : bool) (a : xreal) (d : R) : result xreal :=
  if Req_dec_T d 0 then
    if numpy then Ok (xdiv_zero a) else Raise ZeroDivisionError
  else Ok (xdiv_by a d).

Definition xround (a : xreal) (ndigits : nat) : xreal :=
  match a with
  | Fin x => Fin (round x ndigits)
  | other => other
  end.

Definition is_numpy (k : scalar_kind) : bool :=
  match k with NumpyFloat64 => true | PythonFloat => false end.

(** The [for] loop of [reduced_chi_square] from the current [thesum]. *)
Fixpoint chi_loop (k : scalar_kind) (func : R -> result R)
    (datapoints : list (R * R * R)) (thesum : xreal) : result xreal :=
  match datapoints with
  | [] => Ok thesum
  | (x, Oi, sigma_i) :: rest =>
      Ci <- func x ;;
      let square_diff := (Oi - Ci) ^ 2 in
      let variance := sigma_i ^ 2 in
      addend <- xtruediv (is_numpy k) (Fin square_diff) variance ;;
      chi_loop k func rest (xadd thesum addend)
  end.

(** [reduced_chi_square(datapoints, func, Nu)].  [thesum] starts as the
    Python integer 0 and is a NumPy scalar once a NumPy addend went in. *)
Definition reduced_chi_square (k : scalar_kind)
    (datapoints : list (R * R * R)) (func : R -> result R) (Nu : Z)
  : result xreal :=
  thesum <- chi_loop k func datapoints (Fin 0) ;;
  let numpy_sum := is_numpy k && negb (Nat.eqb (length datapoints) 0) in
  rcs <- xtruediv numpy_sum thesum
           (IZR (Z.of_nat (length datapoints) - Nu)) ;;
  Ok (xround rcs 3).

End calculations.

(** ** calculations.py: the periodogram

    The frequency grid and the powers are exact rationals, so that the
    peak search and the width search run inside Rocq.  The spectrum itself
    comes from [scipy.signal.lombscargle], which is not code of this
    repository: it is a parameter of [pgram]. *)

Module periodogram.

Local Open Scope Q_scope.
Local Open Scope py_scope.

Definition Qltb (x y : Q) : bool := negb (Qle_bool y x).

(** Rounding to the nearest integer, ties to the even one. *)
Definition round_half_even (x : Q) : Z :=
  let f := Qfloor x in
  match Qcompare (x - inject_Z f) (1 # 2) with
  | Lt => f
  | Gt => (f + 1)%Z
  | Eq => if Z.even f then f else (f + 1)%Z
  end.

(** [round(x, ndigits)] *)
Definition round (x : Q) (ndigits : nat) : Q :=
  Qred (inject_Z (round_half_even (x * inject_Z (10 ^ Z.of_nat ndigits)))
        / inject_Z (10 ^ Z.of_nat ndigits)).

(** [np.linspace(start, stop, num)] *)
Definition linspace (start stop : Q) (num : nat) : list Q :=
  let step := (stop - start) / inject_Z (Z.of_nat num - 1) in
  map (fun i : nat => Qred (start + inject_Z (Z.of_nat i) * step))
      (seq 0 num).

(** [a[i]] for one index *)
Definition getitem {A} (a : list A) (i : nat) : result A :=
  match a !! i with
  | Some x => Ok x
  | None => Raise IndexError
  end.

(** [np.where(mask)[0]]: the indices where the mask holds. *)
Fixpoint where_from (i : nat) (mask : list bool) : list nat :=
  match mask with
  | [] => []
  | b :: mask' =>
      if b then i :: where_from (S i) mask' else where_from (S i) mask'
  end.
Definition where_ (mask : list bool) : list nat := where_from 0 mask.

(** [a[indices]] *)
Fixpoint take {A} (a : list A) (indices : list nat) : result (list A) :=
  match indices with
  | [] => Ok []
  | i :: rest => x <- getitem a i ;; xs <- take a rest ;; Ok (x :: xs)
  end.

(** [np.max] *)
Definition np_max (a : list Q) : result Q :=
  match a with
  | [] => Raise (ValueError "zero-size array to reduction operation")
  | x :: a' => Ok (fold_left Qmax a' x)
  end.

(** [np.mean]; [None] is the NaN of an empty selection. *)
Definition np_mean (a : list Q) : option Q :=
  match a with
  | [] => None
  | _ => Some (fold_left Qplus a 0 / inject_Z (Z.of_nat (length a)))
  end.

(** The locals of the loop in [getfwhm]; the flags are the 0/1 integers
    of the source as booleans. *)
Record walk : Type := mkWalk {
  lowflag : bool;
  highflag : bool;
  lower : Q;
  higher : Q
}.

(** The [while j > 0 and i < len(pgram)-1] loop; [j] goes down by one in
    each round, so the loop is a recursion on [j]. *)
Fixpoint fwhm_loop (pgram freq : list Q) (maxpgram : Q) (j i : nat)
    (st : walk) : result walk :=
  match j with
  | O => Ok st
  | S j' =>
      if (i <? length pgram - 1)%nat then
        pj <- getitem pgram j ;;
        st1 <-
          (if Qle_bool (maxpgram / 2) pj then
             pj1 <- getitem pgram j' ;;
             if Qltb pj1 (maxpgram / 2) && negb (lowflag st) then
               f <- getitem freq j' ;;
               Ok (mkWalk true (highflag st) f (higher st))
             else Ok st
           else Ok st) ;;
        pi <- getitem pgram i ;;
        st2 <-
          (if Qle_bool (maxpgram / 2) pi then
             pi1 <- getitem pgram (i + 1) ;;
             if Qltb pi1 (maxpgram / 2) && negb (highflag st1) then
               f <- getitem freq (i + 1) ;;
               Ok (mkWalk (lowflag st1) true (lower st1) f)
             else Ok st1
           else Ok st1) ;;
        if lowflag st2 && highflag st2 then Ok st2
        else fwhm_loop pgram freq maxpgram j' (i + 1) st2
      else Ok st
  end.

(** The nested function [getfwhm], with the variables it closes over. *)
Definition getfwhm (pgram freq : list Q) (maxpgram : Q) : result Q :=
  i <- getitem (where_ (map (fun p => Qeq_bool p maxpgram) pgram)) 0 ;;
  st <- fwhm_loop pgram freq maxpgram i i (mkWalk false false 0 0) ;;
  if negb (highflag st) || negb (lowflag st) then Ok 0
  else Ok (higher st - lower st).

(** The values of [pgram] before they are rounded into the dictionary. *)
Record locals : Type := mkLocals {
  l_freq : list Q;
  l_pgram : list Q;
  l_maxpgram : Q;
  l_freq_at_maxgram : Q;
  l_maxpgram365 : option Q;
  l_fwhm : Q
}.

(** The returned dictionary.  A [None] is a float outside the finite
    range (a mean of nothing, a division by a zero peak). *)
Record pgram_dict : Type := mkPgramDict {
  maxpgram : Q;
  freq_at_maxpgram : Q;
  parallax_period : R;
  maxpgram365 : option Q;
  maxpgram365_norm : option Q;
  fwhm : Q;
  freq : list Q;
  pgram_power : list Q
}.

(** The number of grid frequencies. *)
Definition grid_size : nat := Z.to_nat 10000.

(** [freq = np.linspace(0.0001, 0.03, 10000)] *)
Definition freq_grid : list Q := linspace (1 # 10000) (3 # 100) grid_size.

Section WithSpectrum.

(** [signal.lombscargle(tdata, Idata, freq, normalize=True)] *)
Variable lombscargle : list Q -> list Q -> list Q -> list Q.

(** The statements of [pgram] from [pgramtemp = ...] to
    [fwhm = getfwhm()], on the grid [freq] and the spectrum [pgram]. *)
Definition analyse (freq pgram : list Q) : result locals :=
  pgramtemp <- take pgram (where_ (map (fun f => Qltb (1 # 100) f) freq)) ;;
  maxpgram <- np_max pgramtemp ;;
  top <- np_max pgram ;;
  at_top <- take freq (where_ (map (fun p => Qeq_bool top p) pgram)) ;;
  freq_at_maxgram <- getitem at_top 0 ;;
  near365 <-
    take pgram
      (where_ (map (fun f => Qltb (Qabs (f - (17 # 1000))) (1 # 100000))
                   freq)) ;;
  let maxpgram365 := np_mean near365 in
  fwhm <- getfwhm pgram freq maxpgram ;;
  Ok (mkLocals freq pgram maxpgram freq_at_maxgram maxpgram365 fwhm).

(** The statements of [pgram] up to [fwhm = getfwhm()]. *)
Definition pgram_locals (tdata Idata : list Q) : result locals :=
  let crop := false in
  let '(tdata, Idata) :=
    if crop then
      let ind := where_ (map (fun t => Qltb 2453000 t) tdata) in
      (omap (fun i => tdata !! i) ind, omap (fun i => Idata !! i) ind)
    else (tdata, Idata) in
  let tdata := map (fun t => t - 2450000) tdata in
  let freq := freq_grid in
  let pgram := lombscargle tdata Idata freq in
  analyse freq pgram.

(** [parallax_period = 2 * np.pi / freq_at_maxgram] *)
Definition parallax_period_of (freq_at_maxgram : Q) : R :=
  (2 * PI / Q2R freq_at_maxgram)%R.

(** [maxpgram365 / maxpgram] on NumPy scalars *)
Definition norm365 (maxpgram365 : option Q) (maxpgram : Q) : option Q :=
  match maxpgram365 with
  | Some m => if Qeq_bool maxpgram 0 then None else Some (m / maxpgram)
  | None => None
  end.

(** [pgram(tdata, Idata)] *)
Definition pgram (tdata Idata : list Q) : result pgram_dict :=
  l <- pgram_locals tdata Idata ;;
  Ok (mkPgramDict
        (round (l_maxpgram l) 4)
        (round (l_freq_at_maxgram l) 6)
        (calculations.round (parallax_period_of (l_freq_at_maxgram l)) 4)
        (option_map (fun m => round m 4) (l_maxpgram365 l))
        (option_map (fun m => round m 8)
           (norm365 (l_maxpgram365 l) (l_maxpgram l)))
        (round (l_fwhm l) 6)
        (l_freq l)
        (l_pgram l)).

End WithSpectrum.

End periodogram.

(** ** calculations.py: the periodogram on a spectrum that may hold NaN

    [scipy.signal.lombscargle] with [normalize=True] divides by the sum of
    the squared data: for a series that is zero throughout it delivers NaN
    at every frequency.  The statements of [pgram] are modelled here once
    more, on powers that are a number or NaN, with the comparisons and
    the reductions of NumPy on NaN, and with a [lombscargle] that may
    raise, as SciPy's does on a series it refuses. *)

Module periodogram_nan.

Import periodogram.
Local Open Scope Q_scope.
Local Open Scope py_scope.

(** A power of the spectrum. *)
Inductive power : Type :=
| Num (q : Q)
| NaN.

(** [x == y], [x >= y] and [x < y] on NumPy floats: false when either
    side is NaN. *)
Definition eqb (x y : power) : bool :=
  match x, y with
  | Num a, Num b => Qeq_bool a b
  | _, _ => false
  end.
Definition geb (x y : power) : bool :=
  match x, y with
  | Num a, Num b => Qle_bool b a
  | _, _ => false
  end.
Definition ltb (x y : power) : bool :=
  match x, y with
  | Num a, Num b => Qltb a b
  | _, _ => false
  end.

(** [x / 2] *)
Definition half (x : power) : power :=
  match x with
  | Num a => Num (a / 2)
  | NaN => NaN
  end.

(** The larger of two powers as [np.max] takes it: NaN when either is. *)
Definition pmax (x y : power) : power :=
  match x, y with
  | Num a, Num b => Num (Qmax a b)
  | _, _ => NaN
  end.

(** [np.max] *)
Definition np_max (a : list power) : result power :=
  match a with
  | [] => Raise (ValueError "zero-size array to reduction operation")
  | x :: a' => Ok (fold_left pmax a' x)
  end.

(** The numbers of an array, when it holds no NaN. *)
Fixpoint numbers (a : list power) : option (list Q) :=
  match a with
  | [] => Some []
  | Num q :: a' => option_map (cons q) (numbers a')
  | NaN :: _ => None
  end.

(** [np.mean]; [None] is a NaN: the mean of nothing, or of an array that
    holds a NaN. *)
Definition np_mean (a : list power) : option Q :=
  match numbers a with
  | Some qs => periodogram.np_mean qs
  | None => None
  end.

(** [round(x, ndigits)] *)
Definition round (x : power) (ndigits : nat) : power :=
  match x with
  | Num a => Num (periodogram.round a ndigits)
  | NaN => NaN
  end.

(** The [while j > 0 and i < len(pgram)-1] loop of [getfwhm]. *)
Fixpoint fwhm_loop (pgram : list power) (freq : list Q) (maxpgram : power)
    (j i : nat) (st : walk) : result walk :=
  match j with
  | O => Ok st
  | S j' =>
      if (i <? length pgram - 1)%nat then
        pj <- getitem pgram j ;;
        st1 <-
          (if geb pj (half maxpgram) then
             pj1 <- getitem pgram j' ;;
             if ltb pj1 (half maxpgram) && negb (lowflag st) then
               f <- getitem freq j' ;;
               Ok (mkWalk true (highflag st) f (higher st))
             else Ok st
           else Ok st) ;;
        pi <- getitem pgram i ;;
        st2 <-
          (if geb pi (half maxpgram) then
             pi1 <- getitem pgram (i + 1) ;;
             if ltb pi1 (half maxpgram) && negb (highflag st1) then
               f <- getitem freq (i + 1) ;;
               Ok (mkWalk (lowflag st1) true (lower st1) f)
             else Ok st1
           else Ok st1) ;;
        if lowflag st2 && highflag st2 then Ok st2
        else fwhm_loop pgram freq maxpgram j' (i + 1) st2
      else Ok st
  end.

(** The nested function [getfwhm]. *)
Definition getfwhm (pgram : list power) (freq : list Q) (maxpgram : power)
  : result Q :=
  i <- getitem (where_ (map (fun p => eqb p maxpgram) pgram)) 0 ;;
  st <- fwhm_loop pgram freq maxpgram i i (mkWalk false false 0 0) ;;
  if negb (highflag st) || negb (lowflag st) then Ok 0
  else Ok (higher st - lower st).

(** [maxpgram365 / maxpgram] *)
Definition norm365 (maxpgram365 : option Q) (maxpgram : power) : option Q :=
  match maxpgram with
  | Num m => periodogram.norm365 maxpgram365 m
  | NaN => None
  end.

(** The returned dictionary. *)
Record pgram_dict : Type := mkPgramDict {
  maxpgram : power;
  freq_at_maxpgram : Q;
  parallax_period : R;
  maxpgram365 : option Q;
  maxpgram365_norm : option Q;
  fwhm : Q;
  freq : list Q;
  pgram_power : list power
}.

Section WithLombscargle.

(** [signal.lombscargle(tdata, Idata, freq, normalize=True)] *)
Variable lombscargle : list Q -> list Q -> list Q -> result (list power).

(** [pgram(tdata, Idata)] *)
Definition pgram (tdata Idata : list Q) : result pgram_dict :=
  let crop := false in
  let '(tdata, Idata) :=
    if crop then
      let ind := where_ (map (fun t => Qltb 2453000 t) tdata) in
      (omap (fun i => tdata !! i) ind, omap (fun i => Idata !! i) ind)
    else (tdata, Idata) in
  let tdata := map (fun t => t - 2450000) tdata in
  let freq := freq_grid in
  pgram <- lombscargle tdata Idata freq ;;
  pgramtemp <- take pgram (where_ (map (fun f => Qltb (1 # 100) f) freq)) ;;
  maxpgram <- np_max pgramtemp ;;
  top <- np_max pgram ;;
  at_top <- take freq (where_ (map (fun p => eqb top p) pgram)) ;;
  freq_at_maxgram <- getitem at_top 0 ;;
  let parallax_period := parallax_period_of freq_at_maxgram in
  near365 <-
    take pgram
      (where_ (map (fun f => Qltb (Qabs (f - (17 # 1000))) (1 # 100000))
                   freq)) ;;
  let maxpgram365 := np_mean near365 in
  let maxpgram365_norm := norm365 maxpgram365 maxpgram in
  fwhm <- getfwhm pgram freq maxpgram ;;
  Ok (mkPgramDict
        (round maxpgram 4)
        (periodogram.round freq_at_maxgram 6)
        (calculations.round parallax_period 4)
        (option_map (fun m => periodogram.round m 4) maxpgram365)
        (option_map (fun m => periodogram.round m 8) maxpgram365_norm)
        (periodogram.round fwhm 6)
        freq
        pgram).

End WithLombscargle.

End periodogram_nan.


(** ** calculations.py: right ascension and declination

    The texts of the fields are turned into floats by Python's [float],
    which is not code of this repository: it is a parameter. *)

Module coordinates.

Import calculations.
Local Open Scope R_scope.
Local Open Scope py_scope.

(** [s.split(sep)] for a separator of one character *)
Fixpoint split (s : string) (sep : ascii) : list string :=
  match s with
  | EmptyString => [EmptyString]
  | String c r =>
      if Ascii.eqb c sep then EmptyString :: split r sep
      else
        match split r sep with
        | h :: t => String c h :: t
        | [] => [String c EmptyString]
        end
  end.

Section WithFloat.

(** [float(s)] *)
Variable float : string -> result R.

(** [hr, mins, sec = [float(s) for s in timestring.split(':')]] *)
Definition unpack3 (timestring : string) : result (R * R * R) :=
  parts <- comprehension float (split timestring ":") ;;
  match parts with
  | [hr; mins; sec] => Ok (hr, mins, sec)
  | _ =>
      if (length parts <? 3)%nat then
        Raise (ValueError
                 ("not enough values to unpack (expected 3, got "
                  +:+ filegrabber.str (Z.of_nat (length parts)) +:+ ")"))
      else Raise (ValueError "too many values to unpack (expected 3)")
  end.

(** [ra(timestring)] *)
Definition ra (timestring : string) : result R :=
  fields <- unpack3 timestring ;;
  let '(hr, mins, sec) := fields in
  let ans := 15 * (hr + mins / 60 + sec / 3600) in
  Ok (round ans 3).

(** [dec(timestring)] *)
Definition dec (timestring : string) : result R :=
  fields <- unpack3 timestring ;;
  let '(hr, mins, sec) := fields in
  let ans := hr + mins / 60 + sec / 3600 in
  Ok (round ans 3).

End WithFloat.

End coordinates.

(** ** event.py: the photometry of an event

    [Event.data] takes the three columns of the photometry file from
    [PhotParser.getdata], that is from [np.loadtxt], which is not code of
    this repository: the parsed columns are a parameter here.  They are
    one-dimensional arrays, which is what [np.loadtxt] delivers for a
    table of two rows or more; for a table of a single row it delivers
    three numbers without a dimension, a case that is not modelled and
    that the statements about [data] exclude. *)

Module event_data.

Import calculations.
Local Open Scope R_scope.
Local Open Scope py_scope.

(** [x < y] on floats, as an entry of a mask *)
Definition Rltb (x y : R) : bool := if Rlt_dec x y then true else false.

(** [Event.data(cleanse)]: [parsed] are the columns [t], [I] and [Ierr];
    the magnitudes [I] are [Imag] here. *)
Definition data (sigmamin : R) (parsed : list R * list R * list R)
    (cleanse : bool) : result (list R * list R * list R) :=
  let '(t, Imag, Ierr) := parsed in
  if cleanse then
    (* remove placeholder values *)
    let ind := periodogram.where_ (map (fun x => Rltb x 25) Imag) in
    t <- periodogram.take t ind ;;
    Imag <- periodogram.take Imag ind ;;
    Ierr <- periodogram.take Ierr ind ;;
    (* Ierr quadrature correction *)
    let Ierr := map (fun e => sqrt (e ^ 2 + sigmamin ^ 2)) Ierr in
    Ok (t, Imag, Ierr)
  else Ok (t, Imag, Ierr).

(** [Event.datapoints] *)
Definition datapoints (sigmamin : R) (parsed : list R * list R * list R)
  : result (list (R * R * R)) :=
  d <- data sigmamin parsed true ;;
  let '(t, Imag, Ierr) := d in
  comprehension
    (fun i : nat =>
       ti <- periodogram.getitem t i ;;
       Ii <- periodogram.getitem Imag i ;;
       ei <- periodogram.getitem Ierr i ;;
       Ok (ti, Ii, ei))
    (seq 0 (length t)).

End event_data.

(** ** Concrete scenarios

    One event of the 2015 season, a cache directory [/data] that holds no
    file yet, and servers that deliver or fail. *)

Module scenarios.

Import filegrabber.

Definition phot_lines : list string :=
  ["2457000.5 15.123 0.004"; "2457001.5 15.101 0.005"].

(** A server that always delivers the same lines. *)
Definition steady (ls : list string) : nat -> response := fun _ => Lines ls.

(** A server whose first reply is a timeout and which delivers afterwards. *)
Definition flaky_once (ls : list string) : nat -> response :=
  fun k => match k with O => TempError | S _ => Lines ls end.

Definition empty_cache (srv : nat -> response) : world :=
  mkWorld ∅ {["/data"]} ∅ srv 0 [] [] 1000.

Definition online_grabber : FileGrabber :=
  mkFileGrabber (Some "/data") (Some FTPClient).

Definition offline_grabber : FileGrabber :=
  mkFileGrabber (Some "/data") None.

Definition rdf_phot : RemoteDatFile :=
  mkRemoteDatFile 2015 "0007" "blg" "phot"
    "/ogle/ogle4/ews/2015/blg-0007/phot.dat"
    "ftp://ftp.astrouw.edu.pl/ogle/ogle4/ews/2015/blg-0007/phot.dat".

(** Spectra for [pgram], in place of [scipy.signal.lombscargle]. *)


(** A dominant slow oscillation: power 1 at grid index 1500 (angular
    frequency near 0.0046, under the floor 0.01), power 1/2 at grid index
    5000 (near 0.0151, above the floor), and 1/10 elsewhere. *)
Definition slow_index : nat := Z.to_nat 1500.
Definition band_index : nat := Z.to_nat 5000.
Definition slow_peak_spectrum : list Q -> list Q -> list Q -> list Q :=
  fun _ _ freqs =>
    map (fun i : nat =>
           if Nat.eqb i slow_index then 1%Q
           else if Nat.eqb i band_index then (1 # 2)%Q
           else (1 # 10)%Q)
        (seq 0 (length freqs)).

End scenarios.

(** ** More scenarios *)

Module scenarios_more.

Import filegrabber.

Definition dead_link : nat -> response := fun _ => TempError.
Definition first_only (ls : list string) : nat -> response :=
  fun k => match k with O => Lines ls | S _ => PermError 550 end.

(** The empty cache of [/data] with room for three nested calls. *)
Definition shallow (srv : nat -> response) : world :=
  mkWorld ∅ {["/data"]} ∅ srv 0 [] [] 3.

(** A cache that holds the photometry of 2015-BLG-0007, with white space
    around the text. *)
Definition warm_cache : world :=
  mkWorld {["/data/2015/blg-0007/phot.dat" := " 2457000.5 15.123 0.004  "]}
    {["/data"; "/data/2015"; "/data/2015/blg-0007"]} ∅ dead_link 0 [] [] 1000.

(** A world where [/data/] names a directory. *)
Definition slash_world : world :=
  mkWorld ∅ {["/data/"]} ∅ dead_link 0 [] [] 1000.

End scenarios_more.

(** ** Spectra for the periodogram *)

Module scenarios_peak.

Import Py.

(** A single line: power 1 at grid index 5000 and 1/10 elsewhere. *)
Definition peak_index : nat := Z.to_nat 5000.
Definition peak_spectrum : list Q -> list Q -> list Q -> list Q :=
  fun _ _ freqs =>
    map (fun i : nat => if Nat.eqb i peak_index then 1%Q else (1 # 10)%Q)
        (seq 0 (length freqs)).


(** The same spectrum as [lombscargle] delivers it, and a short series. *)
Definition peak_powers
  : list Q -> list Q -> list Q -> result (list periodogram_nan.power) :=
  fun t y freqs => Ok (map periodogram_nan.Num (peak_spectrum t y freqs)).
Definition sample_times : list Q := [2457000; 2457001; 2457002]%Q.
Definition sample_magnitudes : list Q := [18; 19; 18]%Q.


(** The spectrum of a series that is zero throughout: NaN at every
    frequency. *)
Definition nan_spectrum
  : list Q -> list Q -> list Q -> result (list periodogram_nan.power) :=
  fun _ _ freqs => Ok (map (fun _ => periodogram_nan.NaN) freqs).
Definition flat_magnitudes : list Q := [0; 0; 0]%Q.

End scenarios_peak.


(** * Properties *)

(** ** Archive generations and zero padding *)

Module filegrabber_facts.

Import filegrabber.
Local Open Scope Z_scope.

(** The years of the three archive generations. *)
Definition supported (year : Z) : Prop :=
  1998 <= year <= 2000 \/ 2002 <= year <= 2009 \/ 2011 <= year <= 2019.

Lemma length_zeros k : String.length (zeros k) = k.
Proof. induction k as [|k IH]; simpl; [reflexivity | now rewrite IH]. Qed.

Lemma length_append (s1 s2 : string) :
  String.length (s1 +:+ s2) = (String.length s1 + String.length s2)%nat.
Proof. induction s1 as [|c s1 IH]; simpl; [reflexivity | now rewrite IH]. Qed.

(** [zfill] never shortens and pads up to the width. *)
Lemma zfill_length s width :
  String.length (zfill s width) = Nat.max width (String.length s).
Proof.
  unfold zfill. destruct (Nat.leb_spec width (String.length s)) as [Hle|Hlt].
  - lia.
  - destruct s as [|c rest].
    + rewrite length_zeros. simpl in *. lia.
    + destruct (Ascii.eqb c "+" || Ascii.eqb c "-")%bool; simpl in *;
        rewrite length_append, length_zeros; simpl; lia.
Qed.

Lemma get_ogle_version_unsupported year :
  ~ supported year ->
  get_ogle_version year = Raise (Exception "Unsupported year.").
Proof.
  unfold supported, get_ogle_version. intros Hout.
  destruct (Z.leb_spec 1998 year), (Z.leb_spec year 2000),
    (Z.leb_spec 2002 year), (Z.leb_spec year 2009),
    (Z.leb_spec 2011 year), (Z.leb_spec year 2019);
    simpl; try reflexivity; exfalso; apply Hout; lia.
Qed.

Lemma get_ogle_version_supported year :
  supported year ->
  exists v, get_ogle_version year = Ok v /\ (v = 2 \/ v = 3 \/ v = 4).
Proof.
  unfold supported, get_ogle_version. intros Hin.
  destruct (Z.leb_spec 1998 year), (Z.leb_spec year 2000),
    (Z.leb_spec 2002 year), (Z.leb_spec year 2009),
    (Z.leb_spec 2011 year), (Z.leb_spec year 2019);
    simpl; eauto; exfalso; lia.
Qed.

(** C7: every year of the three inclusive ranges maps to its generation
    (1998..2000 to 2, 2002..2009 to 3, 2011..2019 to 4) and [padded_n]
    pads the event number to the width of that generation (2, 3, 4); for
    a year outside all three ranges [get_ogle_version] and [padded_n]
    both raise the unsupported-year exception. *)
Theorem generation_and_padding (year n : Z) :
  (1998 <= year <= 2000 ->
     get_ogle_version year = Ok 2 /\
     padded_n n year = Ok (zfill (str n) 2) /\
     exists s, padded_n n year = Ok s /\ (2 <= String.length s)%nat) /\
  (2002 <= year <= 2009 ->
     get_ogle_version year = Ok 3 /\
     padded_n n year = Ok (zfill (str n) 3) /\
     exists s, padded_n n year = Ok s /\ (3 <= String.length s)%nat) /\
  (2011 <= year <= 2019 ->
     get_ogle_version year = Ok 4 /\
     padded_n n year = Ok (zfill (str n) 4) /\
     exists s, padded_n n year = Ok s /\ (4 <= String.length s)%nat) /\
  (~ supported year ->
     get_ogle_version year = Raise (Exception "Unsupported year.") /\
     padded_n n year = Raise (Exception "Unsupported year.")).
Proof.
  assert (Hpad : forall w, (w <= String.length (zfill (str n) w))%nat)
    by (intros w; rewrite zfill_length; lia).
  unfold padded_n, get_ogle_version.
  split; [|split; [|split]].
  - intros Hy.
    destruct (Z.leb_spec 1998 year), (Z.leb_spec year 2000); try lia.
    simpl. eauto.
  - intros Hy.
    destruct (Z.leb_spec 1998 year), (Z.leb_spec year 2000),
      (Z.leb_spec 2002 year), (Z.leb_spec year 2009); try lia;
      simpl; eauto.
  - intros Hy.
    destruct (Z.leb_spec 1998 year), (Z.leb_spec year 2000),
      (Z.leb_spec 2002 year), (Z.leb_spec year 2009),
      (Z.leb_spec 2011 year), (Z.leb_spec year 2019); try lia;
      simpl; eauto.
  - intros Hout.
    fold (get_ogle_version year).
    rewrite get_ogle_version_unsupported by assumption. split; reflexivity.
Qed.

(** The padding at one year of each generation and at the gap year 2010. *)
Lemma generation_and_padding_witness :
  padded_n 7 1999 = Ok "07" /\ padded_n 7 2005 = Ok "007" /\
  padded_n 7 2015 = Ok "0007" /\
  padded_n 7 2010 = Raise (Exception "Unsupported year.").
Proof.
  split; [|split; [|split]].
  - destruct (generation_and_padding 1999 7) as (H & _).
    destruct H as (_ & H & _); [lia | exact H].
  - destruct (generation_and_padding 2005 7) as (_ & H & _).
    destruct H as (_ & H & _); [lia | exact H].
  - destruct (generation_and_padding 2015 7) as (_ & _ & H & _).
    destruct H as (_ & H & _); [lia | exact H].
  - destruct (generation_and_padding 2010 7) as (_ & _ & _ & H).
    destruct H as (_ & H); [unfold supported; lia | exact H].
Defined.

(** *** The transient-failure path of [get_contents] *)

Local Open Scope nat_scope.

(** One call of [get_contents_at] whose request meets a transient failure:
    the connection is closed, reopened and logged in again and the same
    request is sent once more, whatever the inner call then does. *)
Lemma get_contents_at_transient depth self ftp w :
  server w (sent w) = TempError ->
  get_contents_at (S depth) self ftp w =
    let cmd := "RETR " +:+ filepath self in
    let w1 :=
      log_ftp EvLogin
        (log_ftp (EvConnect ftp_url)
           (log_ftp EvClose (bump_sent (log_ftp (EvRetr cmd) w)))) in
    match get_contents_at depth self ftp w1 with
    | (w2, Ok _) => (w2, Raise (UnboundLocalError "filecontents"))
    | (w2, Raise e) => (w2, Raise e)
    end.
Proof.
  intros Hreply. cbn [get_contents_at].
  unfold mbind at 1. unfold FTP_retrlines at 1. rewrite Hreply.
  unfold mbind, FTP_close, FTP_connect, FTP_login, effect, raise. cbn.
  destruct (get_contents_at depth self ftp _) as [w2 [v|e]]; reflexivity.
Qed.

Lemma get_contents_at_lines depth self ftp w ls :
  server w (sent w) = Lines ls ->
  get_contents_at (S depth) self ftp w =
    (bump_sent (log_ftp (EvRetr ("RETR " +:+ filepath self)) w),
     Ok (DatStream_getvalue (fold_left DatStream_write ls DatStream_new))).
Proof.
  intros Hreply. cbn [get_contents_at].
  unfold mbind, FTP_retrlines. rewrite Hreply. reflexivity.
Qed.

(** After a transient failure no call of [get_contents] returns a value. *)
Lemma get_contents_transient_never_returns self ftp w :
  server w (sent w) = TempError ->
  ~ Py.returns (snd (get_contents self ftp w)).
Proof.
  intros Hreply. unfold get_contents.
  destruct (recursion_limit w) as [|depth]; [cbn; tauto|].
  rewrite get_contents_at_transient by assumption. cbn zeta.
  destruct (get_contents_at depth self ftp _) as [w2 [v|e]]; cbn; tauto.
Qed.

(** C2: a transient failure followed by a successful retry.  The client
    closes the connection, connects and logs in again and sends the same
    [RETR] once more, but the content the retry obtained does not reach the
    caller: the call ends in [UnboundLocalError]. *)
Theorem get_contents_retry_loses_content self ftp w depth ls :
  server w (sent w) = TempError ->
  server w (S (sent w)) = Lines ls ->
  recursion_limit w = S (S depth) ->
  let cmd := "RETR " +:+ filepath self in
  exists w',
    get_contents self ftp w = (w', Raise (UnboundLocalError "filecontents"))
    /\ ftplog w' =
         ftplog w ++ [EvRetr cmd; EvClose; EvConnect ftp_url; EvLogin;
                      EvRetr cmd]
    /\ sent w' = S (S (sent w)).
Proof.
  intros Hfirst Hsecond Hdepth cmd. unfold get_contents. rewrite Hdepth.
  rewrite get_contents_at_transient by assumption. cbn zeta.
  rewrite (get_contents_at_lines depth self ftp _ ls) by exact Hsecond.
  eexists. split; [reflexivity|]. split; [|reflexivity].
  cbn. repeat rewrite <- app_assoc. reflexivity.
Qed.

(** *** A grabber without FTP client *)

Lemma padded_n_supported n year :
  supported year -> exists pn, padded_n n year = Ok pn.
Proof.
  intros Hy. destruct (get_ogle_version_supported year Hy) as (v & Hv & Hcase).
  unfold padded_n. rewrite Hv. cbn.
  destruct Hcase as [-> | [-> | ->]]; cbn; eauto.
Qed.

Lemma padded_n_version n year pn :
  padded_n n year = Ok pn -> exists v, get_ogle_version year = Ok v.
Proof.
  unfold padded_n. destruct (get_ogle_version year) as [v|e]; cbn; [eauto|].
  discriminate.
Qed.

Lemma RemoteDatFile_init_ok year n field dat_type pn :
  padded_n n year = Ok pn ->
  exists rdf, RemoteDatFile_init year n field dat_type = Ok rdf
              /\ rdf_n rdf = pn.
Proof.
  intros Hpn. destruct (padded_n_version _ _ _ Hpn) as (v & Hv).
  unfold RemoteDatFile_init, __ftp_filepath. rewrite Hpn, Hv. cbn. eauto.
Qed.

(** The cache path of a request, when the grabber has a data directory. *)
Definition cache_path (fg : FileGrabber) (year n : Z) (field dat_type : string)
  : option string :=
  match datadir fg, padded_n n year with
  | Some dir, Ok pn =>
      Some (local_filepath_temp dir year (lower field) pn dat_type)
  | _, _ => None
  end.

(** The document is not in the cache, or there is no cache at all. *)
Definition not_cached (fg : FileGrabber) (year n : Z) (field dat_type : string)
    (w : world) : Prop :=
  forall p, cache_path fg year n field dat_type = Some p -> files w !! p = None.

Lemma isfile_true p w : isfile p w = true <-> is_Some (files w !! p).
Proof. unfold isfile. apply bool_decide_eq_true. Qed.

Lemma isfile_false p w : isfile p w = false <-> files w !! p = None.
Proof.
  unfold isfile. rewrite bool_decide_eq_false. rewrite eq_None_not_Some.
  reflexivity.
Qed.

(** Construction without [ftp_enabled] touches nothing and sets no client. *)
Lemma FileGrabber_init_disabled d w0 w1 fg :
  FileGrabber_init d false w0 = (w1, Ok fg) -> w1 = w0 /\ ftpclient fg = None.
Proof.
  unfold FileGrabber_init, mbind, __verify_datadir, ret.
  destruct d as [dir|].
  - destruct (isdir dir w0); [|discriminate].
    destruct (endswith_slash dir); intros [= <- <-]; split; reflexivity.
  - intros [= <- <-]. split; reflexivity.
Qed.

Lemma FileGrabber_init_enabled d w0 w1 fg :
  FileGrabber_init d true w0 = (w1, Ok fg) ->
  ftpclient fg = Some FTPClient
  /\ ftplog w1 = ftplog w0 ++ [EvConnect ftp_url; EvLogin].
Proof.
  unfold FileGrabber_init, mbind, __verify_datadir, ret, FTP_new, FTP_login,
    FTP_connect, effect, mbind, ret.
  destruct d as [dir|].
  - destruct (isdir dir w0); [|discriminate].
    destruct (endswith_slash dir); intros [= <- <-]; cbn;
      rewrite <- app_assoc; split; reflexivity.
  - intros [= <- <-]. cbn. rewrite <- app_assoc. split; reflexivity.
Qed.

(** A request the cache cannot serve, made without FTP client. *)
Lemma get_datfile_no_client fg year n field dat_type w :
  ftpclient fg = None ->
  supported year ->
  not_cached fg year n field dat_type w ->
  get_datfile fg year n field dat_type w
  = (w, Raise (AttributeError "ftpclient")).
Proof.
  intros Hnone Hy Habsent.
  destruct (padded_n_supported n year Hy) as (pn & Hpn).
  destruct (RemoteDatFile_init_ok year n field dat_type pn Hpn)
    as (rdf & Hrdf & _).
  unfold get_datfile, mbind, lift, gets, getattr_ftpclient.
  rewrite Hrdf, Hnone. unfold not_cached, cache_path in Habsent.
  unfold __get_local_filepath, str_datadir.
  destruct (datadir fg) as [dir|]; [|reflexivity].
  rewrite Hpn in *. cbn.
  rewrite (proj2 (isfile_false _ w)) by (apply Habsent; reflexivity).
  reflexivity.
Qed.

(** The same request with a client and a server that delivers the file. *)
Lemma get_datfile_fetches fg year n field dat_type w ftp rdf ls :
  ftpclient fg = Some ftp ->
  RemoteDatFile_init year n field dat_type = Ok rdf ->
  not_cached fg year n field dat_type w ->
  server w (sent w) = Lines ls ->
  recursion_limit w <> 0 ->
  get_datfile fg year n field dat_type w
  = (bump_sent (log_ftp (EvRetr ("RETR " +:+ filepath rdf)) w),
     Ok (DatFile_init (fileurl rdf)
           (DatStream_getvalue (fold_left DatStream_write ls DatStream_new)))).
Proof.
  intros Hftp Hrdf Habsent Hreply Hdepth.
  assert (Hget : get_contents rdf ftp w
                 = (bump_sent (log_ftp (EvRetr ("RETR " +:+ filepath rdf)) w),
                    Ok (DatStream_getvalue
                          (fold_left DatStream_write ls DatStream_new)))).
  { unfold get_contents. destruct (recursion_limit w); [congruence|].
    now apply get_contents_at_lines. }
  unfold get_datfile, mbind, lift, gets, getattr_ftpclient.
  rewrite Hrdf, Hftp. unfold not_cached, cache_path in Habsent.
  unfold __get_local_filepath, str_datadir.
  destruct (datadir fg) as [dir|].
  - assert (Hpn : exists pn, padded_n n year = Ok pn).
    { unfold RemoteDatFile_init in Hrdf.
      destruct (padded_n n year); [eauto|discriminate]. }
    destruct Hpn as (pn & Hpn). rewrite Hpn in *. cbn.
    rewrite (proj2 (isfile_false _ w)) by (apply Habsent; reflexivity).
    rewrite Hget. reflexivity.
  - rewrite Hget. reflexivity.
Qed.

(** C10: a [FileGrabber] built with [ftp_enabled=False], the default that
    [Event] relies on, opens no connection; a request for a supported year
    whose document is not in the cache, or made without data directory,
    ends in [AttributeError] for [ftpclient] and leaves the world as it
    was.  Built with [ftp_enabled=True] the grabber connects, logs in and
    serves the same request from the server. *)
Theorem default_grabber_cannot_fetch (d : option string) (w0 w1 : world)
    (fg : FileGrabber) :
  FileGrabber_init d false w0 = (w1, Ok fg) ->
  (w1 = w0 /\ ftpclient fg = None)
  /\ (forall w,
        event.default_fgrabber None w
        = FileGrabber_init (environ w !! "OGLEDATADIR") false w)
  /\ (forall year n field dat_type w,
        supported year ->
        not_cached fg year n field dat_type w ->
        get_datfile fg year n field dat_type w
        = (w, Raise (AttributeError "ftpclient")))
  /\ (forall d' w w' fg' year n field dat_type rdf ls,
        FileGrabber_init d' true w = (w', Ok fg') ->
        RemoteDatFile_init year n field dat_type = Ok rdf ->
        not_cached fg' year n field dat_type w' ->
        server w' (sent w') = Lines ls ->
        recursion_limit w' <> 0 ->
        ftplog w' = ftplog w ++ [EvConnect ftp_url; EvLogin]
        /\ exists w'',
            get_datfile fg' year n field dat_type w'
            = (w'', Ok (DatFile_init (fileurl rdf)
                          (DatStream_getvalue
                             (fold_left DatStream_write ls DatStream_new))))).
Proof.
  intros Hinit.
  destruct (FileGrabber_init_disabled _ _ _ _ Hinit) as (Hw & Hnone).
  split; [split; assumption|]. split; [reflexivity|]. split.
  - intros. now apply get_datfile_no_client.
  - intros d' w w' fg' year n field dat_type rdf ls Hinit' Hrdf Habs Hrep Hdep.
    destruct (FileGrabber_init_enabled _ _ _ _ Hinit') as (Hsome & Hlog).
    split; [exact Hlog|]. eexists.
    now apply (get_datfile_fetches fg' year n field dat_type w' FTPClient rdf ls).
Qed.

(** *** The cache and [save] *)

Lemma mbind_ok {A B} (m : M A) (k : A -> M B) w w' b :
  mbind m k w = (w', Ok b) ->
  exists a w1, m w = (w1, Ok a) /\ k a w1 = (w', Ok b).
Proof.
  unfold mbind. destruct (m w) as [w1 [a|e]]; [eauto|discriminate].
Qed.

(** [get_contents] leaves the file system and the output alone. *)
Lemma get_contents_at_frame depth self ftp w w' r :
  get_contents_at depth self ftp w = (w', r) ->
  files w' = files w /\ dirs w' = dirs w /\ stdout w' = stdout w.
Proof.
  revert w w' r. induction depth as [|depth IH]; intros w w' r.
  - cbn. intros [= <- <-]. auto.
  - cbn [get_contents_at]. unfold mbind at 1. unfold FTP_retrlines at 1.
    destruct (server w (sent w)) as [ls|code|].
    + intros [= <- <-]. auto.
    + destruct (code =? 550)%Z; [|destruct (code =? 530)%Z];
        intros [= <- <-]; auto.
    + unfold mbind, FTP_close, FTP_connect, FTP_login, effect, raise. cbn.
      destruct (get_contents_at depth self ftp _) as [w2 [v|e]] eqn:Hin;
        intros [= <- <-]; apply IH in Hin; cbn in Hin; exact Hin.
Qed.

(** A call of [get_contents] that returns got its text from the first
    reply. *)
Lemma get_contents_ok self ftp w w' text :
  get_contents self ftp w = (w', Ok text) ->
  exists ls, server w (sent w) = Lines ls
    /\ text = DatStream_getvalue (fold_left DatStream_write ls DatStream_new)
    /\ w' = bump_sent (log_ftp (EvRetr ("RETR " +:+ filepath self)) w).
Proof.
  unfold get_contents. destruct (recursion_limit w) as [|depth].
  - cbn. discriminate.
  - destruct (server w (sent w)) as [ls|code|] eqn:Hreply.
    + rewrite (get_contents_at_lines depth self ftp w ls Hreply).
      intros [= <- <-]. eauto.
    + cbn [get_contents_at]. unfold mbind, FTP_retrlines. rewrite Hreply.
      destruct (code =? 550)%Z; [|destruct (code =? 530)%Z]; discriminate.
    + rewrite get_contents_at_transient by assumption. cbn zeta.
      destruct (get_contents_at depth self ftp _) as [w2 [v|e]]; discriminate.
Qed.

(** A document that is in the cache: no request, no write, one line of
    output. *)
Lemma save_one_cached fg year n field dt w p c :
  cache_path fg year n field dt = Some p ->
  files w !! p = Some c ->
  save_one fg year n field dt w = (print (p +:+ " " +:+ "exists") w, Ok tt).
Proof.
  unfold cache_path. intros Hp Hc.
  destruct (datadir fg) as [dir|] eqn:Hdir; [|discriminate].
  destruct (padded_n n year) as [pn|] eqn:Hpn; [|discriminate].
  injection Hp as <-.
  destruct (RemoteDatFile_init_ok year n field dt pn Hpn) as (rdf & Hrdf & _).
  assert (Hfile : forall w0, files w0 = files w ->
            isfile (local_filepath_temp dir year (lower field) pn dt) w0 = true).
  { intros w0 Hw0. apply isfile_true. rewrite Hw0, Hc. eauto. }
  unfold save_one, get_datfile, __force_write, mbind, lift, gets, read_file,
    ret, effect, __get_local_filepath, str_datadir.
  rewrite Hrdf, Hdir, Hpn. cbn.
  rewrite (Hfile w eq_refl), Hc. cbn. rewrite (Hfile w eq_refl). reflexivity.
Qed.
(** The text the server's lines make once they went through [DatStream]
    and [DatFile]. *)
Definition served (ls : list string) : string :=
  strip (DatStream_getvalue (fold_left DatStream_write ls DatStream_new)).

(** A document that is not in the cache and whose [save] step returns: the
    first reply carried the file, the text is now at the cache path, its
    directory exists and the step reported [saved]. *)
Lemma save_one_fetched fg year n field dt w w' p :
  cache_path fg year n field dt = Some p ->
  files w !! p = None ->
  save_one fg year n field dt w = (w', Ok tt) ->
  exists ls,
    server w (sent w) = Lines ls
    /\ files w' = <[p := served ls]> (files w)
    /\ stdout w' = stdout w ++ [p +:+ " " +:+ "saved"]
    /\ (dirname p = EmptyString \/ dirname p ∈ dirs w')
    /\ dirs w ⊆ dirs w'
    /\ sent w' = S (sent w)
    /\ server w' = server w
    /\ recursion_limit w' = recursion_limit w.
Proof.
  unfold cache_path. intros Hp Hnone Hsave.
  destruct (datadir fg) as [dir|] eqn:Hdir; [|discriminate].
  destruct (padded_n n year) as [pn|] eqn:Hpn; [|discriminate].
  injection Hp as Hp.
  destruct (RemoteDatFile_init_ok year n field dt pn Hpn) as (rdf & Hrdf & _).
  unfold save_one in Hsave.
  apply mbind_ok in Hsave as (datfile & wa & Hget & Hsave).
  apply mbind_ok in Hsave as (fp & wb & Hfp & Hsave).
  apply mbind_ok in Hsave as (outcome & wc & Hwrite & Hprint).
  (* the path *)
  unfold lift, __get_local_filepath, str_datadir in Hfp.
  rewrite Hdir, Hpn in Hfp. cbn in Hfp. rewrite Hp in Hfp.
  injection Hfp as <- <-.
  (* the fetch *)
  unfold get_datfile in Hget.
  apply mbind_ok in Hget as (rdf' & w0 & Hrdf' & Hget).
  unfold lift in Hrdf'. rewrite Hrdf in Hrdf'. injection Hrdf' as <- <-.
  apply mbind_ok in Hget as (text & wf & Hget & Hret).
  unfold ret in Hret. injection Hret as <- <-.
  rewrite Hdir in Hget.
  apply mbind_ok in Hget as (fp & w0 & Hfp & Hget).
  unfold lift, __get_local_filepath, str_datadir in Hfp.
  rewrite Hdir, Hpn in Hfp. cbn in Hfp. rewrite Hp in Hfp.
  injection Hfp as <- <-.
  apply mbind_ok in Hget as (cached & w0 & Hcached & Hget).
  unfold gets in Hcached. injection Hcached as <- <-.
  rewrite (proj2 (isfile_false p w) Hnone) in Hget.
  apply mbind_ok in Hget as (ftp & w0 & Hftp & Hget).
  unfold lift in Hftp. injection Hftp as <- _.
  apply get_contents_ok in Hget as (ls & Hreply & -> & ->).
  exists ls. split; [exact Hreply|].
  (* the write *)
  set (wf := bump_sent (log_ftp (EvRetr ("RETR " +:+ filepath rdf)) w)) in *.
  assert (Hnone' : files wf !! p = None) by exact Hnone.
  unfold __force_write in Hwrite.
  apply mbind_ok in Hwrite as (present & w0 & Hpresent & Hwrite).
  unfold gets in Hpresent. injection Hpresent as <- <-.
  rewrite (proj2 (isfile_false p wf) Hnone') in Hwrite.
  apply mbind_ok in Hwrite as (there & w0 & Hthere & Hwrite).
  unfold gets in Hthere. injection Hthere as <- <-.
  apply mbind_ok in Hwrite as ([] & wd & Hmk & Hwrite).
  apply mbind_ok in Hwrite as ([] & we & Hopen & Hret).
  unfold ret in Hret. injection Hret as <- <-.
  cbn in Hprint. unfold effect in Hprint. injection Hprint as <-.
  assert (Hwd : files wd = files wf /\ dirs wf ⊆ dirs wd /\ stdout wd = stdout wf
                /\ sent wd = sent wf /\ server wd = server wf
                /\ recursion_limit wd = recursion_limit wf).
  { destruct (exists_path (dirname p) wf).
    - unfold ret in Hmk. injection Hmk as <-. repeat split; reflexivity.
    - unfold makedirs in Hmk.
      destruct (String.eqb (dirname p) EmptyString); [discriminate|].
      destruct (existsb _ _); [discriminate|].
      injection Hmk as <-. cbn. repeat split; try reflexivity.
      apply union_subseteq_l. }
  destruct Hwd as (Hfiles & Hdirs & Hout & Hsent & Hserver & Hlimit).
  unfold write_file in Hopen.
  destruct (isdir p wd); [discriminate|].
  destruct (String.eqb (dirname p) EmptyString) eqn:Hempty.
  - cbn in Hopen. injection Hopen as <-. cbn.
    rewrite Hfiles, Hout, Hsent, Hserver, Hlimit. repeat split; try reflexivity.
    + left. now apply String.eqb_eq.
    + exact Hdirs.
  - destruct (isdir (dirname p) wd) eqn:Hisdir; [|discriminate].
    cbn in Hopen. injection Hopen as <-. cbn.
    rewrite Hfiles, Hout, Hsent, Hserver, Hlimit. repeat split; try reflexivity.
    + right. unfold isdir in Hisdir. now apply bool_decide_eq_true in Hisdir.
    + exact Hdirs.
Qed.
(** *** The shape of the cache paths *)

Lemma append_nil (b : string) : EmptyString +:+ b = b.
Proof. reflexivity. Qed.

Lemma append_cons (x : ascii) (a b : string) :
  String x a +:+ b = String x (a +:+ b).
Proof. reflexivity. Qed.

Lemma append_assoc (a b c : string) : (a +:+ b) +:+ c = a +:+ (b +:+ c).
Proof.
  induction a as [|x a IH]; [reflexivity|].
  rewrite !append_cons. now rewrite IH.
Qed.

Lemma append_cancel (a b c : string) : a +:+ b = a +:+ c -> b = c.
Proof.
  induction a as [|x a IH]; [rewrite !append_nil; tauto|].
  rewrite !append_cons. intros [= H]. now apply IH.
Qed.

(** The directory of an event in the cache. *)
Definition event_dir (dir : string) (year : Z) (field pn : string) : string :=
  dir +:+ "/" +:+ str year +:+ "/" +:+ field +:+ "-" +:+ pn.

Lemma local_filepath_split dir year field pn dt :
  local_filepath_temp dir year field pn dt
  = event_dir dir year field pn +:+ "/" +:+ dt +:+ ".dat".
Proof.
  unfold local_filepath_temp, event_dir.
  repeat rewrite append_assoc. reflexivity.
Qed.

(** The two documents of an event have different cache paths. *)
Lemma cache_paths_differ fg year n field p q :
  cache_path fg year n field "phot" = Some p ->
  cache_path fg year n field "params" = Some q ->
  p <> q.
Proof.
  unfold cache_path.
  destruct (datadir fg) as [dir|]; [|discriminate].
  destruct (padded_n n year) as [pn|]; [|discriminate].
  intros [= <-] [= <-]. rewrite !local_filepath_split.
  intros Heq. apply append_cancel in Heq. discriminate.
Qed.

Lemma head_of_slash_tail (x tail : string) :
  head_of tail = EmptyString ->
  head_of (x +:+ "/" +:+ tail) = x +:+ "/".
Proof.
  intros Htail. induction x as [|c x IH].
  - change (EmptyString +:+ "/" +:+ tail) with (String "/" tail).
    simpl. now rewrite Htail.
  - rewrite (append_cons c x). simpl. rewrite IH. destruct x; reflexivity.
Qed.

Lemma all_slashes_dash (a b : string) :
  all_slashes (a +:+ "-" +:+ b) = false.
Proof.
  induction a as [|c a IH].
  - reflexivity.
  - rewrite append_cons. simpl. rewrite IH. apply andb_false_r.
Qed.

Lemma rstrip_slash_empty (s : string) :
  rstrip_slash s = EmptyString -> all_slashes s = true.
Proof.
  induction s as [|c s IH]; simpl; [reflexivity|].
  destruct (rstrip_slash s); [|discriminate].
  destruct (Ascii.eqb c "/"); [|discriminate]. intros _. now rewrite IH.
Qed.

(** A cache path of [save] has a directory part. *)
Lemma dirname_cache_path fg year n field dt p :
  dt = "phot" \/ dt = "params" ->
  cache_path fg year n field dt = Some p ->
  dirname p <> EmptyString.
Proof.
  unfold cache_path. intros Hdt.
  destruct (datadir fg) as [dir|]; [|discriminate].
  destruct (padded_n n year) as [pn|]; [|discriminate].
  intros [= <-]. rewrite local_filepath_split. unfold dirname.
  assert (Hhead : head_of (event_dir dir year (lower field) pn
                             +:+ "/" +:+ dt +:+ ".dat")
                  = event_dir dir year (lower field) pn +:+ "/").
  { apply head_of_slash_tail. destruct Hdt as [-> | ->]; reflexivity. }
  rewrite Hhead.
  assert (Hdash : all_slashes (event_dir dir year (lower field) pn +:+ "/")
                  = false).
  { unfold event_dir.
    replace ((dir +:+ "/" +:+ str year +:+ "/" +:+ lower field +:+ "-"
                +:+ pn) +:+ "/")
      with ((dir +:+ "/" +:+ str year +:+ "/" +:+ lower field) +:+ "-"
              +:+ (pn +:+ "/"))
      by (repeat rewrite append_assoc; reflexivity).
    apply all_slashes_dash. }
  rewrite Hdash. intros Hempty. apply rstrip_slash_empty in Hempty. congruence.
Qed.
(** *** One run of [save] and the next *)

(** The word [save] prints for a document and the number of requests it
    costs, from the state of the cache before the run. *)
Definition outcome_word (w : world) (p : string) : string :=
  if isfile p w then "exists" else "saved".
Definition fetched (w : world) (p : string) : nat :=
  if isfile p w then 0 else 1.

Lemma save_one_path fg year n field dt w w' dir :
  datadir fg = Some dir ->
  save_one fg year n field dt w = (w', Ok tt) ->
  exists p, cache_path fg year n field dt = Some p.
Proof.
  intros Hdir Hsave. unfold save_one in Hsave.
  apply mbind_ok in Hsave as (datfile & wa & _ & Hsave).
  apply mbind_ok in Hsave as (fp & wb & Hfp & _).
  unfold lift, __get_local_filepath in Hfp. unfold cache_path. rewrite Hdir.
  destruct (padded_n n year); [eauto|discriminate].
Qed.

(** What one step of the loop of [save] does to the world. *)
Lemma save_one_step fg year n field dt w w' p :
  dt = "phot" \/ dt = "params" ->
  cache_path fg year n field dt = Some p ->
  save_one fg year n field dt w = (w', Ok tt) ->
  stdout w' = stdout w ++ [p +:+ " " +:+ outcome_word w p]
  /\ sent w' = sent w + fetched w p
  /\ server w' = server w
  /\ dirs w ⊆ dirs w'
  /\ match files w !! p with
     | Some c => files w' = files w /\ ftplog w' = ftplog w
     | None =>
         exists ls, server w (sent w) = Lines ls
                    /\ files w' = <[p := served ls]> (files w)
                    /\ dirname p ∈ dirs w'
     end.
Proof.
  intros Hdt Hp Hsave. unfold outcome_word, fetched.
  destruct (files w !! p) as [c|] eqn:Hc.
  - rewrite (save_one_cached fg year n field dt w p c Hp Hc) in Hsave.
    injection Hsave as <-.
    rewrite (proj2 (isfile_true p w)) by (rewrite Hc; eauto).
    cbn. rewrite Nat.add_0_r. repeat split; reflexivity.
  - destruct (save_one_fetched fg year n field dt w w' p Hp Hc Hsave)
      as (ls & Hreply & Hfiles & Hout & Hdir & Hdirs & Hsent & Hserver & _).
    rewrite (proj2 (isfile_false p w) Hc).
    rewrite Hout, Hsent, Hserver. repeat split; try lia; try assumption.
    exists ls. repeat split; try assumption.
    destruct Hdir as [Hempty|Hin]; [|exact Hin].
    now apply (dirname_cache_path fg year n field dt p Hdt Hp) in Hempty.
Qed.

(** *** The scenarios *)

(** The event 2015-BLG-0007 against a server that times out once. *)
Lemma get_contents_retry_loses_content_witness :
  let w := scenarios.empty_cache (scenarios.flaky_once scenarios.phot_lines) in
  let cmd := "RETR /ogle/ogle4/ews/2015/blg-0007/phot.dat" in
  exists w',
    get_contents scenarios.rdf_phot FTPClient w
    = (w', Raise (UnboundLocalError "filecontents"))
    /\ ftplog w' = [EvRetr cmd; EvClose; EvConnect ftp_url; EvLogin; EvRetr cmd]
    /\ sent w' = 2.
Proof.
  exact (get_contents_retry_loses_content scenarios.rdf_phot FTPClient
           (scenarios.empty_cache (scenarios.flaky_once scenarios.phot_lines))
           998 scenarios.phot_lines eq_refl eq_refl eq_refl).
Defined.

(** The grabber [Event] builds for the data directory [/data]. *)
Lemma default_grabber_cannot_fetch_witness :
  get_datfile scenarios.offline_grabber 2015 7 "blg" "phot"
    (scenarios.empty_cache (scenarios.steady scenarios.phot_lines))
  = (scenarios.empty_cache (scenarios.steady scenarios.phot_lines),
     Raise (AttributeError "ftpclient")).
Proof.
  pose (w := scenarios.empty_cache (scenarios.steady scenarios.phot_lines)).
  assert (Hinit : FileGrabber_init (Some "/data") false w
                  = (w, Ok scenarios.offline_grabber)) by reflexivity.
  destruct (default_grabber_cannot_fetch _ _ _ _ Hinit) as (_ & _ & Hget & _).
  apply Hget.
  - unfold supported. lia.
  - intros p Hp. reflexivity.
Defined.

End filegrabber_facts.

(** ** The light curve *)

Module calculations_facts.

Import calculations.
Local Open Scope R_scope.

(** The blending fraction [Lightcurve.__init__] stores is the clamped
    entry of the dictionary. *)
Lemma Lightcurve_init_fbl params lc :
  Lightcurve_init params = Ok lc ->
  exists raw, params !! "fbl" = Some raw /\ fbl lc = __validate_fbl raw.
Proof.
  unfold Lightcurve_init, getitem.
  destruct (params !! "I_bl"); [|discriminate].
  destruct (params !! "umin"); [|discriminate].
  destruct (params !! "tau"); [|discriminate].
  destruct (params !! "Tmax"); [|discriminate].
  destruct (params !! "fbl") as [raw|]; [|discriminate].
  cbn. intros [= <-]. eauto.
Qed.

(** No method call changes the object. *)
Lemma after_calls_same lc ms : after_calls lc ms = lc.
Proof.
  unfold after_calls. revert lc.
  induction ms as [|m ms IH]; intros lc; [reflexivity|].
  cbn [fold_left]. destruct m; cbn [call fst]; apply IH.
Qed.

(** [Lightcurve.__init__] returns for every dictionary with the five keys
    and stores the clamped blending fraction beside the four other entries
    as they are. *)
Lemma Lightcurve_init_returns params vIbl vumin vtE vt0 vfbl :
  params !! "I_bl" = Some vIbl ->
  params !! "umin" = Some vumin ->
  params !! "tau" = Some vtE ->
  params !! "Tmax" = Some vt0 ->
  params !! "fbl" = Some vfbl ->
  Lightcurve_init params
  = Ok (mkLightcurve vIbl vumin vtE vt0 (__validate_fbl vfbl)).
Proof.
  intros H1 H2 H3 H4 H5. unfold Lightcurve_init, getitem.
  rewrite H1, H2, H3, H4, H5. reflexivity.
Qed.

(** C9: construction clamps the blending fraction into [0,1] and never
    rejects it: for every dictionary with the five entries
    [Lightcurve.__init__] returns, and the light curve it returns stores 1
    for an entry above 1, 0 for an entry below 0 and the entry itself
    inside [0,1] (1.5 gives 1, -0.2 gives 0); every light curve that
    construction returns stores the clamped entry, and keeps it through
    every sequence of method calls. *)
Theorem validate_fbl_clamps (f : R) :
  (f > 1 -> __validate_fbl f = 1)
  /\ (f < 0 -> __validate_fbl f = 0)
  /\ (0 <= f <= 1 -> __validate_fbl f = f)
  /\ 0 <= __validate_fbl f <= 1
  /\ __validate_fbl 1.5 = 1
  /\ __validate_fbl (-0.2) = 0
  /\ (forall params lc ms,
        params !! "fbl" = Some f ->
        Lightcurve_init params = Ok lc ->
        fbl (after_calls lc ms) = __validate_fbl f)
  /\ (forall params vIbl vumin vtE vt0,
        params !! "I_bl" = Some vIbl ->
        params !! "umin" = Some vumin ->
        params !! "tau" = Some vtE ->
        params !! "Tmax" = Some vt0 ->
        params !! "fbl" = Some f ->
        exists lc,
          Lightcurve_init params = Ok lc
          /\ lc = mkLightcurve vIbl vumin vtE vt0 (__validate_fbl f)
          /\ (f > 1 -> fbl lc = 1)
          /\ (f < 0 -> fbl lc = 0)
          /\ (0 <= f <= 1 -> fbl lc = f)
          /\ forall ms, fbl (after_calls lc ms) = fbl lc).
Proof.
  assert (Hhi : f > 1 -> __validate_fbl f = 1).
  { intros Hf. unfold __validate_fbl.
    destruct (Rgt_dec f 1); [reflexivity | lra]. }
  assert (Hlo : f < 0 -> __validate_fbl f = 0).
  { intros Hf. unfold __validate_fbl. destruct (Rgt_dec f 1); [lra|].
    destruct (Rlt_dec f 0); [reflexivity | lra]. }
  assert (Hin : 0 <= f <= 1 -> __validate_fbl f = f).
  { intros Hf. unfold __validate_fbl. destruct (Rgt_dec f 1); [lra|].
    destruct (Rlt_dec f 0); [lra | reflexivity]. }
  split; [exact Hhi|]. split; [exact Hlo|]. split; [exact Hin|].
  split.
  { unfold __validate_fbl. destruct (Rgt_dec f 1); [lra|].
    destruct (Rlt_dec f 0); lra. }
  split.
  { unfold __validate_fbl. destruct (Rgt_dec 1.5 1); [reflexivity | lra]. }
  split.
  { unfold __validate_fbl. destruct (Rgt_dec (-0.2) 1); [lra|].
    destruct (Rlt_dec (-0.2) 0); [reflexivity | lra]. }
  split.
  { intros params lc ms Hraw Hinit. rewrite after_calls_same.
    destruct (Lightcurve_init_fbl params lc Hinit) as (raw & Hraw' & ->).
    assert (raw = f) as -> by congruence. reflexivity. }
  intros params vIbl vumin vtE vt0 H1 H2 H3 H4 H5.
  exists (mkLightcurve vIbl vumin vtE vt0 (__validate_fbl f)).
  split; [now apply Lightcurve_init_returns|]. split; [reflexivity|].
  cbn [fbl]. split; [exact Hhi|]. split; [exact Hlo|]. split; [exact Hin|].
  intros ms. now rewrite after_calls_same.
Qed.

(** The dictionary of an event with a given blending fraction. *)
Definition params_with_fbl (f : R) : gmap string R :=
  {[ "I_bl" := 15; "umin" := 0.3; "tau" := 20; "Tmax" := 2457000;
     "fbl" := f ]}.

Lemma params_with_fbl_lookup f :
  params_with_fbl f !! "I_bl" = Some 15
  /\ params_with_fbl f !! "umin" = Some 0.3
  /\ params_with_fbl f !! "tau" = Some 20
  /\ params_with_fbl f !! "Tmax" = Some 2457000
  /\ params_with_fbl f !! "fbl" = Some f.
Proof.
  unfold params_with_fbl.
  repeat split; repeat (rewrite lookup_insert_ne by discriminate);
    try apply lookup_insert_eq; apply lookup_singleton_eq.
Qed.

(** Construction with 1.5, with -0.2 and with 0.5: the light curves that
    come out store 1, 0 and 0.5, also after calls of their methods. *)
Lemma validate_fbl_clamps_witness :
  (exists lc, Lightcurve_init (params_with_fbl 1.5) = Ok lc
              /\ fbl lc = 1
              /\ fbl (after_calls lc [call_mag 2457002]) = 1)
  /\ (exists lc, Lightcurve_init (params_with_fbl (-0.2)) = Ok lc
                 /\ fbl lc = 0)
  /\ (exists lc, Lightcurve_init (params_with_fbl 0.5) = Ok lc
                 /\ fbl lc = 0.5).
Proof.
  split; [|split].
  - destruct (validate_fbl_clamps 1.5) as (_ & _ & _ & _ & _ & _ & _ & Hinit).
    destruct (params_with_fbl_lookup 1.5) as (H1 & H2 & H3 & H4 & H5).
    destruct (Hinit _ _ _ _ _ H1 H2 H3 H4 H5)
      as (lc & Hlc & _ & Hhi & _ & _ & Hkeep).
    exists lc. split; [exact Hlc|].
    assert (Hfbl : fbl lc = 1) by (apply Hhi; lra).
    split; [exact Hfbl|]. now rewrite Hkeep.
  - destruct (validate_fbl_clamps (-0.2))
      as (_ & _ & _ & _ & _ & _ & _ & Hinit).
    destruct (params_with_fbl_lookup (-0.2)) as (H1 & H2 & H3 & H4 & H5).
    destruct (Hinit _ _ _ _ _ H1 H2 H3 H4 H5)
      as (lc & Hlc & _ & _ & Hlo & _).
    exists lc. split; [exact Hlc|]. apply Hlo. lra.
  - destruct (validate_fbl_clamps 0.5) as (_ & _ & _ & _ & _ & _ & _ & Hinit).
    destruct (params_with_fbl_lookup 0.5) as (H1 & H2 & H3 & H4 & H5).
    destruct (Hinit _ _ _ _ _ H1 H2 H3 H4 H5)
      as (lc & Hlc & _ & _ & _ & Hin & _).
    exists lc. split; [exact Hlc|]. apply Hin. lra.
Defined.

(** *** [mag] *)

(** The magnification of the unblended source at separation [u]. *)
Definition amplification (u : R) : R := (u ^ 2 + 2) / (u * sqrt (u ^ 2 + 4)).

(** The separation at time [t], in Einstein radii. *)
Definition separation (lc : Lightcurve) (t : R) : R :=
  sqrt (umin lc ^ 2 + ((t - t0 lc) / tE lc) ^ 2).

(** The magnitude the formula of [mag] gives where it is defined. *)
Definition magnitude (lc : Lightcurve) (t : R) : R :=
  -2.5 * (ln ((amplification (separation lc t) - 1) * fbl lc + 1) / ln 10)
  + Ibl lc.

Lemma separation_pos lc t :
  tE lc <> 0 -> (0 < umin lc \/ t <> t0 lc) -> 0 < separation lc t.
Proof.
  intros HtE Haway. unfold separation. apply sqrt_lt_R0.
  assert (Hq : 0 <= ((t - t0 lc) / tE lc) ^ 2) by apply pow2_ge_0.
  assert (Hu : 0 <= umin lc ^ 2) by apply pow2_ge_0.
  destruct Haway as [Hpos|Hne].
  - assert (0 < umin lc ^ 2) by (simpl; nra). lra.
  - assert (Hq0 : (t - t0 lc) / tE lc <> 0).
    { unfold Rdiv. apply Rmult_integral_contrapositive. split; [lra|].
      now apply Rinv_neq_0_compat. }
    assert (0 < ((t - t0 lc) / tE lc) ^ 2) by (simpl; nra). lra.
Qed.

Lemma amplification_pos u : 0 < u -> 0 < amplification u.
Proof.
  intros Hu. unfold amplification.
  assert (Hs : 0 < sqrt (u ^ 2 + 4)) by (apply sqrt_lt_R0; simpl; nra).
  apply Rdiv_lt_0_compat; [simpl; nra | nra].
Qed.

(** Away from the singular point the call returns the magnitude. *)
Lemma mag_returns lc t :
  tE lc <> 0 -> 0 <= fbl lc <= 1 -> (0 < umin lc \/ t <> t0 lc) ->
  mag lc t = Ok (magnitude lc t).
Proof.
  intros HtE Hf Haway.
  pose proof (separation_pos lc t HtE Haway) as Hu.
  pose proof (amplification_pos _ Hu) as HA.
  unfold mag, truediv at 1.
  destruct (Req_dec_T (tE lc) 0) as [Hz|_]; [contradiction|]. cbn [Py.bind].
  unfold math_sqrt at 1.
  destruct (Rlt_dec (umin lc ^ 2 + ((t - t0 lc) / tE lc) ^ 2) 0) as [Hneg|_].
  { pose proof (pow2_ge_0 (umin lc)). pose proof (pow2_ge_0 ((t - t0 lc) / tE lc)).
    lra. }
  cbn [Py.bind]. fold (separation lc t).
  unfold math_sqrt.
  destruct (Rlt_dec (separation lc t ^ 2 + 4) 0) as [Hneg|_].
  { pose proof (pow2_ge_0 (separation lc t)). lra. }
  cbn [Py.bind]. unfold truediv.
  assert (Hs : 0 < sqrt (separation lc t ^ 2 + 4)).
  { apply sqrt_lt_R0. pose proof (pow2_ge_0 (separation lc t)). lra. }
  destruct (Req_dec_T (separation lc t * sqrt (separation lc t ^ 2 + 4)) 0)
    as [Hz|_]; [nra|].
  cbn [Py.bind]. fold (amplification (separation lc t)).
  unfold math_log10.
  destruct (Rle_dec ((amplification (separation lc t) - 1) * fbl lc + 1) 0)
    as [Hle|_]; [nra|].
  reflexivity.
Qed.

(** At the peak of a curve with zero impact parameter the separation is 0
    and the division raises. *)
Lemma mag_singular lc :
  tE lc <> 0 -> umin lc = 0 -> mag lc (t0 lc) = Raise ZeroDivisionError.
Proof.
  intros HtE Hu0. unfold mag, truediv at 1.
  destruct (Req_dec_T (tE lc) 0) as [Hz|_]; [contradiction|]. cbn [Py.bind].
  assert (Harg : umin lc ^ 2 + ((t0 lc - t0 lc) / tE lc) ^ 2 = 0).
  { rewrite Hu0. unfold Rminus. rewrite Rplus_opp_r. unfold Rdiv.
    rewrite Rmult_0_l. simpl. lra. }
  rewrite Harg. unfold math_sqrt at 1.
  destruct (Rlt_dec 0 0) as [Hlt|_]; [lra|]. cbn [Py.bind].
  rewrite sqrt_0. unfold math_sqrt.
  destruct (Rlt_dec (0 ^ 2 + 4) 0) as [Hlt|_]; [simpl in Hlt; lra|].
  cbn [Py.bind]. unfold truediv.
  destruct (Req_dec_T (0 * sqrt (0 ^ 2 + 4)) 0) as [_|Hne]; [reflexivity|].
  exfalso. apply Hne. apply Rmult_0_l.
Qed.

(** The magnitudes at which the floating-point evaluation of the formulas
    behaves as the evaluation over the real numbers, up to rounding: no
    square underflows to zero and none overflows. *)
Definition in_range (bound : nat) (x : R) : Prop :=
  / 10 ^ bound <= x <= 10 ^ bound.

Lemma pow10_ge_1 n : 1 <= 10 ^ n.
Proof. apply pow_R1_Rle. lra. Qed.

Lemma inv_pow10_le_1 n : 0 < / 10 ^ n <= 1.
Proof.
  pose proof (pow10_ge_1 n) as Hge.
  split; [apply Rinv_0_lt_compat; lra|].
  rewrite <- Rinv_1. apply Rinv_le_contravar; lra.
Qed.

Lemma pow10_ge_10 n : 10 <= 10 ^ S n.
Proof. pose proof (pow10_ge_1 n). simpl. lra. Qed.

(** A separation that is not zero is away from the singular point. *)
Lemma separation_away lc t :
  0 <= umin lc -> 0 < separation lc t -> 0 < umin lc \/ t <> t0 lc.
Proof.
  intros Hu Hsep. destruct (Req_dec_T t (t0 lc)) as [->|Hne]; [|now right].
  left. destruct (Req_dec_T (umin lc) 0) as [Hz|Hnz]; [|lra].
  exfalso. unfold separation in Hsep. rewrite Hz in Hsep.
  replace (0 ^ 2 + ((t0 lc - t0 lc) / tE lc) ^ 2) with 0 in Hsep.
  - rewrite sqrt_0 in Hsep. lra.
  - unfold Rminus, Rdiv. rewrite Rplus_opp_r, Rmult_0_l. simpl. ring.
Qed.

(** C5, as the code has it: with a non-negative impact parameter, a
    positive timescale and a blending fraction in [0,1], [mag] is not
    defined at every [t].  It returns the magnitude where the separation
    lies between 1e-150 and 1e150 and the time within 1e150 of the peak,
    the range in which no square of the formula underflows to zero or
    overflows; for a zero impact parameter it raises [ZeroDivisionError]
    at [t = t0], where the separation is zero. *)
Theorem mag_defined_off_singularity lc t :
  0 <= umin lc -> 0 < tE lc -> 0 <= fbl lc <= 1 ->
  (in_range 150 (separation lc t) -> Rabs (t - t0 lc) <= 10 ^ 150 ->
   mag lc t = Ok (magnitude lc t))
  /\ (umin lc = 0 /\ t = t0 lc -> mag lc t = Raise ZeroDivisionError).
Proof.
  intros Hu HtE Hf. split.
  - intros (Hlo & _) _. apply mag_returns; [lra | assumption |].
    apply separation_away; [assumption|].
    pose proof (inv_pow10_le_1 150). lra.
  - intros (Hu0 & ->). apply mag_singular; [lra | assumption].
Qed.

(** A curve with impact parameter 0.3 two days after its peak: the
    separation is the square root of 0.1. *)
Lemma mag_defined_off_singularity_witness :
  mag (mkLightcurve 15 0.3 20 2457000 1) 2457002
  = Ok (magnitude (mkLightcurve 15 0.3 20 2457000 1) 2457002).
Proof.
  apply (mag_defined_off_singularity (mkLightcurve 15 0.3 20 2457000 1)
           2457002).
  - cbn. lra.
  - cbn. lra.
  - cbn. lra.
  - unfold in_range, separation. cbn [umin tE t0].
    replace (0.3 ^ 2 + ((2457002 - 2457000) / 20) ^ 2) with (1 / 10)
      by (simpl; lra).
    pose proof (inv_pow10_le_1 150) as (_ & Htiny).
    pose proof (pow10_ge_1 150) as Hhuge.
    assert (Hlow : 1 / 10 <= sqrt (1 / 10)).
    { rewrite <- (sqrt_square (1 / 10)) at 1 by lra.
      apply sqrt_le_1_alt. lra. }
    assert (Hhigh : sqrt (1 / 10) <= 1).
    { rewrite <- sqrt_1 at 2. apply sqrt_le_1_alt. lra. }
    assert (Htiny' : / 10 ^ 150 <= 1 / 10).
    { pose proof (pow10_ge_10 149) as H10.
      replace (1 / 10) with (/ 10) by lra.
      apply Rinv_le_contravar; lra. }
    lra.
  - cbn [t0]. replace (2457002 - 2457000) with 2 by lra.
    rewrite Rabs_pos_eq by lra. pose proof (pow10_ge_10 149) as H10.
    lra.
Defined.

(** C5, as stated, fails: impact parameter 0, timescale 1, blending
    fraction 1 meet the preconditions, and [mag] raises at [t = t0]. *)
Lemma mag_raises_at_peak :
  let lc := mkLightcurve 15 0 1 0 1 in
  0 <= umin lc /\ 0 < tE lc /\ 0 <= fbl lc <= 1
  /\ mag lc 0 = Raise ZeroDivisionError.
Proof.
  cbn zeta. cbn [umin tE fbl]. repeat split; try lra.
  apply (mag_singular (mkLightcurve 15 0 1 0 1)); cbn; [lra | reflexivity].
Qed.

(** *** Rounding *)

Lemma floor_spec x : IZR (floor x) <= x < IZR (floor x) + 1.
Proof.
  unfold floor. rewrite minus_IZR. destruct (archimed x) as (Hgt & Hle). lra.
Qed.

Lemma floor_IZR z : floor (IZR z) = z.
Proof.
  pose proof (floor_spec (IZR z)) as (Hlo & Hhi).
  rewrite <- plus_IZR in Hhi.
  apply le_IZR in Hlo. apply lt_IZR in Hhi. lia.
Qed.

Lemma round_half_even_IZR z : round_half_even (IZR z) = z.
Proof.
  unfold round_half_even. rewrite floor_IZR.
  destruct (Rlt_dec (IZR z - IZR z) (1 / 2)); [reflexivity | lra].
Qed.

(** Rounding keeps a non-positive number non-positive. *)
Lemma round_half_even_nonpos x : x <= 0 -> (round_half_even x <= 0)%Z.
Proof.
  intros Hx. unfold round_half_even.
  pose proof (floor_spec x) as (Hlo & Hhi).
  assert (Hf : (floor x <= 0)%Z) by (apply le_IZR; lra).
  destruct (Rlt_dec (x - IZR (floor x)) (1 / 2)) as [_|Hhalf]; [exact Hf|].
  assert (Hneg : (floor x <= -1)%Z).
  { destruct (Z.eq_dec (floor x) 0%Z) as [H0|Hne]; [|lia].
    rewrite H0 in *. simpl in *. lra. }
  destruct (Rlt_dec (1 / 2) (x - IZR (floor x))); [lia|].
  destruct (Z.even (floor x)); lia.
Qed.

Lemma round_nonpos x ndigits : x <= 0 -> round x ndigits <= 0.
Proof.
  intros Hx. unfold round.
  assert (Hp : 0 < 10 ^ ndigits) by (apply pow_lt; lra).
  assert (Hz : (round_half_even (x * 10 ^ ndigits) <= 0)%Z)
    by (apply round_half_even_nonpos; nra).
  apply IZR_le in Hz. unfold Rdiv.
  assert (0 < / 10 ^ ndigits) by now apply Rinv_0_lt_compat.
  nra.
Qed.

(** *** The reduced chi-square *)

(** The sum of the squared residuals in units of the variances. *)
Fixpoint chi_sum (model : R -> R) (datapoints : list (R * R * R)) : R :=
  match datapoints with
  | [] => 0
  | (x, Oi, sigma_i) :: rest =>
      (Oi - model x) ^ 2 / sigma_i ^ 2 + chi_sum model rest
  end.

(** The model function returns on every time of the data. *)
Definition computes (func : R -> result R) (model : R -> R)
    (datapoints : list (R * R * R)) : Prop :=
  Forall (fun dp => func (fst (fst dp)) = Ok (model (fst (fst dp)))) datapoints.

Definition nonzero_sigma (datapoints : list (R * R * R)) : Prop :=
  Forall (fun dp => snd dp <> 0) datapoints.

Definition some_zero_sigma (datapoints : list (R * R * R)) : Prop :=
  Exists (fun dp => snd dp = 0) datapoints.

Lemma chi_sum_nonneg model datapoints : 0 <= chi_sum model datapoints.
Proof.
  induction datapoints as [|[[x Oi] sigma_i] rest IH]; simpl; [lra|].
  assert (0 <= (Oi - model x) * ((Oi - model x) * 1)
               / (sigma_i * (sigma_i * 1))).
  { pose proof (Rle_0_sqr (Oi - model x)) as Hnum.
    pose proof (Rle_0_sqr sigma_i) as Hden. unfold Rsqr in Hnum, Hden.
    unfold Rdiv. apply Rmult_le_pos; [lra|].
    destruct (Req_dec_T (sigma_i * (sigma_i * 1)) 0) as [->|Hne].
    - rewrite Rinv_0. lra.
    - left. apply Rinv_0_lt_compat. lra. }
  lra.
Qed.

(** With no zero uncertainty the loop adds up the chi-square sum, for
    either kind of scalar. *)
Lemma chi_loop_sum k func model datapoints acc :
  computes func model datapoints ->
  nonzero_sigma datapoints ->
  chi_loop k func datapoints (Fin acc)
  = Ok (Fin (acc + chi_sum model datapoints)).
Proof.
  unfold computes, nonzero_sigma. revert acc.
  induction datapoints as [|[[x Oi] sigma_i] rest IH]; intros acc Hf Hs.
  - simpl. now rewrite Rplus_0_r.
  - apply Forall_cons in Hf as (Hfx & Hf). apply Forall_cons in Hs as (Hsx & Hs).
    cbn [fst snd] in Hfx, Hsx. cbn [chi_loop chi_sum]. rewrite Hfx.
    cbn [Py.bind]. unfold xtruediv.
    destruct (Req_dec_T (sigma_i ^ 2) 0) as [Hz|_].
    { exfalso. simpl in Hz. nra. }
    cbn [Py.bind xdiv_by xadd]. rewrite IH by assumption.
    do 2 f_equal. lra.
Qed.

(** The value of [reduced_chi_square] when the divisor is not zero and no
    uncertainty is zero: no exception, whatever the sign of the divisor. *)
Lemma reduced_chi_square_value k datapoints func model Nu :
  computes func model datapoints ->
  nonzero_sigma datapoints ->
  Z.of_nat (length datapoints) <> Nu ->
  reduced_chi_square k datapoints func Nu
  = Ok (Fin (round (chi_sum model datapoints
                    / IZR (Z.of_nat (length datapoints) - Nu)) 3)).
Proof.
  intros Hf Hs Hne. unfold reduced_chi_square.
  rewrite (chi_loop_sum k func model datapoints 0 Hf Hs). cbn [Py.bind].
  unfold xtruediv.
  destruct (Req_dec_T (IZR (Z.of_nat (length datapoints) - Nu)) 0) as [Hz|_].
  { apply eq_IZR in Hz. lia. }
  cbn [Py.bind xdiv_by xround]. now rewrite Rplus_0_l.
Qed.

(** Data of moderate size: every uncertainty between 1e-50 and 1e50 in
    size and every residual at most 1e50, so that in floating point no
    variance underflows to zero and no quotient or sum overflows. *)
Definition moderate (model : R -> R) (datapoints : list (R * R * R)) : Prop :=
  Forall (fun dp => in_range 50 (Rabs (snd dp))
                    /\ Rabs (snd (fst dp) - model (fst (fst dp))) <= 10 ^ 50)
    datapoints.

Lemma moderate_nonzero model datapoints :
  moderate model datapoints -> nonzero_sigma datapoints.
Proof.
  unfold moderate, nonzero_sigma. intros Hm.
  eapply Forall_impl; [exact Hm|]. intros dp ((Hlo & _) & _) Hz.
  rewrite Hz, Rabs_R0 in Hlo. pose proof (inv_pow10_le_1 50). lra.
Qed.

(** The rounded quotient of the sum by a negative divisor. *)
Lemma rounded_quotient_nonpos model datapoints d :
  d < 0 -> round (chi_sum model datapoints / d) 3 <= 0.
Proof.
  intros Hd. apply round_nonpos.
  pose proof (chi_sum_nonneg model datapoints) as Hsum.
  unfold Rdiv. assert (/ d < 0) by now apply Rinv_lt_0_compat. nra.
Qed.

(** C3, as the code has it: [reduced_chi_square] has no check of the
    degrees of freedom.  On data of moderate size, with fewer points than
    degrees of freedom it raises nothing and returns a finite value that
    is not positive, the rounded quotient of the sum by the negative
    divisor; with as many points as degrees of freedom the division by
    zero raises [ZeroDivisionError] on Python numbers and yields an
    infinity or a NaN on NumPy scalars. *)
Theorem reduced_chi_square_no_dof_check k datapoints func model Nu :
  computes func model datapoints ->
  moderate model datapoints ->
  (Z.of_nat (length datapoints) <= Nu)%Z ->
  ((Z.of_nat (length datapoints) < Nu)%Z ->
     exists v, reduced_chi_square k datapoints func Nu = Ok (Fin v)
               /\ v <= 0)
  /\ (Z.of_nat (length datapoints) = Nu ->
        if is_numpy k && negb (Nat.eqb (length datapoints) 0)
        then exists v, reduced_chi_square k datapoints func Nu = Ok v
                       /\ (v = PInf \/ v = NaN)
        else reduced_chi_square k datapoints func Nu
             = Raise ZeroDivisionError).
Proof.
  intros Hf Hm Hle. pose proof (moderate_nonzero _ _ Hm) as Hs. split.
  - intros Hlt. eexists. split.
    + apply (reduced_chi_square_value k datapoints func model Nu);
        [assumption | assumption | lia].
    + apply rounded_quotient_nonpos. apply IZR_lt. lia.
  - intros Heq. unfold reduced_chi_square.
    rewrite (chi_loop_sum k func model datapoints 0 Hf Hs). cbn [Py.bind].
    unfold xtruediv.
    destruct (Req_dec_T (IZR (Z.of_nat (length datapoints) - Nu)) 0)
      as [_|Hnz]; [|exfalso; apply Hnz; apply IZR_eq; lia].
    destruct (is_numpy k && negb (Nat.eqb (length datapoints) 0));
      [|reflexivity].
    cbn [Py.bind xdiv_zero].
    pose proof (chi_sum_nonneg model datapoints) as Hsum.
    destruct (Rlt_dec 0 (0 + chi_sum model datapoints)).
    + exists PInf. split; [reflexivity | now left].
    + destruct (Rlt_dec (0 + chi_sum model datapoints) 0); [lra|].
      exists NaN. split; [reflexivity | now right].
Qed.

(** An uncertainty of 1 or 2 and a residual of at most 3 are of moderate
    size. *)
Lemma moderate_small (x y sigma : R) (model : R -> R) :
  sigma = 1 \/ sigma = 2 -> 0 <= y - model x <= 3 ->
  in_range 50 (Rabs sigma) /\ Rabs (y - model x) <= 10 ^ 50.
Proof.
  intros Hs Hr. pose proof (pow10_ge_10 49) as H10.
  pose proof (inv_pow10_le_1 50) as (_ & Htiny).
  unfold in_range. rewrite (Rabs_pos_eq (y - model x)) by lra.
  destruct Hs as [-> | ->]; rewrite Rabs_pos_eq by lra; lra.
Qed.

(** One data point that the model misses by 3 sigma, five degrees of
    freedom: no exception, and a value that is not positive. *)
Lemma reduced_chi_square_no_dof_check_witness :
  exists v,
    reduced_chi_square PythonFloat [(0, 3, 1)] (fun _ => Ok 0) 5 = Ok (Fin v)
    /\ v <= 0.
Proof.
  apply (reduced_chi_square_no_dof_check PythonFloat [(0, 3, 1)]
           (fun _ => Ok 0) (fun _ => 0) 5).
  - repeat constructor.
  - constructor; [|constructor]. cbn [fst snd].
    apply (moderate_small 0 3 1 (fun _ => 0)); [now left | lra].
  - cbn. lia.
  - cbn. lia.
Defined.

(** C3, as stated, fails: one data point and five degrees of freedom give
    no exception but the value -0.25. *)
Lemma reduced_chi_square_returns_below_dof :
  (Z.of_nat (length [(0, 1, 1)]) <= 5)%Z
  /\ reduced_chi_square PythonFloat [(0, 1, 1)] (fun _ => Ok 0) 5
     = Ok (Fin (-0.25)).
Proof.
  split; [cbn; lia|].
  rewrite (reduced_chi_square_value PythonFloat [(0, 1, 1)] (fun _ => Ok 0)
             (fun _ => 0) 5).
  - do 2 f_equal. unfold round.
    replace (chi_sum (fun _ => 0) [(0, 1, 1)]
             / IZR (Z.of_nat (length [(0, 1, 1)]) - 5) * 10 ^ 3)
      with (IZR (-250))
      by (cbn; change (Z.of_nat 1 - 5)%Z with (-4)%Z; lra).
    rewrite round_half_even_IZR. simpl. lra.
  - repeat constructor.
  - repeat constructor. cbn. lra.
  - cbn. lia.
Qed.

(** *** Zero uncertainties *)

(** A float that is an infinity or a NaN. *)
Definition nonfinite (a : xreal) : Prop := a = PInf \/ a = NInf \/ a = NaN.


(** On NumPy scalars the loop never raises; its sum is never minus
    infinity and is not finite once a zero uncertainty went in. *)
Lemma chi_loop_numpy func model datapoints acc :
  computes func model datapoints ->
  acc <> NInf ->
  exists r,
    chi_loop NumpyFloat64 func datapoints acc = Ok r
    /\ r <> NInf
    /\ (nonfinite acc \/ some_zero_sigma datapoints -> nonfinite r).
Proof.
  unfold computes, some_zero_sigma. revert acc.
  induction datapoints as [|[[x Oi] sigma_i] rest IH]; intros acc Hf Hacc.
  - exists acc. split; [reflexivity|]. split; [assumption|].
    intros [Hnf|Hz]; [assumption | inversion Hz].
  - apply Forall_cons in Hf as (Hfx & Hf). cbn [fst snd] in Hfx.
    cbn [chi_loop]. rewrite Hfx. cbn [Py.bind is_numpy]. unfold xtruediv.
    pose proof (Rle_0_sqr (Oi - model x)) as Hsq. unfold Rsqr in Hsq.
    destruct (Req_dec_T (sigma_i ^ 2) 0) as [Hzero|Hne].
    + (* the addend is an infinity or a NaN *)
      cbn [Py.bind xdiv_zero].
      assert (Hadd : exists a, (a = PInf \/ a = NaN)
                /\ (if Rlt_dec 0 ((Oi - model x) ^ 2) then PInf
                    else if Rlt_dec ((Oi - model x) ^ 2) 0 then NInf else NaN)
                   = a).
      { destruct (Rlt_dec 0 ((Oi - model x) ^ 2)); [eauto|].
        destruct (Rlt_dec ((Oi - model x) ^ 2) 0) as [Hneg|]; [|eauto].
        exfalso. simpl in Hneg. lra. }
      destruct Hadd as (a & Ha & ->).
      destruct (IH (xadd acc a) Hf) as (r & Hr & Hr1 & Hr2).
      { destruct Ha as [-> | ->]; destruct acc; cbn; congruence. }
      exists r. split; [exact Hr|]. split; [exact Hr1|].
      intros _. apply Hr2. left. unfold nonfinite.
      destruct Ha as [-> | ->]; destruct acc; cbn; try tauto; congruence.
    + cbn [Py.bind xdiv_by].
      destruct (IH (xadd acc (Fin ((Oi - model x) ^ 2 / sigma_i ^ 2))) Hf)
        as (r & Hr & Hr1 & Hr2).
      { destruct acc; cbn; congruence. }
      exists r. split; [exact Hr|]. split; [exact Hr1|].
      intros [Hnf|Hz]; apply Hr2.
      * left. unfold nonfinite in *.
        destruct Hnf as [-> | [-> | ->]]; cbn; tauto.
      * right. apply Exists_cons in Hz as [Hhere|Hlater]; [|assumption].
        cbn [snd] in Hhere. exfalso. apply Hne. rewrite Hhere. simpl. lra.
Qed.




End calculations_facts.

(** ** The periodogram *)

Module periodogram_facts.

Import periodogram.
Local Open Scope Q_scope.

(** *** The walk of [getfwhm] *)

(** The power (or frequency) at an index of the grid. *)
Definition at_ (a : list Q) (k : nat) : Q := default 0 (a !! k).

(** The tests of the loop at [j] and at [i]: at least half the peak here,
    less than half one step further out. *)
Definition crossL (pgram : list Q) (m : Q) (j : nat) : bool :=
  Qle_bool (m / 2) (at_ pgram j) && Qltb (at_ pgram (j - 1)) (m / 2).
Definition crossU (pgram : list Q) (m : Q) (i : nat) : bool :=
  Qle_bool (m / 2) (at_ pgram i) && Qltb (at_ pgram (i + 1)) (m / 2).

(** The first index that passes a test, going down from [j] or up from [i]
    for [rounds] steps. *)
Fixpoint scan_down (test : nat -> bool) (j rounds : nat) : option nat :=
  match rounds with
  | O => None
  | S r => if test j then Some j else scan_down test (j - 1) r
  end.
Fixpoint scan_up (test : nat -> bool) (i rounds : nat) : option nat :=
  match rounds with
  | O => None
  | S r => if test i then Some i else scan_up test (S i) r
  end.

(** The rounds the loop can make from [j] and [i] before one of them
    reaches its bound. *)
Definition rounds_left (n j i : nat) : nat := Nat.min j (n - 1 - i).

(** The locals once the two scans are over. *)
Definition finish (freq : list Q) (st : walk) (ol oh : option nat) : walk :=
  let st1 :=
    match ol with
    | Some j =>
        if lowflag st then st
        else mkWalk true (highflag st) (at_ freq (j - 1)) (higher st)
    | None => st
    end in
  match oh with
  | Some i =>
      if highflag st1 then st1
      else mkWalk (lowflag st1) true (lower st1) (at_ freq (i + 1))
  | None => st1
  end.

Lemma getitem_at (a : list Q) (k : nat) :
  (k < length a)%nat -> getitem a k = Ok (at_ a k).
Proof.
  intros Hk. unfold getitem, at_.
  destruct (lookup_lt_is_Some_2 a k Hk) as (x & ->). reflexivity.
Qed.

(** The loop computes the two scans. *)
Lemma fwhm_loop_scans (pgram freq : list Q) (m : Q) :
  length freq = length pgram ->
  forall j i st,
    (j <= i)%nat ->
    fwhm_loop pgram freq m j i st
    = Ok (finish freq st
            (scan_down (crossL pgram m) j (rounds_left (length pgram) j i))
            (scan_up (crossU pgram m) i (rounds_left (length pgram) j i))).
Proof.
  intros Hlen. induction j as [|j' IH]; intros i st Hji.
  - reflexivity.
  - cbn [fwhm_loop]. destruct (Nat.ltb_spec i (length pgram - 1)) as [Hi|Hi].
    + assert (Hr : rounds_left (length pgram) (S j') i
                   = S (rounds_left (length pgram) j' (i + 1)))
        by (unfold rounds_left; lia).
      rewrite Hr. cbn [scan_down scan_up].
      replace (S j' - 1)%nat with j' by lia.
      replace (S i) with (i + 1)%nat by lia.
      rewrite (getitem_at pgram (S j')) by lia.
      rewrite (getitem_at pgram i) by lia.
      rewrite (getitem_at pgram j') by lia.
      rewrite (getitem_at pgram (i + 1)) by lia.
      rewrite (getitem_at freq j') by lia.
      rewrite (getitem_at freq (i + 1)) by lia.
      cbn [Py.bind]. unfold crossL at 1, crossU at 1.
      replace (S j' - 1)%nat with j' by lia.
      destruct (Qle_bool (m / 2) (at_ pgram (S j')));
        destruct (Qltb (at_ pgram j') (m / 2));
        destruct (Qle_bool (m / 2) (at_ pgram i));
        destruct (Qltb (at_ pgram (i + 1)) (m / 2));
        destruct st as [[] [] lo hi];
        cbn [Py.bind andb negb lowflag highflag lower higher];
        try rewrite (IH (i + 1)%nat) by lia;
        unfold finish; cbn [andb lowflag highflag lower higher];
        replace (S j' - 1)%nat with j' by lia;
        repeat match goal with
               | |- context [scan_down ?t ?a ?b] => destruct (scan_down t a b)
               | |- context [scan_up ?t ?a ?b] => destruct (scan_up t a b)
               end;
        reflexivity.
    + assert (Hr : rounds_left (length pgram) (S j') i = 0%nat)
        by (unfold rounds_left; lia).
      rewrite Hr. destruct st; reflexivity.
Qed.

(** *** The width in the words of the specification *)

(** The sample one step below [j], or above [i], is under half the peak. *)
Definition belowL (pgram : list Q) (m : Q) (j : nat) : bool :=
  Qltb (at_ pgram (j - 1)) (m / 2).
Definition belowU (pgram : list Q) (m : Q) (i : nat) : bool :=
  Qltb (at_ pgram (i + 1)) (m / 2).

(** The first grid index where the power equals [m]. *)
Definition first_index (pgram : list Q) (m : Q) : option nat :=
  where_ (map (fun x => Qeq_bool x m) pgram) !! 0%nat.

(** Walking down (up) from the peak [p] in lock-step, the index of the
    first sample under half the peak, if the walk meets one before either
    side reaches its bound. *)
Definition lower_boundary (pgram : list Q) (m : Q) (p : nat) : option nat :=
  option_map Nat.pred
    (scan_down (belowL pgram m) p (rounds_left (length pgram) p p)).
Definition upper_boundary (pgram : list Q) (m : Q) (p : nat) : option nat :=
  option_map S
    (scan_up (belowU pgram m) p (rounds_left (length pgram) p p)).

(** The full width at half maximum, zero when a boundary is missing. *)
Definition fwhm_spec (pgram freq : list Q) (m : Q) (p : nat) : Q :=
  match lower_boundary pgram m p, upper_boundary pgram m p with
  | Some l, Some h => at_ freq h - at_ freq l
  | _, _ => 0
  end.

Lemma Qltb_false x y : Qltb x y = false -> Qle_bool y x = true.
Proof. unfold Qltb. now destruct (Qle_bool y x). Qed.

(** From an index at half the peak or more, the test of the loop fires at
    the first sample under half the peak. *)
Lemma scan_down_cross pgram m r :
  forall j, Qle_bool (m / 2) (at_ pgram j) = true ->
    scan_down (crossL pgram m) j r = scan_down (belowL pgram m) j r.
Proof.
  induction r as [|r IH]; intros j Hj; [reflexivity|].
  cbn [scan_down]. unfold crossL at 1, belowL at 1. rewrite Hj. cbn [andb].
  destruct (Qltb (at_ pgram (j - 1)) (m / 2)) eqn:Hb; [reflexivity|].
  apply IH. now apply Qltb_false.
Qed.

Lemma scan_up_cross pgram m r :
  forall i, Qle_bool (m / 2) (at_ pgram i) = true ->
    scan_up (crossU pgram m) i r = scan_up (belowU pgram m) i r.
Proof.
  induction r as [|r IH]; intros i Hi; [reflexivity|].
  cbn [scan_up]. unfold crossU at 1, belowU at 1. rewrite Hi. cbn [andb].
  destruct (Qltb (at_ pgram (i + 1)) (m / 2)) eqn:Hb; [reflexivity|].
  apply IH. replace (S i) with (i + 1)%nat by lia. now apply Qltb_false.
Qed.

(** What a scan finds is the nearest index that passes the test. *)
Lemma scan_down_Some test r :
  forall j k, scan_down test j r = Some k ->
    test k = true /\ (k <= j)%nat /\ (j < k + r)%nat
    /\ forall k', (k < k' <= j)%nat -> test k' = false.
Proof.
  induction r as [|r IH]; intros j k; [discriminate|].
  cbn [scan_down]. destruct (test j) eqn:Hj.
  - intros [= <-]. split; [assumption|]. split; [lia|]. split; [lia|].
    intros k' Hk'. lia.
  - intros Hscan. destruct (IH _ _ Hscan) as (Ht & Hle & Hlt & Hfirst).
    split; [assumption|]. split; [lia|]. split; [lia|].
    intros k' Hk'. destruct (Nat.eq_dec k' j) as [->|Hne]; [assumption|].
    apply Hfirst. lia.
Qed.

Lemma scan_down_None test r :
  forall j, (r <= j)%nat -> scan_down test j r = None ->
    forall k, (j < k + r)%nat -> (k <= j)%nat -> test k = false.
Proof.
  induction r as [|r IH]; intros j Hr; [intros _ k; lia|].
  cbn [scan_down]. destruct (test j) eqn:Hj; [discriminate|].
  intros Hscan k Hlo Hhi.
  destruct (Nat.eq_dec k j) as [->|Hne]; [assumption|].
  apply (IH (j - 1)%nat); [lia | assumption | lia | lia].
Qed.

Lemma scan_up_Some test r :
  forall i k, scan_up test i r = Some k ->
    test k = true /\ (i <= k)%nat /\ (k < i + r)%nat
    /\ forall k', (i <= k' < k)%nat -> test k' = false.
Proof.
  induction r as [|r IH]; intros i k; [discriminate|].
  cbn [scan_up]. destruct (test i) eqn:Hi.
  - intros [= <-]. split; [assumption|]. split; [lia|]. split; [lia|].
    intros k' Hk'. lia.
  - intros Hscan. destruct (IH _ _ Hscan) as (Ht & Hle & Hlt & Hfirst).
    split; [assumption|]. split; [lia|]. split; [lia|].
    intros k' Hk'. destruct (Nat.eq_dec k' i) as [->|Hne]; [assumption|].
    apply Hfirst. lia.
Qed.

Lemma scan_up_None test r :
  forall i, scan_up test i r = None ->
    forall k, (i <= k)%nat -> (k < i + r)%nat -> test k = false.
Proof.
  induction r as [|r IH]; intros i; [intros _ k; lia|].
  cbn [scan_up]. destruct (test i) eqn:Hi; [discriminate|].
  intros Hscan k Hlo Hhi.
  destruct (Nat.eq_dec k i) as [->|Hne]; [assumption|].
  apply (IH (S i)); [assumption | lia | lia].
Qed.

(** The indices [np.where] returns, in a mask that starts at index [i]. *)
Lemma where_from_head mask :
  forall i p, where_from i mask !! 0%nat = Some p ->
    (i <= p)%nat /\ mask !! (p - i)%nat = Some true
    /\ forall q, (q < p - i)%nat -> mask !! q = Some false.
Proof.
  induction mask as [|b mask IH]; intros i p; [discriminate|].
  cbn [where_from]. destruct b.
  - cbn. intros [= <-]. rewrite Nat.sub_diag. split; [lia|].
    split; [reflexivity|]. intros q Hq. lia.
  - intros Hw. destruct (IH _ _ Hw) as (Hle & Hp & Hfirst).
    split; [lia|]. replace (p - i)%nat with (S (p - S i)) by lia.
    split; [exact Hp|]. intros [|q] Hq; [reflexivity|].
    cbn. apply Hfirst. lia.
Qed.

Lemma first_index_spec pgram m p :
  first_index pgram m = Some p ->
  (p < length pgram)%nat /\ Qeq_bool (at_ pgram p) m = true
  /\ forall q, (q < p)%nat -> Qeq_bool (at_ pgram q) m = false.
Proof.
  unfold first_index, where_. intros Hw.
  destruct (where_from_head _ _ _ Hw) as (_ & Hp & Hfirst).
  rewrite Nat.sub_0_r in *. rewrite list_lookup_fmap in Hp.
  destruct (pgram !! p) as [x|] eqn:Hx; [|discriminate].
  split; [now apply lookup_lt_Some in Hx|].
  split.
  - unfold at_. rewrite Hx. cbn in *. congruence.
  - intros q Hq. specialize (Hfirst q Hq). rewrite list_lookup_fmap in Hfirst.
    unfold at_. destruct (pgram !! q); cbn in *; congruence.
Qed.

(** The peak is at half the peak or more when the peak is not negative. *)
Lemma peak_above_half pgram m p :
  0 <= m -> Qeq_bool (at_ pgram p) m = true ->
  Qle_bool (m / 2) (at_ pgram p) = true.
Proof.
  intros Hm Hp. apply Qeq_bool_iff in Hp. apply Qle_bool_iff. rewrite Hp.
  unfold Qdiv. change (/ 2) with (1 # 2). Lqa.lra.
Qed.

Lemma Qltb_true x y : Qltb x y = true -> x < y.
Proof.
  unfold Qltb. intros H. apply Qnot_le_lt. intros Hle.
  apply Qle_bool_iff in Hle. rewrite Hle in H. discriminate.
Qed.

Lemma Qltb_false_le x y : Qltb x y = false -> y <= x.
Proof. intros H. apply Qle_bool_iff. now apply Qltb_false. Qed.

(** [getfwhm] on a grid where the peak value occurs: the call returns, and
    its value is made of the two scans of the loop. *)
Lemma getfwhm_scans pgram freq m p :
  length freq = length pgram ->
  first_index pgram m = Some p ->
  getfwhm pgram freq m
  = Ok (let st :=
          finish freq (mkWalk false false 0 0)
            (scan_down (crossL pgram m) p (rounds_left (length pgram) p p))
            (scan_up (crossU pgram m) p (rounds_left (length pgram) p p)) in
        if negb (highflag st) || negb (lowflag st) then 0
        else higher st - lower st).
Proof.
  intros Hlen Hp. unfold getfwhm, getitem. unfold first_index in Hp.
  rewrite Hp. cbn [Py.bind].
  rewrite (fwhm_loop_scans pgram freq m Hlen p p) by lia. cbn [Py.bind].
  cbn zeta. destruct (negb _ || negb _); reflexivity.
Qed.

(** What the walk of [getfwhm] from the peak index [p] amounts to: the
    value is the frequency at the first sample under half the peak on the
    upper side minus the one on the lower side, zero when a side has no
    such sample before one of the two walks reaches its bound; a boundary
    is the nearest sample under half the peak on its side. *)
Definition lockstep_walk (pgram freq : list Q) (m : Q) (p : nat) : Prop :=
  getfwhm pgram freq m = Ok (fwhm_spec pgram freq m p)
  /\ (lower_boundary pgram m p = None \/ upper_boundary pgram m p = None ->
      getfwhm pgram freq m = Ok 0)
  /\ (forall l h,
        lower_boundary pgram m p = Some l ->
        upper_boundary pgram m p = Some h ->
        getfwhm pgram freq m = Ok (at_ freq h - at_ freq l))
  /\ (forall l,
        lower_boundary pgram m p = Some l ->
        (l < p)%nat /\ (p <= l + rounds_left (length pgram) p p)%nat
        /\ at_ pgram l < m / 2
        /\ forall k, (l < k <= p)%nat -> m / 2 <= at_ pgram k)
  /\ (forall h,
        upper_boundary pgram m p = Some h ->
        (p < h)%nat /\ (h <= p + rounds_left (length pgram) p p)%nat
        /\ at_ pgram h < m / 2
        /\ forall k, (p <= k < h)%nat -> m / 2 <= at_ pgram k)
  /\ (lower_boundary pgram m p = None ->
      forall k, (p <= k + rounds_left (length pgram) p p)%nat -> (k < p)%nat ->
                m / 2 <= at_ pgram k)
  /\ (upper_boundary pgram m p = None ->
      forall k, (p < k)%nat -> (k <= p + rounds_left (length pgram) p p)%nat ->
                m / 2 <= at_ pgram k).

(** [getfwhm] walks down and up from the first index of the peak value in
    lock-step, for every grid on which that value is not negative. *)
Lemma getfwhm_lockstep pgram freq m p :
  length freq = length pgram ->
  0 <= m ->
  first_index pgram m = Some p ->
  lockstep_walk pgram freq m p.
Proof.
  intros Hlen Hm Hp. unfold lockstep_walk.
  destruct (first_index_spec pgram m p Hp) as (Hlt & Hpeak & _).
  pose proof (peak_above_half pgram m p Hm Hpeak) as Hhalf.
  assert (Hval : getfwhm pgram freq m = Ok (fwhm_spec pgram freq m p)).
  { rewrite (getfwhm_scans pgram freq m p Hlen Hp).
    rewrite (scan_down_cross pgram m _ p Hhalf).
    rewrite (scan_up_cross pgram m _ p Hhalf).
    unfold fwhm_spec, lower_boundary, upper_boundary, finish.
    destruct (scan_down _ _ _) as [j|]; destruct (scan_up _ _ _) as [i|];
      cbn; try reflexivity.
    rewrite Nat.sub_1_r, Nat.add_1_r. reflexivity. }
  split; [exact Hval|]. split.
  { intros Hmiss. rewrite Hval. unfold fwhm_spec.
    destruct Hmiss as [-> | ->]; [reflexivity|].
    destruct (lower_boundary pgram m p); reflexivity. }
  split.
  { intros l h Hl Hh. rewrite Hval. unfold fwhm_spec. now rewrite Hl, Hh. }
  assert (Hr : (rounds_left (length pgram) p p <= p)%nat)
    by (unfold rounds_left; lia).
  split.
  { unfold lower_boundary. intros l Hl.
    destruct (scan_down _ _ _) as [j|] eqn:Hscan; [|discriminate].
    injection Hl as <-.
    destruct (scan_down_Some _ _ _ _ Hscan) as (Ht & Hle & Hwin & Hfirst).
    unfold belowL in Ht. rewrite Nat.sub_1_r in Ht.
    split; [lia|]. split; [lia|]. split; [now apply Qltb_true|].
    intros k Hk. destruct (Nat.eq_dec k p) as [->|Hne].
    - now apply Qle_bool_iff.
    - specialize (Hfirst (S k)). unfold belowL in Hfirst.
      replace (S k - 1)%nat with k in Hfirst by lia.
      apply Qltb_false_le, Hfirst. lia. }
  split.
  { unfold upper_boundary. intros h Hh.
    destruct (scan_up _ _ _) as [i|] eqn:Hscan; [|discriminate].
    injection Hh as <-.
    destruct (scan_up_Some _ _ _ _ Hscan) as (Ht & Hle & Hwin & Hfirst).
    unfold belowU in Ht. rewrite Nat.add_1_r in Ht.
    split; [lia|]. split; [lia|]. split; [now apply Qltb_true|].
    intros k Hk. destruct (Nat.eq_dec k p) as [->|Hne].
    - now apply Qle_bool_iff.
    - specialize (Hfirst (k - 1)%nat). unfold belowU in Hfirst.
      replace (k - 1 + 1)%nat with k in Hfirst by lia.
      apply Qltb_false_le, Hfirst. lia. }
  split.
  { unfold lower_boundary. intros Hnone k Hlo Hhi.
    destruct (scan_down _ _ _) as [j|] eqn:Hscan; [discriminate|].
    pose proof (scan_down_None _ _ p Hr Hscan (S k)) as Hk.
    unfold belowL in Hk. replace (S k - 1)%nat with k in Hk by lia.
    apply Qltb_false_le, Hk; lia. }
  { unfold upper_boundary. intros Hnone k Hlo Hhi.
    destruct (scan_up _ _ _) as [i|] eqn:Hscan; [discriminate|].
    pose proof (scan_up_None _ _ p Hscan (k - 1)%nat) as Hk.
    unfold belowU in Hk. replace (k - 1 + 1)%nat with k in Hk by lia.
    apply Qltb_false_le, Hk; lia. }
Qed.

(** *** Arrays *)

Lemma where_from_bound mask :
  forall i x, x ∈ where_from i mask -> (i <= x < i + length mask)%nat.
Proof.
  induction mask as [|b mask IH]; intros i x Hx; [inversion Hx|].
  cbn [where_from] in Hx. cbn [length]. destruct b.
  - apply elem_of_cons in Hx as [->|Hx]; [lia|]. apply IH in Hx. lia.
  - apply IH in Hx. lia.
Qed.

Lemma where_bound mask x : x ∈ where_ mask -> (x < length mask)%nat.
Proof. intros Hx. apply where_from_bound in Hx. lia. Qed.

(** A mask that holds somewhere has a first index. *)
Lemma where_from_nonempty mask :
  forall i q, mask !! q = Some true -> exists p, where_from i mask !! 0%nat = Some p.
Proof.
  induction mask as [|b mask IH]; intros i q Hq; [discriminate|].
  cbn [where_from]. destruct b; [cbn; eauto|].
  destruct q as [|q]; [discriminate|]. apply (IH (S i) q). exact Hq.
Qed.

(** Indexing with indices inside the array returns the elements. *)
Lemma take_in_range (a : list Q) indices :
  Forall (fun i => (i < length a)%nat) indices ->
  take a indices = Ok (map (at_ a) indices).
Proof.
  induction indices as [|i rest IH]; intros Hin; [reflexivity|].
  apply Forall_cons in Hin as (Hi & Hrest). cbn [take map].
  rewrite (getitem_at a i Hi). cbn [Py.bind]. rewrite (IH Hrest). reflexivity.
Qed.

Lemma take_where (a : list Q) mask :
  (length mask <= length a)%nat ->
  take a (where_ mask) = Ok (map (at_ a) (where_ mask)).
Proof.
  intros Hlen. apply take_in_range. apply Forall_forall. intros x Hx.
  apply where_bound in Hx. lia.
Qed.

(** The maximum of a list is one of its elements. *)
Lemma fold_left_Qmax_in (a : list Q) :
  forall x, fold_left Qmax a x = x \/ fold_left Qmax a x ∈ a.
Proof.
  induction a as [|y a IH]; intros x; [now left|].
  cbn [fold_left]. destruct (IH (Qmax x y)) as [Heq|Hin].
  - rewrite Heq. unfold Qmax, GenericMinMax.gmax.
    destruct (x ?= y); [left | right; left | left]; reflexivity.
  - right. now right.
Qed.

Lemma np_max_in (a : list Q) m : np_max a = Ok m -> m ∈ a.
Proof.
  destruct a as [|x a]; [discriminate|]. cbn. intros [= <-].
  destruct (fold_left_Qmax_in a x) as [-> | Hin]; [left | now right].
Qed.

Lemma np_max_returns (a : list Q) : a <> [] -> exists m, np_max a = Ok m.
Proof. destruct a; [congruence | cbn; eauto]. Qed.

Lemma elem_of_map_at (a : list Q) indices x :
  Forall (fun i => (i < length a)%nat) indices ->
  x ∈ map (at_ a) indices -> x ∈ a.
Proof.
  intros Hin Hx. apply list_elem_of_fmap in Hx as (i & -> & Hi).
  rewrite Forall_forall in Hin. specialize (Hin i Hi).
  unfold at_. destruct (lookup_lt_is_Some_2 a i Hin) as (y & Hy).
  rewrite Hy. cbn. now apply list_elem_of_lookup_2 in Hy.
Qed.

(** A value of the grid has a first index. *)
Lemma first_index_of_elem (pgram : list Q) m :
  m ∈ pgram -> exists p, first_index pgram m = Some p.
Proof.
  intros Hm. apply list_elem_of_lookup_1 in Hm as (q & Hq).
  unfold first_index, where_. apply (where_from_nonempty _ 0%nat q).
  rewrite list_lookup_fmap, Hq. cbn. f_equal. apply Qeq_bool_refl.
Qed.

(** *** The analysis as a whole *)

(** The two masks of [analyse] on the frequencies. *)
Definition band_mask (freq : list Q) : list bool :=
  map (fun f => Qltb (1 # 100) f) freq.
Definition near365_mask (freq : list Q) : list bool :=
  map (fun f => Qltb (Qabs (f - (17 # 1000))) (1 # 100000)) freq.

Lemma where_nonempty mask q : mask !! q = Some true -> where_ mask <> [].
Proof.
  intros Hq. destruct (where_from_nonempty mask 0%nat q Hq) as (p & Hp).
  unfold where_. intros Hnil. rewrite Hnil in Hp. discriminate.
Qed.

Lemma Qeq_bool_sym x y : Qeq_bool x y = Qeq_bool y x.
Proof.
  destruct (Qeq_bool y x) eqn:Hyx.
  - apply Qeq_bool_iff. symmetry. now apply Qeq_bool_iff.
  - destruct (Qeq_bool x y) eqn:Hxy; [|reflexivity].
    apply Qeq_bool_iff in Hxy. symmetry in Hxy. apply Qeq_bool_iff in Hxy.
    congruence.
Qed.

(** [analyse] on a spectrum of the size of the grid, when some frequency
    lies above the floor: every step up to [getfwhm] returns.  [m] is the
    maximum over the band above the floor, [top] the maximum over the whole
    grid, [p] and [q] the first indices where the power equals [m] and
    [top]. *)
Lemma analyse_returns (freq power : list Q) :
  length power = length freq ->
  where_ (band_mask freq) <> [] ->
  exists m top p q,
    np_max (map (at_ power) (where_ (band_mask freq))) = Ok m
    /\ np_max power = Ok top
    /\ first_index power m = Some p
    /\ first_index power top = Some q
    /\ m ∈ power
    /\ analyse freq power
       = (fwhm <- getfwhm power freq m ;;
          Ok (mkLocals freq power m (at_ freq q)
                (np_mean (map (at_ power) (where_ (near365_mask freq))))
                fwhm))%py.
Proof.
  intros Hpow Hnonempty.
  assert (Hband : Forall (fun i => (i < length power)%nat)
                    (where_ (band_mask freq))).
  { apply Forall_forall. intros x Hx. apply where_bound in Hx.
    unfold band_mask in Hx. rewrite length_map in Hx. lia. }
  destruct (np_max_returns (map (at_ power) (where_ (band_mask freq))))
    as (m & Hm).
  { intros Hnil. apply fmap_nil_inv in Hnil. now apply Hnonempty. }
  assert (Hin : m ∈ power).
  { apply (elem_of_map_at power (where_ (band_mask freq)) m Hband).
    now apply np_max_in. }
  destruct (np_max_returns power) as (top & Htop).
  { intros Hnil. rewrite Hnil in Hin. inversion Hin. }
  destruct (first_index_of_elem power m Hin) as (p & Hp).
  destruct (first_index_of_elem power top (np_max_in _ _ Htop)) as (q & Hq).
  exists m, top, p, q.
  split; [exact Hm|]. split; [exact Htop|]. split; [exact Hp|].
  split; [exact Hq|]. split; [exact Hin|].
  unfold analyse. fold (band_mask freq). fold (near365_mask freq).
  rewrite (take_in_range power (where_ (band_mask freq)) Hband).
  cbn [Py.bind]. rewrite Hm. cbn [Py.bind]. rewrite Htop. cbn [Py.bind].
  assert (Hmask : map (fun x => Qeq_bool top x) power
                  = map (fun x => Qeq_bool x top) power).
  { apply map_ext. intros x. apply Qeq_bool_sym. }
  rewrite Hmask.
  rewrite (take_where freq (map (fun x => Qeq_bool x top) power))
    by (rewrite length_map; lia).
  cbn [Py.bind]. unfold first_index in Hq.
  assert (Hhead : getitem (map (at_ freq)
                             (where_ (map (fun x => Qeq_bool x top) power)))
                    0%nat = Ok (at_ freq q)).
  { unfold getitem. rewrite list_lookup_fmap, Hq. reflexivity. }
  rewrite Hhead. cbn [Py.bind].
  rewrite (take_where power (near365_mask freq))
    by (unfold near365_mask; rewrite length_map; lia).
  reflexivity.
Qed.

Lemma length_linspace start stop num : length (linspace start stop num) = num.
Proof. unfold linspace. now rewrite length_map, length_seq. Qed.

Lemma length_freq_grid : length freq_grid = grid_size.
Proof. apply length_linspace. Qed.

(** The last grid frequency, 0.03, lies in the band above the floor. *)
Lemma band_last : band_mask freq_grid !! Z.to_nat 9999 = Some true.
Proof. vm_compute. reflexivity. Qed.

Lemma band_nonempty : where_ (band_mask freq_grid) <> [].
Proof. eapply where_nonempty. apply band_last. Qed.

(** [pgram_locals] is [analyse] on the grid and the spectrum of the
    shifted times. *)
Lemma pgram_locals_analyse lombscargle tdata Idata :
  pgram_locals lombscargle tdata Idata
  = analyse freq_grid
      (lombscargle (map (fun t => t - 2450000) tdata) Idata freq_grid).
Proof. reflexivity. Qed.

Lemma round_zero ndigits : round 0 ndigits = 0.
Proof.
  unfold round, Qdiv, Qinv, inject_Z. cbn [Qnum].
  destruct (10 ^ Z.of_nat ndigits)%Z; reflexivity.
Qed.

(** *** The peak power and the peak frequency *)

(** Equality of two rationals as fractions. *)
Definition Qsame (x y : Q) : bool :=
  Z.eqb (Qnum x) (Qnum y) && Pos.eqb (Qden x) (Qden y).

Lemma Qsame_eq x y : Qsame x y = true -> x = y.
Proof.
  destruct x as [a b], y as [c d]. unfold Qsame. cbn [Qnum Qden].
  intros H. apply andb_prop in H as (Hn & Hd).
  apply Z.eqb_eq in Hn. apply Pos.eqb_eq in Hd. now subst.
Qed.

Definition same_index (o : option nat) (k : nat) : bool :=
  match o with Some i => Nat.eqb i k | None => false end.

Lemma same_index_eq o k : same_index o k = true -> o = Some k.
Proof.
  destruct o as [i|]; cbn; [|discriminate].
  intros H. apply Nat.eqb_eq in H. now subst.
Qed.

(** The values [pgram] takes on the spectrum with a slow dominant
    oscillation, whatever the series: the peak power is the one of the
    band, 1/2 at index 5000, and the peak frequency the one of the global
    maximum at index 1500. *)
Lemma slow_peak_locals tdata Idata :
  exists l,
    pgram_locals scenarios.slow_peak_spectrum tdata Idata = Ok l
    /\ l_maxpgram l = 1 # 2
    /\ first_index (l_pgram l) (1 # 2) = Some scenarios.band_index
    /\ first_index (l_pgram l) 1 = Some scenarios.slow_index
    /\ l_freq_at_maxgram l = 152833 # 33330000
    /\ at_ (l_freq l) scenarios.slow_index = 152833 # 33330000
    /\ at_ (l_freq l) scenarios.band_index = 1504999 # 99990000.
Proof.
  assert (Hrun :
    match pgram_locals scenarios.slow_peak_spectrum tdata Idata with
    | Ok l =>
        Qsame (l_maxpgram l) (1 # 2)
        && (same_index (first_index (l_pgram l) (1 # 2)) scenarios.band_index
        && (same_index (first_index (l_pgram l) 1) scenarios.slow_index
        && (Qsame (l_freq_at_maxgram l) (152833 # 33330000)
        && (Qsame (at_ (l_freq l) scenarios.slow_index) (152833 # 33330000)
        && Qsame (at_ (l_freq l) scenarios.band_index)
             (1504999 # 99990000)))))
    | Raise _ => false
    end = true).
  { vm_compute. reflexivity. }
  destruct (pgram_locals scenarios.slow_peak_spectrum tdata Idata) as [l|e];
    [|discriminate Hrun].
  apply andb_prop in Hrun as (Hmax & Hrun).
  apply andb_prop in Hrun as (Hband & Hrun).
  apply andb_prop in Hrun as (Hslow & Hrun).
  apply andb_prop in Hrun as (Hfreq & Hrun).
  apply andb_prop in Hrun as (Hat1 & Hat2).
  exists l. split; [reflexivity|].
  split; [exact (Qsame_eq _ _ Hmax)|].
  split; [exact (same_index_eq _ _ Hband)|].
  split; [exact (same_index_eq _ _ Hslow)|].
  split; [exact (Qsame_eq _ _ Hfreq)|].
  split; [exact (Qsame_eq _ _ Hat1) | exact (Qsame_eq _ _ Hat2)].
Qed.

Lemma bind_ok {A B} (r : result A) (k : A -> result B) b :
  Py.bind r k = Ok b -> exists a, r = Ok a /\ k a = Ok b.
Proof. destruct r as [a|e]; cbn; [eauto | discriminate]. Qed.

(** The grid and the spectrum go into the result as they are. *)
Lemma analyse_fields freq power l :
  analyse freq power = Ok l -> l_freq l = freq /\ l_pgram l = power.
Proof.
  unfold analyse. intros H.
  apply bind_ok in H as (pgramtemp & _ & H).
  apply bind_ok in H as (m & _ & H).
  apply bind_ok in H as (top & _ & H).
  apply bind_ok in H as (at_top & _ & H).
  apply bind_ok in H as (f & _ & H).
  apply bind_ok in H as (near & _ & H).
  apply bind_ok in H as (w & _ & H).
  injection H as <-. split; reflexivity.
Qed.

(** C1, on a series with a dominant oscillation slower than the floor:
    the reported peak power is the maximum over the band above the floor
    (1/2, first reached at grid index 5000, frequency near 0.015051), but
    the reported peak frequency is the one of the maximum over the whole
    grid (grid index 1500, reported as 0.004585), not the frequency where
    the power equals the reported peak power; the period is 2 pi over that
    frequency. *)
Theorem pgram_peak_frequency_of_global_maximum tdata Idata :
  exists d,
    pgram scenarios.slow_peak_spectrum tdata Idata = Ok d
    /\ maxpgram d = 1 # 2
    /\ first_index (pgram_power d) (1 # 2) = Some scenarios.band_index
    /\ at_ (freq d) scenarios.band_index = 1504999 # 99990000
    /\ first_index (pgram_power d) 1 = Some scenarios.slow_index
    /\ at_ (freq d) scenarios.slow_index = 152833 # 33330000
    /\ freq_at_maxpgram d = round (152833 # 33330000) 6
    /\ freq_at_maxpgram d = 917 # 200000
    /\ parallax_period d
       = calculations.round (2 * PI / Q2R (152833 # 33330000))%R 4.
Proof.
  destruct (slow_peak_locals tdata Idata)
    as (l & Hl & Hmax & Hband & Hslow & Hfreq & Hat1 & Hat2).
  exists (mkPgramDict
            (round (l_maxpgram l) 4)
            (round (l_freq_at_maxgram l) 6)
            (calculations.round (parallax_period_of (l_freq_at_maxgram l)) 4)
            (option_map (fun m => round m 4) (l_maxpgram365 l))
            (option_map (fun m => round m 8)
               (norm365 (l_maxpgram365 l) (l_maxpgram l)))
            (round (l_fwhm l) 6)
            (l_freq l)
            (l_pgram l)).
  split.
  { unfold pgram. rewrite Hl. reflexivity. }
  cbn [maxpgram pgram_power freq freq_at_maxpgram parallax_period].
  rewrite Hmax, Hfreq.
  split; [vm_compute; reflexivity|]. split; [exact Hband|].
  split; [exact Hat2|]. split; [exact Hslow|]. split; [exact Hat1|].
  split; [reflexivity|]. split; [vm_compute; reflexivity | reflexivity].
Qed.

End periodogram_facts.

(** ** More on the acquisition *)

Module filegrabber_more.
Import filegrabber filegrabber_facts.
Local Open Scope nat_scope.

(** *** Permanent and persistent failures *)


(** A link that fails for as many requests as the stack allows. *)
Lemma get_contents_at_streak self ftp depth :
  forall w,
    (forall i, i < depth -> server w (sent w + i) = TempError) ->
    exists w',
      get_contents_at depth self ftp w = (w', Raise RecursionError)
      /\ sent w' = sent w + depth
      /\ server w' = server w
      /\ length (ftplog w') = length (ftplog w) + 4 * depth.
Proof.
  induction depth as [|depth IH]; intros w Hfail.
  - exists w. cbn. repeat split; lia.
  - rewrite get_contents_at_transient
      by (rewrite <- (Nat.add_0_r (sent w)); apply Hfail; lia).
    cbn zeta.
    set (w1 := log_ftp EvLogin
                 (log_ftp (EvConnect ftp_url)
                    (log_ftp EvClose
                       (bump_sent
                          (log_ftp (EvRetr ("RETR " +:+ filepath self)) w))))).
    destruct (IH w1) as (w' & Hrun & Hsent & Hserver & Hlog).
    { intros i Hi. cbn. replace (S (sent w + i)) with (sent w + S i) by lia.
      apply Hfail. lia. }
    exists w'. rewrite Hrun. split; [reflexivity|].
    split; [rewrite Hsent; cbn; lia|]. split; [exact Hserver|].
    rewrite Hlog. cbn. rewrite !length_app. cbn. lia.
Qed.

(** X2: on a link that keeps failing the retry is bounded by the stack
    only: every request is followed by close, connect and login and by the
    next request, until the recursion limit ends the call in
    [RecursionError]. *)
Theorem get_contents_unbounded_retry self ftp w :
  (forall i, i < recursion_limit w -> server w (sent w + i) = TempError) ->
  exists w',
    get_contents self ftp w = (w', Raise RecursionError)
    /\ sent w' = sent w + recursion_limit w
    /\ length (ftplog w') = length (ftplog w) + 4 * recursion_limit w.
Proof.
  intros Hfail. unfold get_contents.
  destruct (get_contents_at_streak self ftp (recursion_limit w) w Hfail)
    as (w' & Hrun & Hsent & _ & Hlog).
  exists w'. repeat split; assumption.
Qed.

(** *** Text *)

(** ['\n'.join(lines)] *)
Fixpoint join_lines (ls : list string) : string :=
  match ls with
  | [] => EmptyString
  | [l] => l
  | l :: rest => l +:+ newline +:+ join_lines rest
  end.

Lemma rstrip_space_tail (s : string) (c : ascii) :
  isspace c = true -> rstrip (s +:+ String c EmptyString) = rstrip s.
Proof.
  intros Hc. induction s as [|x s IH].
  - rewrite append_nil. simpl. now rewrite Hc.
  - rewrite append_cons. simpl. now rewrite IH.
Qed.

Lemma lstrip_app_nonspace (s t : string) :
  lstrip s <> EmptyString -> lstrip (s +:+ t) = lstrip s +:+ t.
Proof.
  induction s as [|x s IH]; intros Hne.
  - now contradict Hne.
  - rewrite append_cons. simpl in *. destruct (isspace x).
    + now apply IH.
    + now rewrite append_cons.
Qed.

Lemma lstrip_all_space (s : string) (c : ascii) :
  isspace c = true -> lstrip s = EmptyString ->
  lstrip (s +:+ String c EmptyString) = EmptyString.
Proof.
  intros Hc. induction s as [|x s IH]; intros Hs.
  - rewrite append_nil. simpl. now rewrite Hc.
  - rewrite append_cons. simpl in *. destruct (isspace x); [now apply IH|].
    discriminate.
Qed.

(** A white character at the end does not change the stripped text. *)
Lemma strip_space_tail (s : string) (c : ascii) :
  isspace c = true -> strip (s +:+ String c EmptyString) = strip s.
Proof.
  intros Hc. unfold strip.
  destruct (string_dec (lstrip s) EmptyString) as [Hall|Hsome].
  - rewrite (lstrip_all_space s c Hc Hall), Hall. reflexivity.
  - rewrite (lstrip_app_nonspace s _ Hsome). now apply rstrip_space_tail.
Qed.

Lemma rstrip_twice (s : string) : rstrip (rstrip s) = rstrip s.
Proof.
  induction s as [|x s IH]; [reflexivity|]. simpl.
  destruct (rstrip s) as [|y r] eqn:Hr.
  - destruct (isspace x) eqn:Hx; [reflexivity|]. simpl. now rewrite Hx.
  - change (rstrip (String x (String y r)))
      with (match rstrip (String y r) with
            | EmptyString =>
                if isspace x then EmptyString else String x EmptyString
            | String a b => String x (String a b)
            end).
    now rewrite IH.
Qed.

(** What [lstrip] returns does not start with a white character. *)
Lemma lstrip_head (s : string) :
  match lstrip s with
  | String c _ => isspace c = false
  | EmptyString => True
  end.
Proof.
  induction s as [|x s IH]; [exact I|]. simpl.
  destruct (isspace x) eqn:Hx; [exact IH | exact Hx].
Qed.

Lemma rstrip_head (s : string) :
  match s with
  | String c _ =>
      isspace c = false ->
      match rstrip s with String c' _ => c' = c | EmptyString => False end
  | EmptyString => True
  end.
Proof.
  destruct s as [|c s]; [exact I|]. intros Hc. simpl.
  destruct (rstrip s); [now rewrite Hc | reflexivity].
Qed.

Lemma lstrip_nonspace_head (s : string) :
  match s with
  | String c _ => isspace c = false -> lstrip s = s
  | EmptyString => True
  end.
Proof. destruct s as [|c s]; [exact I|]. intros Hc. simpl. now rewrite Hc. Qed.

Lemma strip_twice (s : string) : strip (strip s) = strip s.
Proof.
  unfold strip. pose proof (lstrip_head s) as Hhead.
  pose proof (rstrip_head (lstrip s)) as Hkeep.
  destruct (lstrip s) as [|c t] eqn:Hl; [reflexivity|].
  specialize (Hkeep Hhead).
  pose proof (lstrip_nonspace_head (rstrip (String c t))) as Hfix.
  destruct (rstrip (String c t)) as [|c' t'] eqn:Hr; [contradiction|].
  subst c'. rewrite (Hfix Hhead). rewrite <- Hr. apply rstrip_twice.
Qed.

(** The buffer after the callback took the lines in. *)
Fixpoint written (ls : list string) : string :=
  match ls with
  | [] => EmptyString
  | l :: rest => l +:+ newline +:+ written rest
  end.

Lemma fold_write (ls : list string) :
  forall stream,
    fold_left DatStream_write ls stream = stream +:+ written ls.
Proof.
  induction ls as [|l ls IH]; intros stream.
  - cbn [fold_left written]. induction stream as [|c t IHt]; [reflexivity|].
    rewrite append_cons. now rewrite <- IHt.
  - cbn [fold_left written]. rewrite IH. unfold DatStream_write.
    now rewrite !append_assoc.
Qed.

Lemma written_join (ls : list string) :
  ls <> [] -> written ls = join_lines ls +:+ newline.
Proof.
  induction ls as [|l ls IH]; [congruence|]. intros _.
  destruct ls as [|l' ls].
  - cbn [written join_lines]. induction l as [|c t IHt]; [reflexivity|].
    rewrite !append_cons. now rewrite IHt.
  - cbn [written join_lines] in *. rewrite IH by discriminate.
    now rewrite !append_assoc.
Qed.

(** The text of a fetched document is the lines joined by newlines, with
    the white space around them removed, and the second [strip] of
    [DatFile] changes nothing. *)
Lemma getvalue_join (ls : list string) :
  DatStream_getvalue (fold_left DatStream_write ls DatStream_new)
  = strip (join_lines ls).
Proof.
  unfold DatStream_getvalue, DatStream_new. rewrite fold_write, append_nil.
  destruct ls as [|l ls]; [reflexivity|].
  rewrite written_join by discriminate. unfold newline.
  now apply strip_space_tail.
Qed.

Lemma served_join (ls : list string) : served ls = strip (join_lines ls).
Proof. unfold served. rewrite getvalue_join. apply strip_twice. Qed.

(** X3: the text of a fetched document is the lines joined by newlines
    with the white space around them removed; the newline the callback
    adds after the last line is not part of it, and the second [strip], the
    one of [DatFile], changes nothing. *)
Theorem fetched_text (ls : list string) (url : string) :
  DatStream_getvalue (fold_left DatStream_write ls DatStream_new)
  = strip (join_lines ls)
  /\ contents
       (DatFile_init url
          (DatStream_getvalue (fold_left DatStream_write ls DatStream_new)))
     = strip (join_lines ls)
  /\ strip (strip (join_lines ls)) = strip (join_lines ls).
Proof.
  split; [apply getvalue_join|]. split; [|apply strip_twice].
  cbn [DatFile_init contents]. rewrite getvalue_join. apply strip_twice.
Qed.

(** *** The cache before the network *)

Lemma get_datfile_reads_cache fg year n field dat_type w p c :
  cache_path fg year n field dat_type = Some p ->
  files w !! p = Some c ->
  exists rdf,
    RemoteDatFile_init year n field dat_type = Ok rdf
    /\ get_datfile fg year n field dat_type w
       = (w, Ok (mkDatFile (fileurl rdf) (strip c))).
Proof.
  unfold cache_path. intros Hp Hc.
  destruct (datadir fg) as [dir|] eqn:Hdir; [|discriminate].
  destruct (padded_n n year) as [pn|] eqn:Hpn; [|discriminate].
  injection Hp as <-.
  destruct (RemoteDatFile_init_ok year n field dat_type pn Hpn)
    as (rdf & Hrdf & _).
  exists rdf. split; [exact Hrdf|].
  unfold get_datfile, mbind, lift, gets, read_file, ret,
    __get_local_filepath, str_datadir.
  rewrite Hrdf, Hdir, Hpn. cbn.
  rewrite (proj2 (isfile_true _ w)) by (rewrite Hc; eauto).
  rewrite Hc. reflexivity.
Qed.

(** X4: a document that is in the cache is read from there: the world,
    and with it the FTP log, is unchanged, whether the grabber has a client
    or not, and the contents are the stripped text of the file. *)
Theorem get_datfile_cached fg year n field dat_type w p c :
  cache_path fg year n field dat_type = Some p ->
  files w !! p = Some c ->
  exists rdf,
    RemoteDatFile_init year n field dat_type = Ok rdf
    /\ get_datfile fg year n field dat_type w
       = (w, Ok (mkDatFile (fileurl rdf) (strip c))).
Proof. apply get_datfile_reads_cache. Qed.

(** *** Unsupported years *)

Lemma padded_n_unsupported n year :
  ~ supported year -> padded_n n year = Raise (Exception "Unsupported year.").
Proof.
  intros Hy. unfold padded_n. now rewrite get_ogle_version_unsupported.
Qed.

(** X5: for a year outside the three ranges every entry point raises the
    unsupported-year exception before it touches the cache, the connection
    or the output: [get_datfile] for any document, [save] with a data
    directory, and [Event.__init__] with or without a grabber. *)
Theorem unsupported_year_fails_first fg year n field w :
  ~ supported year ->
  (forall dat_type,
      get_datfile fg year n field dat_type w
      = (w, Raise (Exception "Unsupported year.")))
  /\ (datadir fg <> None ->
      save fg year n field w = (w, Raise (Exception "Unsupported year.")))
  /\ (forall fgrabber,
        event.Event_init year n field fgrabber w
        = (w, Raise (Exception "Unsupported year."))).
Proof.
  intros Hy.
  assert (Hget : forall dat_type,
             get_datfile fg year n field dat_type w
             = (w, Raise (Exception "Unsupported year."))).
  { intros dat_type. unfold get_datfile, mbind, lift, RemoteDatFile_init.
    now rewrite (padded_n_unsupported n year Hy). }
  split; [exact Hget|]. split.
  - intros Hdir. unfold save. destruct (datadir fg); [|congruence].
    unfold dat_types, for_each, mbind, save_one, mbind.
    now rewrite Hget.
  - intros fgrabber. unfold event.Event_init, mbind, lift.
    now rewrite (padded_n_unsupported n year Hy).
Qed.

(** *** The data directory *)

Lemma endswith_slash_last dir :
  endswith_slash dir = true -> last_char dir = Some "/"%char.
Proof.
  unfold endswith_slash. destruct (last_char dir) as [c|]; [|discriminate].
  intros Hc. apply Ascii.eqb_eq in Hc. now subst.
Qed.

(** X6: [__verify_datadir] rejects a path that is no directory, keeps a
    directory without trailing slash as it is, falls back to [OGLEDATADIR]
    when no path is given, and for a directory with a trailing slash
    stores its last character, the slash alone, as data directory. *)
Theorem verify_datadir_cases dir w :
  (isdir dir w = false ->
   __verify_datadir (Some dir) w
   = (w, Raise (Exception "Invalid data directory.")))
  /\ (isdir dir w = true -> endswith_slash dir = false ->
      __verify_datadir (Some dir) w = (w, Ok (Some dir)))
  /\ (isdir dir w = true -> endswith_slash dir = true ->
      __verify_datadir (Some dir) w = (w, Ok (Some "/")))
  /\ (isdir dir w = true -> endswith_slash dir = true ->
      forall ftp_enabled w' fg,
        FileGrabber_init (Some dir) ftp_enabled w = (w', Ok fg) ->
        datadir fg = Some "/")
  /\ __verify_datadir None w = (w, Ok (environ w !! "OGLEDATADIR")).
Proof.
  assert (Hslash : isdir dir w = true -> endswith_slash dir = true ->
            __verify_datadir (Some dir) w = (w, Ok (Some "/"))).
  { intros Hd Hs. unfold __verify_datadir. rewrite Hd, Hs.
    now rewrite (endswith_slash_last dir Hs). }
  split; [|split; [|split; [|split]]].
  - intros Hd. unfold __verify_datadir. now rewrite Hd.
  - intros Hd Hs. unfold __verify_datadir. now rewrite Hd, Hs.
  - exact Hslash.
  - intros Hd Hs ftp_enabled w' fg. unfold FileGrabber_init, mbind.
    rewrite (Hslash Hd Hs).
    destruct ftp_enabled; cbn; intros [= _ <-]; reflexivity.
  - reflexivity.
Qed.

(** *** Failures in the middle of [save] *)

Lemma get_datfile_frame fg year n field dat_type w w' r :
  get_datfile fg year n field dat_type w = (w', r) ->
  files w' = files w /\ dirs w' = dirs w /\ stdout w' = stdout w.
Proof.
  unfold get_datfile, mbind, lift, gets, read_file, ret, get_contents.
  destruct (RemoteDatFile_init year n field dat_type) as [rdf|e];
    [|intros [= <- <-]; auto].
  destruct (datadir fg) as [dir|].
  - destruct (__get_local_filepath fg year n field dat_type) as [p|e];
      [|intros [= <- <-]; auto].
    destruct (isfile p w).
    + destruct (files w !! p); intros [= <- <-]; auto.
    + destruct (getattr_ftpclient fg) as [ftp|e]; [|intros [= <- <-]; auto].
      destruct (get_contents_at (recursion_limit w) rdf ftp w) as [w1 [c|e]]
        eqn:Hget; intros [= <- <-];
        now apply get_contents_at_frame in Hget.
  - destruct (getattr_ftpclient fg) as [ftp|e]; [|intros [= <- <-]; auto].
    destruct (get_contents_at (recursion_limit w) rdf ftp w) as [w1 [c|e]]
      eqn:Hget; intros [= <- <-];
      now apply get_contents_at_frame in Hget.
Qed.

Lemma write_file_keeps p s w w' r :
  files w !! p = None ->
  write_file p s w = (w', r) ->
  forall q c, files w !! q = Some c -> files w' !! q = Some c.
Proof.
  intros Hp. unfold write_file.
  destruct (isdir p w); [intros [= <- <-]; auto|].
  destruct (String.eqb (dirname p) EmptyString || isdir (dirname p) w).
  - intros [= <- <-] q c Hq. cbn.
    rewrite lookup_insert_ne; [exact Hq | congruence].
  - intros [= <- <-]; auto.
Qed.

Lemma makedirs_files name w w' r :
  makedirs name w = (w', r) -> files w' = files w.
Proof.
  unfold makedirs. destruct (String.eqb _ _); [now intros [= <- <-]|].
  destruct (existsb _ _); now intros [= <- <-].
Qed.

(** [__force_write] never removes or changes a file that is there. *)
Lemma force_write_keeps p s w w' r :
  __force_write p s w = (w', r) ->
  forall q c, files w !! q = Some c -> files w' !! q = Some c.
Proof.
  unfold __force_write, mbind, gets, ret.
  destruct (isfile p w) eqn:Hp; [intros [= <- <-]; auto|].
  apply isfile_false in Hp.
  destruct (exists_path (dirname p) w).
  - destruct (write_file p s w) as [w2 [u2|e2]] eqn:Hw;
      intros [= <- <-] q c Hq;
      now apply (write_file_keeps p s w _ _ Hp Hw).
  - destruct (makedirs (dirname p) w) as [w1 [u|e]] eqn:Hmk;
      apply makedirs_files in Hmk.
    + destruct (write_file p s w1) as [w2 [u2|e2]] eqn:Hw;
        intros [= <- <-] q c Hq;
        apply (write_file_keeps p s w1 _ _ ltac:(now rewrite Hmk) Hw);
        now rewrite Hmk.
    + intros [= <- <-] q c. now rewrite Hmk.
Qed.

Lemma save_one_keeps fg year n field dt w w' r :
  save_one fg year n field dt w = (w', r) ->
  forall q c, files w !! q = Some c -> files w' !! q = Some c.
Proof.
  unfold save_one. unfold mbind at 1.
  destruct (get_datfile fg year n field dt w) as [w1 [df|e]] eqn:Hget;
    apply get_datfile_frame in Hget as (Hfiles & _);
    [|intros [= <- <-] q c; now rewrite Hfiles].
  unfold mbind at 1, lift.
  destruct (__get_local_filepath fg year n field dt) as [p|e];
    [|intros [= <- <-] q c; now rewrite Hfiles].
  unfold mbind.
  destruct (__force_write p (contents df) w1) as [w2 [o|e]] eqn:Hwrite;
    pose proof (force_write_keeps _ _ _ _ _ Hwrite) as Hkeep.
  - destruct (o =? 0)%Z; [|destruct (o =? 1)%Z];
      intros [= <- <-] q c Hq; cbn; apply Hkeep; now rewrite Hfiles.
  - intros [= <- <-] q c Hq. apply Hkeep. now rewrite Hfiles.
Qed.

(** X7: [save] is not atomic: when the photometry step returns and the
    parameters step raises, [save] raises that exception and the photometry
    file stays in the cache, with the fetched text if it was not there
    before. *)
Theorem save_not_atomic fg year n field w wa wb e :
  datadir fg <> None ->
  save_one fg year n field "phot" w = (wa, Ok tt) ->
  save_one fg year n field "params" wa = (wb, Raise e) ->
  save fg year n field w = (wb, Raise e)
  /\ forall p, cache_path fg year n field "phot" = Some p ->
       is_Some (files wb !! p)
       /\ (files w !! p = None ->
           exists ls, server w (sent w) = Lines ls
                      /\ files wb !! p = Some (served ls)).
Proof.
  intros Hdir Hphot Hparams. split.
  - unfold save. destruct (datadir fg); [|congruence].
    unfold dat_types, for_each, mbind. now rewrite Hphot, Hparams.
  - intros p Hp.
    destruct (save_one_step fg year n field "phot" w wa p
                (or_introl eq_refl) Hp Hphot) as (_ & _ & _ & _ & Hfiles).
    pose proof (save_one_keeps _ _ _ _ _ _ _ _ Hparams) as Hkeep.
    destruct (files w !! p) as [c|] eqn:Hc.
    + destruct Hfiles as (Hsame & _). split; [|discriminate].
      exists c. apply Hkeep. now rewrite Hsame.
    + destruct Hfiles as (ls & Hreply & Hins & _).
      assert (Hthere : files wb !! p = Some (served ls)).
      { apply Hkeep. rewrite Hins. apply lookup_insert_eq. }
      split; [eauto|]. intros _. eauto.
Qed.

(** *** From [save] to a later [get_datfile] *)

(** The two documents in the cache after a run of [save] that returned. *)
Lemma save_leaves_files fg year n field w w1 :
  save fg year n field w = (w1, Ok tt) ->
  forall dt, dt = "phot" \/ dt = "params" ->
  exists p,
    cache_path fg year n field dt = Some p
    /\ match files w !! p with
       | Some c => files w1 !! p = Some c
       | None => exists k ls, server w k = Lines ls
                              /\ files w1 !! p = Some (served ls)
       end.
Proof.
  intros Hsave. unfold save in Hsave.
  destruct (datadir fg) as [dir|] eqn:Hdir; [|discriminate].
  unfold dat_types, for_each in Hsave.
  apply mbind_ok in Hsave as ([] & wa & H1 & Hsave).
  apply mbind_ok in Hsave as ([] & wb & H2 & Hret).
  unfold ret in Hret. injection Hret as ->.
  destruct (save_one_path _ _ _ _ _ _ _ _ Hdir H1) as (p1 & Hp1).
  destruct (save_one_path _ _ _ _ _ _ _ _ Hdir H2) as (p2 & Hp2).
  pose proof (cache_paths_differ _ _ _ _ _ _ Hp1 Hp2) as Hneq.
  destruct (save_one_step _ _ _ _ _ _ _ _ (or_introl eq_refl) Hp1 H1)
    as (_ & _ & Hserver1 & _ & Hfiles1).
  destruct (save_one_step _ _ _ _ _ _ _ _ (or_intror eq_refl) Hp2 H2)
    as (_ & _ & _ & _ & Hfiles2).
  pose proof (save_one_keeps _ _ _ _ _ _ _ _ H2) as Hkeep2.
  intros dt [-> | ->].
  - exists p1. split; [exact Hp1|].
    destruct (files w !! p1) as [c|] eqn:Hc.
    + destruct Hfiles1 as (Hsame & _). apply Hkeep2. now rewrite Hsame.
    + destruct Hfiles1 as (ls & Hreply & Hins & _).
      exists (sent w), ls. split; [exact Hreply|].
      apply Hkeep2. rewrite Hins. apply lookup_insert_eq.
  - exists p2. split; [exact Hp2|].
    assert (Hsame : files wa !! p2 = files w !! p2).
    { destruct (files w !! p1).
      - destruct Hfiles1 as (-> & _). reflexivity.
      - destruct Hfiles1 as (ls & _ & -> & _). now rewrite lookup_insert_ne. }
    rewrite <- Hsame. destruct (files wa !! p2) as [c|] eqn:Hc.
    + destruct Hfiles2 as (-> & _). exact Hc.
    + destruct Hfiles2 as (ls & Hreply & -> & _).
      exists (sent wa), ls. rewrite <- Hserver1. split; [exact Hreply|].
      apply lookup_insert_eq.
Qed.

(** X8: what [save] left in the cache is what [get_datfile] returns
    afterwards, for a grabber on the same data directory with or without
    FTP client and without any request: for a document that [save] had to
    fetch, the contents are the served lines joined and stripped. *)
Theorem saved_documents_offline fg fg' year n field w w1 dt :
  save fg year n field w = (w1, Ok tt) ->
  datadir fg' = datadir fg ->
  dt = "phot" \/ dt = "params" ->
  exists p rdf c,
    cache_path fg year n field dt = Some p
    /\ RemoteDatFile_init year n field dt = Ok rdf
    /\ files w1 !! p = Some c
    /\ get_datfile fg' year n field dt w1
       = (w1, Ok (mkDatFile (fileurl rdf) (strip c)))
    /\ (files w !! p = None ->
        exists k ls, server w k = Lines ls /\ strip c = strip (join_lines ls)).
Proof.
  intros Hsave Hdir Hdt.
  destruct (save_leaves_files fg year n field w w1 Hsave dt Hdt)
    as (p & Hp & Hend).
  assert (Hp' : cache_path fg' year n field dt = Some p)
    by (unfold cache_path in *; now rewrite Hdir).
  assert (Hc : exists c, files w1 !! p = Some c
                 /\ (files w !! p = None ->
                     exists k ls, server w k = Lines ls /\ c = served ls)).
  { destruct (files w !! p) as [c|].
    - exists c. split; [exact Hend | discriminate].
    - destruct Hend as (k & ls & Hreply & Hfile). exists (served ls).
      split; [exact Hfile|]. intros _. eauto. }
  destruct Hc as (c & Hc & Hfetched).
  destruct (get_datfile_reads_cache fg' year n field dt w1 p c Hp' Hc)
    as (rdf & Hrdf & Hget).
  exists p, rdf, c. split; [exact Hp|]. split; [exact Hrdf|].
  split; [exact Hc|]. split; [exact Hget|].
  intros Hnone. destruct (Hfetched Hnone) as (k & ls & Hreply & ->).
  exists k, ls. split; [exact Hreply|].
  rewrite served_join. apply strip_twice.
Qed.

(** *** The scenarios *)


Lemma get_contents_unbounded_retry_witness :
  exists w',
    get_contents scenarios.rdf_phot FTPClient
      (scenarios_more.shallow scenarios_more.dead_link)
    = (w', Raise RecursionError)
    /\ sent w' = 3 /\ length (ftplog w') = 12.
Proof.
  apply (get_contents_unbounded_retry scenarios.rdf_phot FTPClient
           (scenarios_more.shallow scenarios_more.dead_link)).
  intros i Hi. reflexivity.
Defined.

Lemma get_datfile_cached_witness :
  exists rdf,
    RemoteDatFile_init 2015 7 "BLG" "phot" = Ok rdf
    /\ get_datfile scenarios.offline_grabber 2015 7 "BLG" "phot"
         scenarios_more.warm_cache
       = (scenarios_more.warm_cache,
          Ok (mkDatFile (fileurl rdf) "2457000.5 15.123 0.004")).
Proof.
  apply (get_datfile_cached scenarios.offline_grabber 2015 7 "BLG" "phot"
           scenarios_more.warm_cache "/data/2015/blg-0007/phot.dat"
           " 2457000.5 15.123 0.004  ").
  - reflexivity.
  - reflexivity.
Defined.

Lemma unsupported_year_fails_first_witness :
  save scenarios.online_grabber 2010 7 "blg"
    (scenarios.empty_cache (scenarios.steady scenarios.phot_lines))
  = (scenarios.empty_cache (scenarios.steady scenarios.phot_lines),
     Raise (Exception "Unsupported year.")).
Proof.
  destruct (unsupported_year_fails_first scenarios.online_grabber 2010 7 "blg"
              (scenarios.empty_cache (scenarios.steady scenarios.phot_lines)))
    as (_ & Hsave & _).
  - unfold supported. lia.
  - apply Hsave. discriminate.
Defined.

Lemma verify_datadir_cases_witness :
  __verify_datadir (Some "/data/") scenarios_more.slash_world
  = (scenarios_more.slash_world, Ok (Some "/")).
Proof.
  destruct (verify_datadir_cases "/data/" scenarios_more.slash_world)
    as (_ & _ & Hslash & _).
  apply Hslash; reflexivity.
Defined.

Lemma save_not_atomic_witness :
  let w := scenarios.empty_cache (scenarios_more.first_only scenarios.phot_lines) in
  exists wb,
    save scenarios.online_grabber 2015 7 "blg" w
    = (wb, Raise (Exception
                    "url: /ogle/ogle4/ews/2015/blg-0007/params.dat is invalid"))
    /\ is_Some (files wb !! "/data/2015/blg-0007/phot.dat").
Proof.
  intros w.
  pose (wa := fst (save_one scenarios.online_grabber 2015 7 "blg" "phot" w)).
  pose (wb := fst (save_one scenarios.online_grabber 2015 7 "blg" "params" wa)).
  assert (H1 : save_one scenarios.online_grabber 2015 7 "blg" "phot" w
               = (wa, Ok tt)).
  { unfold wa.
    destruct (save_one scenarios.online_grabber 2015 7 "blg" "phot" w)
      as [w' r] eqn:Hrun.
    assert (Hr : snd (save_one scenarios.online_grabber 2015 7 "blg" "phot" w)
                 = Ok tt) by (vm_compute; reflexivity).
    rewrite Hrun in Hr. cbn in Hr. now subst r. }
  assert (H2 : save_one scenarios.online_grabber 2015 7 "blg" "params" wa
               = (wb, Raise (Exception
                    "url: /ogle/ogle4/ews/2015/blg-0007/params.dat is invalid"))).
  { unfold wb.
    destruct (save_one scenarios.online_grabber 2015 7 "blg" "params" wa)
      as [w' r] eqn:Hrun.
    assert (Hr : snd (save_one scenarios.online_grabber 2015 7 "blg" "params" wa)
                 = Raise (Exception
                    "url: /ogle/ogle4/ews/2015/blg-0007/params.dat is invalid"))
      by (vm_compute; reflexivity).
    rewrite Hrun in Hr. cbn in Hr. now subst r. }
  destruct (save_not_atomic scenarios.online_grabber 2015 7 "blg" w wa wb _
              ltac:(discriminate) H1 H2) as (Hsave & Hfile).
  exists wb. split; [exact Hsave|].
  apply (Hfile "/data/2015/blg-0007/phot.dat"). reflexivity.
Defined.

Lemma saved_documents_offline_witness :
  let w := scenarios.empty_cache (scenarios.steady scenarios.phot_lines) in
  let w1 := fst (save scenarios.online_grabber 2015 7 "blg" w) in
  exists p rdf c,
    cache_path scenarios.online_grabber 2015 7 "blg" "phot" = Some p
    /\ RemoteDatFile_init 2015 7 "blg" "phot" = Ok rdf
    /\ files w1 !! p = Some c
    /\ get_datfile scenarios.offline_grabber 2015 7 "blg" "phot" w1
       = (w1, Ok (mkDatFile (fileurl rdf) (strip c)))
    /\ (files w !! p = None ->
        exists k ls, server w k = Lines ls /\ strip c = strip (join_lines ls)).
Proof.
  intros w w1.
  apply (saved_documents_offline scenarios.online_grabber
           scenarios.offline_grabber 2015 7 "blg" w w1 "phot").
  - unfold w1.
    destruct (save scenarios.online_grabber 2015 7 "blg" w) as [w' r] eqn:Hrun.
    assert (Hr : snd (save scenarios.online_grabber 2015 7 "blg" w) = Ok tt)
      by (vm_compute; reflexivity).
    rewrite Hrun in Hr. cbn in Hr. now subst r.
  - reflexivity.
  - now left.
Defined.
End filegrabber_more.

(** ** More on the construction of an event *)

Module event_facts.

Import filegrabber filegrabber_facts filegrabber_more event.
Local Open Scope nat_scope.

Lemma FileGrabber_init_offline d w :
  exists r, FileGrabber_init d false w = (w, r).
Proof.
  unfold FileGrabber_init, mbind, __verify_datadir, ret.
  destruct d as [dir|]; [|eauto].
  destruct (isdir dir w); [|eauto]. destruct (endswith_slash dir); eauto.
Qed.

(** X9: the construction of an event never writes: whatever it is given
    and however it ends, also after a download, the files, the directories
    and the output are what they were.  Only [save] fills the cache. *)
Theorem Event_init_never_writes year n field fgrabber w w' r :
  Event_init year n field fgrabber w = (w', r) ->
  files w' = files w /\ dirs w' = dirs w /\ stdout w' = stdout w.
Proof.
  unfold Event_init, mbind, lift.
  destruct (padded_n n year) as [pn|e]; [|intros [= <- <-]; auto].
  assert (Hfg : exists r0, default_fgrabber fgrabber w = (w, r0)).
  { destruct fgrabber as [fg|]; cbn [default_fgrabber]; [unfold ret; eauto|].
    unfold mbind, gets. apply FileGrabber_init_offline. }
  destruct Hfg as (r0 & ->). destruct r0 as [fg|e]; [|intros [= <- <-]; auto].
  destruct (get_datfile fg year n field "phot" w) as [w1 [phot|e]] eqn:H1.
  - apply get_datfile_frame in H1 as (Hf1 & Hd1 & Ho1).
    destruct (get_datfile fg year n field "params" w1) as [w2 [params|e]]
      eqn:H2; apply get_datfile_frame in H2 as (Hf2 & Hd2 & Ho2);
      unfold ret; intros [= <- <-]; repeat split; congruence.
  - apply get_datfile_frame in H1. intros [= <- <-]. exact H1.
Qed.

(** A download that is not kept: the same files as before. *)
Lemma Event_init_never_writes_witness :
  files (fst (Event_init 2015 7 "blg" (Some scenarios.online_grabber)
                (scenarios.empty_cache (scenarios.steady scenarios.phot_lines))))
  = ∅.
Proof.
  destruct (Event_init 2015 7 "blg" (Some scenarios.online_grabber)
              (scenarios.empty_cache (scenarios.steady scenarios.phot_lines)))
    as [w' r] eqn:Hrun.
  destruct (Event_init_never_writes _ _ _ _ _ _ _ Hrun) as (Hfiles & _).
  exact Hfiles.
Defined.

End event_facts.

(** ** More on the light curve and the chi-square *)

Module calculations_more.

Import calculations calculations_facts.
Local Open Scope R_scope.

(** *** The shape of the model curve *)

(** X11: [mag] is symmetric about the time of the peak: at two times
    whose offsets from [t0] are opposite, the calls end in the same way,
    with the same magnitude or the same exception. *)
Theorem mag_symmetric (lc : Lightcurve) (t1 t2 : R) :
  t1 - t0 lc = - (t2 - t0 lc) ->
  mag lc t1 = mag lc t2.
Proof.
  intros Hopp. unfold mag, truediv at 1 3.
  destruct (Req_dec_T (tE lc) 0) as [Hz|Hnz]; [reflexivity|].
  cbn [Py.bind]. rewrite Hopp.
  replace (umin lc ^ 2 + (- (t2 - t0 lc) / tE lc) ^ 2)
    with (umin lc ^ 2 + ((t2 - t0 lc) / tE lc) ^ 2);
    [reflexivity|].
  f_equal. unfold Rdiv. simpl. ring.
Qed.

(** *** The statistic of a fit *)

Lemma round_half_even_nonneg x : 0 <= x -> (0 <= round_half_even x)%Z.
Proof.
  intros Hx. unfold round_half_even.
  pose proof (floor_spec x) as (Hlo & Hhi).
  assert (Hf : (0 <= floor x)%Z).
  { assert (H : (-1 < floor x)%Z) by (apply lt_IZR; lra). lia. }
  destruct (Rlt_dec (x - IZR (floor x)) (1 / 2)); [exact Hf|].
  destruct (Rlt_dec (1 / 2) (x - IZR (floor x))); [lia|].
  destruct (Z.even (floor x)); lia.
Qed.

Lemma round_nonneg x ndigits : 0 <= x -> 0 <= round x ndigits.
Proof.
  intros Hx. unfold round.
  assert (Hp : 0 < 10 ^ ndigits) by (apply pow_lt; lra).
  assert (Hz : (0 <= round_half_even (x * 10 ^ ndigits))%Z)
    by (apply round_half_even_nonneg; nra).
  apply IZR_le in Hz. unfold Rdiv.
  assert (0 < / 10 ^ ndigits) by now apply Rinv_0_lt_compat.
  nra.
Qed.

Lemma round_0 ndigits : round 0 ndigits = 0.
Proof.
  unfold round. rewrite Rmult_0_l. rewrite (round_half_even_IZR 0).
  unfold Rdiv. apply Rmult_0_l.
Qed.

(** The data lie on the model curve. *)
Definition on_model (model : R -> R) (datapoints : list (R * R * R)) : Prop :=
  Forall (fun dp => snd (fst dp) = model (fst (fst dp))) datapoints.

Lemma chi_sum_on_model model datapoints :
  on_model model datapoints -> chi_sum model datapoints = 0.
Proof.
  unfold on_model.
  induction datapoints as [|[[x Oi] sigma_i] rest IH]; intros Hall;
    [reflexivity|].
  apply Forall_cons in Hall as (Hx & Hall). cbn [fst snd] in Hx.
  cbn [chi_sum]. rewrite (IH Hall), Hx.
  unfold Rminus, Rdiv. rewrite Rplus_opp_r. simpl. ring.
Qed.

(** X15: with more observations than fitted parameters, on data of
    moderate size (uncertainties between 1e-50 and 1e50, residuals at most
    1e50), [reduced_chi_square] returns a finite value that is not
    negative, for either kind of scalar; it is exactly 0 when every
    observation lies on the model curve. *)
Theorem reduced_chi_square_of_fit k datapoints func model Nu :
  computes func model datapoints ->
  moderate model datapoints ->
  (Nu < Z.of_nat (length datapoints))%Z ->
  exists v,
    reduced_chi_square k datapoints func Nu = Ok (Fin v)
    /\ 0 <= v
    /\ (on_model model datapoints -> v = 0).
Proof.
  intros Hc Hm Hlt. pose proof (moderate_nonzero _ _ Hm) as Hs.
  exists (round (chi_sum model datapoints
                 / IZR (Z.of_nat (length datapoints) - Nu)) 3).
  split; [apply reduced_chi_square_value; [assumption | assumption | lia]|].
  assert (Hd : 0 < IZR (Z.of_nat (length datapoints) - Nu))
    by (apply IZR_lt; lia).
  split.
  - apply round_nonneg. pose proof (chi_sum_nonneg model datapoints).
    apply Rmult_le_pos; [assumption|]. left. now apply Rinv_0_lt_compat.
  - intros Hon. rewrite (chi_sum_on_model model datapoints Hon).
    unfold Rdiv. rewrite Rmult_0_l. apply round_0.
Qed.

(** *** One curve *)

(** Impact parameter 0.3, timescale 20 days, peak at 2457000, no blend. *)
Definition sample_curve : Lightcurve := mkLightcurve 15 0.3 20 2457000 1.

(** Two days before the peak and two days after it. *)
Lemma mag_symmetric_witness :
  mag sample_curve 2456998 = mag sample_curve 2457002.
Proof.
  apply (mag_symmetric sample_curve 2456998 2457002). cbn. lra.
Defined.

(** Two observations on the model curve, one fitted parameter. *)
Lemma reduced_chi_square_of_fit_witness :
  exists v,
    reduced_chi_square PythonFloat [(0, 3, 1); (1, 3, 2)] (fun _ => Ok 3) 1
    = Ok (Fin v)
    /\ 0 <= v
    /\ (on_model (fun _ => 3) [(0, 3, 1); (1, 3, 2)] -> v = 0).
Proof.
  apply (reduced_chi_square_of_fit PythonFloat [(0, 3, 1); (1, 3, 2)]
           (fun _ => Ok 3) (fun _ => 3) 1).
  - repeat constructor.
  - constructor; [|constructor; [|constructor]]; cbn [fst snd].
    + apply (moderate_small 0 3 1 (fun _ => 3)); [now left | lra].
    + apply (moderate_small 1 3 2 (fun _ => 3)); [now right | lra].
  - cbn. lia.
Defined.

End calculations_more.

(** ** More on the coordinates *)

Module coordinates_facts.

Import calculations calculations_facts coordinates.
Local Open Scope R_scope.

(** The number of separators in a text. *)
Fixpoint count (s : string) (sep : ascii) : nat :=
  match s with
  | EmptyString => 0
  | String c r => if Ascii.eqb c sep then S (count r sep) else count r sep
  end.

(** [split] gives one field more than there are separators. *)
Lemma length_split s sep : length (split s sep) = S (count s sep).
Proof.
  induction s as [|c r IH]; [reflexivity|].
  cbn [split count]. destruct (Ascii.eqb c sep).
  - cbn [length]. now rewrite IH.
  - destruct (split r sep) as [|h t]; [discriminate IH | exact IH].
Qed.

Lemma length_comprehension {A B} (f : A -> result B) l ys :
  comprehension f l = Ok ys -> length ys = length l.
Proof.
  revert ys. induction l as [|x l IH]; intros ys; cbn [comprehension].
  - now intros [= <-].
  - destruct (f x) as [y|e]; [|discriminate]. cbn [Py.bind].
    destruct (comprehension f l) as [zs|e]; [|discriminate].
    cbn [Py.bind]. intros [= <-]. cbn [length]. now rewrite (IH zs).
Qed.

(** X17: a text whose fields [float] accepts but which does not have
    exactly two colons makes [ra] and [dec] raise [ValueError], the one of
    the unpacking into three names. *)
Theorem coordinates_need_two_colons float ts :
  count ts ":" <> 2%nat ->
  Forall (fun field => exists x, float field = Ok x) (split ts ":") ->
  exists msg,
    ra float ts = Raise (ValueError msg)
    /\ dec float ts = Raise (ValueError msg).
Proof.
  intros Hcount Hfloat.
  assert (Hparts : exists parts,
             comprehension float (split ts ":") = Ok parts).
  { induction (split ts ":") as [|f l IH]; [now exists []|].
    apply Forall_cons in Hfloat as ((x & Hx) & Hrest).
    destruct (IH Hrest) as (parts & Hparts). exists (x :: parts).
    cbn [comprehension]. now rewrite Hx, Hparts. }
  destruct Hparts as (parts & Hparts).
  pose proof (length_comprehension _ _ _ Hparts) as Hlen.
  rewrite length_split in Hlen.
  assert (Hun : exists msg, unpack3 float ts = Raise (ValueError msg)).
  { unfold unpack3. rewrite Hparts. cbn [Py.bind].
    destruct parts as [|p1 [|p2 [|p3 [|p4 rest]]]]; cbn [length] in *;
      try (eexists; reflexivity).
    exfalso. apply Hcount. lia. }
  destruct Hun as (msg & Hun). exists msg.
  unfold ra, dec. rewrite Hun. split; reflexivity.
Qed.

(** *** One declination *)

(** [float] on the fields of the texts below. *)
Definition float_of_fields (s : string) : result R :=
  if String.eqb s "-29" then Ok (-29)
  else if String.eqb s "30" then Ok 30
  else if String.eqb s "00" then Ok 0
  else if String.eqb s "17" then Ok 17
  else Raise (ValueError "could not convert string to float").

(** Hours and minutes without seconds. *)
Lemma coordinates_need_two_colons_witness :
  exists msg,
    ra float_of_fields "17:30" = Raise (ValueError msg)
    /\ dec float_of_fields "17:30" = Raise (ValueError msg).
Proof.
  apply (coordinates_need_two_colons float_of_fields "17:30").
  - cbn. lia.
  - repeat constructor; eexists; reflexivity.
Defined.

End coordinates_facts.

(** ** More on the photometry *)

Module event_data_facts.

Import calculations calculations_facts event_data.
Local Open Scope R_scope.

(** The rows of the photometry file, and their columns. *)
Definition columns (rows : list (R * R * R)) : list R * list R * list R :=
  (map (fun r => fst (fst r)) rows, map (fun r => snd (fst r)) rows,
   map snd rows).

(** A row with a measured magnitude: placeholders are 25 and above. *)
Definition measured (r : R * R * R) : bool := Rltb (snd (fst r)) 25.

(** The row with the floor [sigmamin] added in quadrature. *)
Definition corrected (sigmamin : R) (r : R * R * R) : R * R * R :=
  (fst (fst r), snd (fst r), sqrt (snd r ^ 2 + sigmamin ^ 2)).

Lemma getitem_middle {A} (pre post : list A) (x : A) (i : nat) :
  i = length pre -> periodogram.getitem (pre ++ x :: post) i = Ok x.
Proof.
  intros ->. unfold periodogram.getitem.
  now rewrite list_lookup_middle by reflexivity.
Qed.

(** Fancy indexing with the indices of a mask keeps the masked rows. *)
Lemma take_where_rows {B} (f : R * R * R -> B) (rows pre : list (R * R * R)) :
  periodogram.take (map f (pre ++ rows))
    (periodogram.where_from (length pre) (map measured rows))
  = Ok (map f (List.filter measured rows)).
Proof.
  revert pre. induction rows as [|r rows IH]; intros pre; [reflexivity|].
  cbn [map periodogram.where_from List.filter].
  assert (Hstep : periodogram.take (map f (pre ++ r :: rows))
                    (periodogram.where_from (S (length pre))
                       (map measured rows))
                  = Ok (map f (List.filter measured rows))).
  { specialize (IH (pre ++ [r])).
    rewrite <- app_assoc, length_app, Nat.add_1_r in IH. exact IH. }
  destruct (measured r); [|exact Hstep].
  cbn [periodogram.take map]. rewrite Hstep.
  rewrite map_app. cbn [map].
  rewrite getitem_middle by now rewrite length_map.
  reflexivity.
Qed.

Lemma take_measured {B} (f : R * R * R -> B) (rows : list (R * R * R)) :
  periodogram.take (map f rows)
    (periodogram.where_from 0 (map measured rows))
  = Ok (map f (List.filter measured rows)).
Proof. exact (take_where_rows f rows []). Qed.

(** Reading three columns back row by row gives the rows. *)
Lemma rows_of_columns {A} (c1 c2 c3 : A -> R) (l pre : list A) :
  comprehension
    (fun i : nat =>
       Py.bind (periodogram.getitem (map c1 (pre ++ l)) i) (fun ti =>
       Py.bind (periodogram.getitem (map c2 (pre ++ l)) i) (fun Ii =>
       Py.bind (periodogram.getitem (map c3 (pre ++ l)) i) (fun ei =>
       Ok (ti, Ii, ei)))))
    (seq (length pre) (length l))
  = Ok (map (fun r => (c1 r, c2 r, c3 r)) l).
Proof.
  revert pre. induction l as [|x l IH]; intros pre; [reflexivity|].
  cbn [length seq comprehension map].
  rewrite !map_app. cbn [map].
  rewrite !(getitem_middle _ _ _ (length pre)) by now rewrite length_map.
  cbn [Py.bind].
  specialize (IH (pre ++ [x])).
  rewrite <- !app_assoc, length_app, Nat.add_1_r in IH. cbn [app] in IH.
  rewrite !map_app in IH. cbn [map] in IH.
  rewrite IH. reflexivity.
Qed.

(** [data] on the columns of a table keeps the measured rows. *)
Lemma data_rows sigmamin rows :
  data sigmamin (columns rows) true
  = Ok (columns (map (corrected sigmamin) (List.filter measured rows))).
Proof.
  unfold data, columns, periodogram.where_.
  rewrite map_map.
  change (map (fun x => Rltb (snd (fst x)) 25) rows) with (map measured rows).
  rewrite !take_measured. cbn [Py.bind]. rewrite !map_map. reflexivity.
Qed.

Lemma datapoints_of_rows sigmamin rows :
  datapoints sigmamin (columns rows)
  = Ok (map (corrected sigmamin) (List.filter measured rows)).
Proof.
  unfold datapoints. rewrite data_rows. cbn [Py.bind columns].
  rewrite length_map.
  pose proof (rows_of_columns (fun r : R * R * R => fst (fst r))
                (fun r => snd (fst r)) snd
                (map (corrected sigmamin) (List.filter measured rows)) [])
    as Hrows.
  cbn [app length] in Hrows. rewrite Hrows.
  f_equal.
  transitivity (map (fun r : R * R * R => r)
                  (map (corrected sigmamin) (List.filter measured rows)));
    [apply map_ext; now intros [[t m] e] | apply map_id].
Qed.

(** A number that is zero, or whose square neither underflows to zero
    nor overflows in floating point: between 1e-150 and 1e150 in size. *)
Definition squarable (x : R) : Prop := x = 0 \/ in_range 150 (Rabs x).

(** X18: on a table of two rows or more (the tables that [np.loadtxt]
    delivers as one-dimensional columns) with uncertainties and floor that
    are zero or between 1e-150 and 1e150 in size, [datapoints] returns, in
    the order of the file, the rows whose magnitude is under 25, each with
    the square root of its squared uncertainty plus the squared [sigmamin]
    as uncertainty; time and magnitude are those of the row, and without
    cleansing [data] hands the columns back as they are. *)
Theorem datapoints_rows sigmamin rows :
  (2 <= length rows)%nat ->
  squarable sigmamin ->
  Forall (fun r => squarable (snd r)) rows ->
  datapoints sigmamin (columns rows)
  = Ok (map (corrected sigmamin) (List.filter measured rows))
  /\ data sigmamin (columns rows) true
     = Ok (columns (map (corrected sigmamin) (List.filter measured rows)))
  /\ data sigmamin (columns rows) false = Ok (columns rows).
Proof.
  intros _ _ _.
  split; [apply datapoints_of_rows|]. split; [apply data_rows | reflexivity].
Qed.

Lemma measured_lt r : measured r = true -> snd (fst r) < 25.
Proof.
  unfold measured, Rltb. destruct (Rlt_dec (snd (fst r)) 25); [auto|discriminate].
Qed.

(** The corrected uncertainty is at least the floor and at least the
    size of the one of the file. *)
Lemma corrected_bounds sigmamin e :
  Rabs sigmamin <= sqrt (e ^ 2 + sigmamin ^ 2)
  /\ Rabs e <= sqrt (e ^ 2 + sigmamin ^ 2).
Proof.
  pose proof (pow2_ge_0 e). pose proof (pow2_ge_0 sigmamin).
  split.
  - rewrite <- sqrt_Rsqr_abs. apply sqrt_le_1_alt. unfold Rsqr. simpl in *. lra.
  - rewrite <- sqrt_Rsqr_abs. apply sqrt_le_1_alt. unfold Rsqr. simpl in *. lra.
Qed.

(** What [datapoints] keeps: measured magnitudes and uncertainties that
    are not under the floor. *)
Lemma cleansed_bounds sigmamin rows :
  Forall (fun dp => snd (fst dp) < 25 /\ Rabs sigmamin <= snd dp)
    (map (corrected sigmamin) (List.filter measured rows)).
Proof.
  apply Forall_forall. intros dp Hdp.
  apply list_elem_of_fmap in Hdp as (r & -> & Hr).
  apply list_elem_of_In, filter_In in Hr as (_ & Hm).
  cbn [corrected fst snd]. split; [now apply measured_lt|].
  apply corrected_bounds.
Qed.

(** A measured row without uncertainty stays without one when the floor
    is zero. *)
Lemma zero_floor_keeps_zero rows :
  Exists (fun r => measured r = true /\ snd r = 0) rows ->
  some_zero_sigma (map (corrected 0) (List.filter measured rows)).
Proof.
  unfold some_zero_sigma. rewrite !Exists_exists.
  intros (r & Hin & Hm & Hz).
  exists (corrected 0 r). split.
  - apply list_elem_of_fmap_2. apply list_elem_of_In, filter_In.
    split; [now apply list_elem_of_In | exact Hm].
  - cbn [corrected snd]. rewrite Hz.
    replace (0 ^ 2 + 0 ^ 2) with 0 by (simpl; ring). apply sqrt_0.
Qed.

(** X19: the floor [sigmamin] decides whether the statistic of the event
    can leave the finite range.  Every data point of [datapoints] has a
    magnitude under 25.  With a floor between 1e-50 and 1e50 in size, and
    uncertainties and residuals of at most 1e50, every uncertainty of
    [datapoints] is at least the floor, and [reduced_chi_square] on these
    NumPy scalars returns a finite value whenever the count differs from
    the degrees of freedom.  With the default floor 0 a measured row whose
    uncertainty is 0 goes through unchanged, and the statistic is an
    infinity or a NaN. *)
Theorem quadrature_floor sigmamin rows dps func model Nu :
  (2 <= length rows)%nat ->
  datapoints sigmamin (columns rows) = Ok dps ->
  computes func model dps ->
  Forall (fun dp => snd (fst dp) < 25) dps
  /\ (in_range 50 (Rabs sigmamin) ->
      Forall (fun dp => snd dp <= 10 ^ 50
                        /\ Rabs (snd (fst dp) - model (fst (fst dp)))
                           <= 10 ^ 50) dps ->
      Forall (fun dp => Rabs sigmamin <= snd dp) dps
      /\ (Z.of_nat (length dps) <> Nu ->
          exists v,
            reduced_chi_square NumpyFloat64 dps func Nu = Ok (Fin v)))
  /\ (sigmamin = 0 ->
      Exists (fun r => measured r = true /\ snd r = 0) rows ->
      exists v,
        reduced_chi_square NumpyFloat64 dps func Nu = Ok v /\ nonfinite v).
Proof.
  intros _. rewrite datapoints_of_rows. intros [= <-] Hc.
  pose proof (cleansed_bounds sigmamin rows) as Hb.
  split; [eapply Forall_impl; [exact Hb|]; now intros dp (Hlt & _)|].
  split.
  - intros Hfloor Hsize.
    assert (Hge : Forall (fun dp => Rabs sigmamin <= snd dp)
                    (map (corrected sigmamin) (List.filter measured rows)))
      by (eapply Forall_impl; [exact Hb|]; now intros dp (_ & Hle)).
    split; [exact Hge|]. intros Hn. eexists.
    apply (reduced_chi_square_value NumpyFloat64 _ func model Nu Hc);
      [|exact Hn].
    apply (moderate_nonzero model). unfold moderate.
    rewrite Forall_forall in Hge, Hsize. apply Forall_forall.
    intros dp Hdp. specialize (Hge dp Hdp). specialize (Hsize dp Hdp).
    destruct Hsize as (Hhi & Hres). destruct Hfloor as (Hlow & _).
    cbv beta in Hge, Hhi.
    pose proof (Rabs_pos sigmamin) as Hpos.
    split; [|exact Hres]. unfold in_range.
    rewrite (Rabs_pos_eq (snd dp)) by lra. lra.
  - intros -> Hex.
    pose proof (zero_floor_keeps_zero rows Hex) as Hz.
    set (dps := map (corrected 0) (List.filter measured rows)) in *.
    unfold reduced_chi_square.
    destruct (chi_loop_numpy func model dps (Fin 0) Hc)
      as (r & Hr & Hninf & Hnf); [discriminate|].
    rewrite Hr. cbn [Py.bind is_numpy].
    assert (Hlen : Nat.eqb (length dps) 0 = false).
    { destruct dps; [inversion Hz | reflexivity]. }
    rewrite Hlen. cbn [negb andb]. unfold xtruediv.
    destruct (Hnf (or_intror Hz)) as [-> | [-> | ->]]; [|congruence|].
    + destruct (Req_dec_T (IZR (Z.of_nat (length dps) - Nu)) 0).
      * exists PInf. split; [reflexivity | unfold nonfinite; tauto].
      * cbn [Py.bind xdiv_by].
        destruct (Rlt_dec 0 (IZR (Z.of_nat (length dps) - Nu)));
          eexists; (split; [reflexivity | unfold nonfinite; tauto]).
    + destruct (Req_dec_T (IZR (Z.of_nat (length dps) - Nu)) 0);
        exists NaN; (split; [reflexivity | unfold nonfinite; tauto]).
Qed.

(** *** A table of two rows *)

Lemma measured_15 t e : measured (t, 15, e) = true.
Proof.
  unfold measured, Rltb. cbn [fst snd].
  destruct (Rlt_dec 15 25); [reflexivity | lra].
Qed.

Lemma measured_30 t e : measured (t, 30, e) = false.
Proof.
  unfold measured, Rltb. cbn [fst snd].
  destruct (Rlt_dec 30 25); [lra | reflexivity].
Qed.

Lemma squarable_1 : squarable 1.
Proof.
  right. unfold in_range. rewrite Rabs_pos_eq by lra.
  pose proof (pow10_ge_1 150). pose proof (inv_pow10_le_1 150). lra.
Qed.

(** A measurement and a placeholder: the placeholder is dropped. *)
Lemma datapoints_rows_witness :
  datapoints 0 (columns [(0, 15, 1); (1, 30, 1)])
  = Ok [(0, 15, sqrt (1 ^ 2 + 0 ^ 2))].
Proof.
  destruct (datapoints_rows 0 [(0, 15, 1); (1, 30, 1)]) as (Hdp & _).
  - cbn. lia.
  - now left.
  - constructor; [|constructor; [|constructor]]; apply squarable_1.
  - rewrite Hdp. cbn [List.filter]. rewrite measured_15, measured_30.
    reflexivity.
Defined.

(** A measurement without uncertainty and a placeholder, with the floor
    1 and with the floor 0. *)
Lemma quadrature_floor_witness :
  (exists v,
     reduced_chi_square NumpyFloat64 [corrected 1 (0, 15, 0)] (fun _ => Ok 0) 0
     = Ok (Fin v))
  /\ (exists v,
        reduced_chi_square NumpyFloat64 [corrected 0 (0, 15, 0)]
          (fun _ => Ok 0) 0
        = Ok v /\ nonfinite v).
Proof.
  assert (Hdps : forall s,
             datapoints s (columns [(0, 15, 0); (1, 30, 0)])
             = Ok [corrected s (0, 15, 0)]).
  { intros s. rewrite datapoints_of_rows. cbn [List.filter].
    rewrite measured_15, measured_30. reflexivity. }
  split.
  - destruct (quadrature_floor 1 [(0, 15, 0); (1, 30, 0)]
                [corrected 1 (0, 15, 0)] (fun _ => Ok 0) (fun _ => 0) 0)
      as (_ & Hfin & _).
    + cbn. lia.
    + apply Hdps.
    + repeat constructor.
    + destruct Hfin as (_ & Hfin).
      * unfold in_range. rewrite Rabs_pos_eq by lra.
        pose proof (pow10_ge_1 50). pose proof (inv_pow10_le_1 50). lra.
      * constructor; [|constructor]. cbn [corrected fst snd].
        replace (0 ^ 2 + 1 ^ 2) with 1 by (simpl; lra). rewrite sqrt_1.
        pose proof (pow10_ge_10 49). rewrite Rabs_pos_eq by lra. lra.
      * apply Hfin. cbn. lia.
  - destruct (quadrature_floor 0 [(0, 15, 0); (1, 30, 0)]
                [corrected 0 (0, 15, 0)] (fun _ => Ok 0) (fun _ => 0) 0)
      as (_ & _ & Hinf).
    + cbn. lia.
    + apply Hdps.
    + repeat constructor.
    + apply Hinf; [reflexivity|].
      constructor. split; [apply measured_15 | reflexivity].
Defined.

End event_data_facts.

(** ** More on the periodogram *)

Module periodogram_more.

Import periodogram periodogram_facts.
Local Open Scope Q_scope.

(** *** Masks and maxima *)

Lemma elem_of_where_from mask :
  forall i k, k ∈ where_from i mask <->
              (i <= k)%nat /\ mask !! (k - i)%nat = Some true.
Proof.
  induction mask as [|b mask IH]; intros i k; cbn [where_from].
  - split; [intros H; inversion H | intros (_ & H); discriminate].
  - assert (Hrest : k ∈ where_from (S i) mask <->
                    (i < k)%nat /\ (b :: mask) !! (k - i)%nat = Some true).
    { rewrite IH. split; intros (Hle & Hk); (split; [lia|]).
      - replace (k - i)%nat with (S (k - S i)) by lia. exact Hk.
      - replace (k - i)%nat with (S (k - S i)) in Hk by lia. exact Hk. }
    destruct b.
    + rewrite elem_of_cons, Hrest. split.
      * intros [-> | (Hlt & Hk)].
        -- split; [lia|]. now rewrite Nat.sub_diag.
        -- split; [lia | exact Hk].
      * intros (Hle & Hk). destruct (Nat.eq_dec k i) as [->|Hne];
          [now left | right; split; [lia | exact Hk]].
    + rewrite Hrest. split.
      * intros (Hlt & Hk). split; [lia | exact Hk].
      * intros (Hle & Hk). split; [|exact Hk].
        destruct (Nat.eq_dec k i) as [->|Hne]; [|lia].
        rewrite Nat.sub_diag in Hk. discriminate.
Qed.

(** The indices of [np.where] are the ones where the mask holds. *)
Lemma elem_of_where mask k : k ∈ where_ mask <-> mask !! k = Some true.
Proof.
  unfold where_. rewrite elem_of_where_from, Nat.sub_0_r.
  split; [now intros (_ & H) | intros H; split; [lia | exact H]].
Qed.

Lemma fold_left_Qmax_upper (a : list Q) :
  forall x, x <= fold_left Qmax a x
            /\ Forall (fun y => y <= fold_left Qmax a x) a.
Proof.
  induction a as [|y a IH]; intros x; cbn [fold_left].
  - split; [apply Qle_refl | constructor].
  - destruct (IH (Qmax x y)) as (Hacc & Hall).
    pose proof (Q.le_max_l x y) as Hl. pose proof (Q.le_max_r x y) as Hr.
    split; [eapply Qle_trans; eassumption|].
    constructor; [eapply Qle_trans; eassumption | exact Hall].
Qed.

(** [np.max] is an upper bound of the array. *)
Lemma np_max_upper (a : list Q) m :
  np_max a = Ok m -> Forall (fun y => y <= m) a.
Proof.
  destruct a as [|x a]; [discriminate|]. cbn. intros [= <-].
  destruct (fold_left_Qmax_upper a x) as (Hx & Hall).
  constructor; assumption.
Qed.

(** [analyse] on a spectrum of the size of the grid with powers that are
    not negative: the values of the locals. *)
Lemma analyse_value (freq power : list Q) :
  length power = length freq ->
  where_ (band_mask freq) <> [] ->
  Forall (fun x => 0 <= x) power ->
  exists m top p q,
    np_max (map (at_ power) (where_ (band_mask freq))) = Ok m
    /\ np_max power = Ok top
    /\ first_index power m = Some p
    /\ first_index power top = Some q
    /\ lockstep_walk power freq m p
    /\ analyse freq power
       = Ok (mkLocals freq power m (at_ freq q)
               (np_mean (map (at_ power) (where_ (near365_mask freq))))
               (fwhm_spec power freq m p)).
Proof.
  intros Hpow Hband Hpos.
  destruct (analyse_returns freq power Hpow Hband)
    as (m & top & p & q & Hm & Htop & Hp & Hq & Hin & Hrun).
  assert (Hm0 : 0 <= m) by (rewrite Forall_forall in Hpos; now apply Hpos).
  pose proof (getfwhm_lockstep power freq m p (eq_sym Hpow) Hm0 Hp) as Hwalk.
  pose proof Hwalk as (Hval & _).
  rewrite Hval in Hrun. cbn [Py.bind] in Hrun.
  exists m, top, p, q. repeat (split; [assumption|]). exact Hrun.
Qed.


(** *** The grid of [pgram] *)

(** The indices of a mask that holds on one interval. *)
Lemma where_from_app i (m1 m2 : list bool) :
  where_from i (m1 ++ m2)
  = where_from i m1 ++ where_from (i + length m1) m2.
Proof.
  revert i. induction m1 as [|b m1 IH]; intros i; cbn [app where_from length].
  - now rewrite Nat.add_0_r.
  - rewrite IH. replace (S i + length m1)%nat with (i + S (length m1))%nat by lia.
    destruct b; reflexivity.
Qed.

Lemma where_from_false (h : nat -> bool) i n :
  (forall k, (i <= k < i + n)%nat -> h k = false) ->
  where_from i (map h (seq i n)) = [].
Proof.
  revert i. induction n as [|n IH]; intros i Hh; [reflexivity|].
  cbn [seq map where_from]. rewrite (Hh i) by lia.
  apply IH. intros k Hk. apply Hh. lia.
Qed.

Lemma where_from_true (h : nat -> bool) i n :
  (forall k, (i <= k < i + n)%nat -> h k = true) ->
  where_from i (map h (seq i n)) = seq i n.
Proof.
  revert i. induction n as [|n IH]; intros i Hh; [reflexivity|].
  cbn [seq map where_from]. rewrite (Hh i) by lia.
  f_equal. apply IH. intros k Hk. apply Hh. lia.
Qed.

Lemma where_interval (h : nat -> bool) (a b n : nat) :
  (a <= b <= n)%nat ->
  (forall k, (k < n)%nat -> h k = (a <=? k)%nat && (k <? b)%nat) ->
  where_ (map h (seq 0 n)) = seq a (b - a).
Proof.
  intros Hab Hh. unfold where_.
  replace n with (a + ((b - a) + (n - b)))%nat at 1 by lia.
  rewrite !seq_app, !map_app, !where_from_app, !length_map, !length_seq.
  cbn [Nat.add].
  rewrite where_from_false, where_from_true, where_from_false.
  - now rewrite app_nil_r.
  - intros k Hk. rewrite Hh by lia.
    destruct (Nat.ltb_spec k b); [lia|]. apply andb_false_r.
  - intros k Hk. rewrite Hh by lia.
    destruct (Nat.leb_spec a k); [|lia]. destruct (Nat.ltb_spec k b); [|lia].
    reflexivity.
  - intros k Hk. rewrite Hh by lia.
    destruct (Nat.leb_spec a k); [lia|]. reflexivity.
Qed.

Lemma Qltb_iff x y : Qltb x y = true <-> x < y.
Proof.
  split; [apply Qltb_true|]. intros Hlt. unfold Qltb.
  destruct (Qle_bool y x) eqn:Hle; [|reflexivity].
  apply Qle_bool_iff in Hle. exfalso. now apply (Qlt_not_le _ _ Hlt).
Qed.

(** The spacing of the grid: 0.0299 / 9999. *)
Definition grid_step : Q := 299 # 99990000.

(** [np.linspace] is equally spaced. *)
Lemma linspace_at start stop num k :
  (k < num)%nat ->
  at_ (linspace start stop num) k
  == start + inject_Z (Z.of_nat k)
             * ((stop - start) / inject_Z (Z.of_nat num - 1)).
Proof.
  intros Hk. unfold at_, linspace.
  rewrite list_lookup_fmap, lookup_seq_lt by exact Hk.
  cbn. apply Qred_correct.
Qed.

Lemma freq_grid_at k :
  (k < grid_size)%nat ->
  at_ freq_grid k == (1 # 10000) + inject_Z (Z.of_nat k) * grid_step.
Proof.
  intros Hk. unfold freq_grid. rewrite (linspace_at _ _ _ _ Hk).
  apply Qplus_comp; [reflexivity|]. apply Qmult_comp; [reflexivity|].
  vm_compute. reflexivity.
Qed.

(** The distance of two grid frequencies. *)
Lemma freq_grid_distance lo hi :
  (lo < grid_size)%nat -> (hi < grid_size)%nat ->
  at_ freq_grid hi - at_ freq_grid lo
  == inject_Z (Z.of_nat hi - Z.of_nat lo) * grid_step.
Proof.
  intros Hlo Hhi. rewrite (freq_grid_at lo Hlo), (freq_grid_at hi Hhi).
  unfold Zminus. rewrite inject_Z_plus, inject_Z_opp. ring.
Qed.

(** The grid as a function of the index. *)
Definition grid_point (i : nat) : Q :=
  Qred ((1 # 10000)
        + inject_Z (Z.of_nat i)
          * (((3 # 100) - (1 # 10000)) / inject_Z (Z.of_nat grid_size - 1))).

Lemma freq_grid_points : freq_grid = map grid_point (seq 0 grid_size).
Proof.
  unfold freq_grid, linspace. cbv zeta. apply map_ext. intros i.
  unfold grid_point. reflexivity.
Qed.

Lemma grid_point_value i :
  grid_point i == (1 # 10000) + inject_Z (Z.of_nat i) * grid_step.
Proof.
  unfold grid_point. rewrite Qred_correct.
  apply Qplus_comp; [reflexivity|].
  apply Qmult_comp; [reflexivity|]. vm_compute. reflexivity.
Qed.

(** The first grid index above the floor 0.01, and the number of grid
    frequencies above it. *)
Definition band_start : nat := Z.to_nat 3311.
Definition band_size : nat := Z.to_nat 6689.

Lemma grid_point_in_band k :
  Qltb (1 # 100) (grid_point k) = (band_start <=? k)%nat.
Proof.
  apply Bool.eq_iff_eq_true. rewrite Qltb_iff, Nat.leb_le, grid_point_value.
  unfold band_start, grid_step, Qlt, Qplus, Qmult, inject_Z.
  cbn [Qnum Qden]. lia.
Qed.

(** The grid frequencies above the floor are the ones from index 3311 on. *)
Lemma band_indices : where_ (band_mask freq_grid) = seq band_start band_size.
Proof.
  unfold band_mask. rewrite freq_grid_points, map_map.
  rewrite (where_interval _ band_start grid_size grid_size).
  - f_equal.
  - unfold band_start, grid_size. lia.
  - intros k Hk. rewrite grid_point_in_band.
    destruct (Nat.ltb_spec k grid_size); [|lia]. now rewrite andb_true_r.
Qed.




Lemma in_band k :
  band_mask freq_grid !! k = Some true
  <-> (3311 <= Z.of_nat k < 10000)%Z.
Proof.
  rewrite <- elem_of_where, band_indices, elem_of_seq.
  unfold band_start, band_size. lia.
Qed.

(** The spectrum [pgram] works on: the one of the shifted times. *)
Definition spectrum (lombscargle : list Q -> list Q -> list Q -> list Q)
    (tdata Idata : list Q) : list Q :=
  lombscargle (map (fun t => t - 2450000) tdata) Idata freq_grid.

(** What [scipy.signal.lombscargle] delivers: one power for each
    frequency, none of them negative. *)
Definition periodogram_like
    (lombscargle : list Q -> list Q -> list Q -> list Q) : Prop :=
  (forall t y f, length (lombscargle t y f) = length f)
  /\ (forall t y f, Forall (fun x => 0 <= x) (lombscargle t y f)).

(** The locals of [pgram] on the spectrum of the series. *)
Lemma pgram_locals_value lombscargle tdata Idata :
  periodogram_like lombscargle ->
  let power := spectrum lombscargle tdata Idata in
  exists m top p q,
    np_max (map (at_ power) (where_ (band_mask freq_grid))) = Ok m
    /\ np_max power = Ok top
    /\ first_index power m = Some p
    /\ first_index power top = Some q
    /\ lockstep_walk power freq_grid m p
    /\ pgram_locals lombscargle tdata Idata
       = Ok (mkLocals freq_grid power m (at_ freq_grid q)
               (np_mean (map (at_ power) (where_ (near365_mask freq_grid))))
               (fwhm_spec power freq_grid m p)).
Proof.
  intros (Hlen & Hpos) power.
  rewrite pgram_locals_analyse. fold (spectrum lombscargle tdata Idata).
  fold power.
  apply analyse_value; [apply Hlen | apply band_nonempty | apply Hpos].
Qed.

Lemma length_spectrum lombscargle tdata Idata :
  periodogram_like lombscargle ->
  length (spectrum lombscargle tdata Idata) = grid_size.
Proof.
  intros (Hlen & _). unfold spectrum. rewrite Hlen. apply length_freq_grid.
Qed.

(** *** The peak *)




(** *** The width *)

(** X22: the width of [getfwhm] is a whole number of grid steps: zero when
    a boundary is missing, otherwise the number of steps from the lower to
    the upper boundary, at least two, times the spacing 0.0299 / 9999 of
    the grid.  It is never negative. *)
Theorem fwhm_whole_grid_steps lombscargle tdata Idata :
  periodogram_like lombscargle ->
  let power := spectrum lombscargle tdata Idata in
  exists l p,
    pgram_locals lombscargle tdata Idata = Ok l
    /\ first_index power (l_maxpgram l) = Some p
    /\ 0 <= l_fwhm l
    /\ (lower_boundary power (l_maxpgram l) p = None
        \/ upper_boundary power (l_maxpgram l) p = None -> l_fwhm l = 0)
    /\ (forall lo hi,
          lower_boundary power (l_maxpgram l) p = Some lo ->
          upper_boundary power (l_maxpgram l) p = Some hi ->
          (lo + 2 <= hi)%nat
          /\ l_fwhm l == inject_Z (Z.of_nat hi - Z.of_nat lo) * grid_step
          /\ 2 * grid_step <= l_fwhm l).
Proof.
  intros Hlike power.
  destruct (pgram_locals_value lombscargle tdata Idata Hlike)
    as (m & top & p & q & Hm & Htop & Hp & Hq & Hwalk & Hrun).
  fold power in Hm, Htop, Hp, Hq, Hwalk, Hrun.
  pose proof (length_spectrum lombscargle tdata Idata Hlike) as Hsize.
  fold power in Hsize.
  destruct Hwalk as (_ & _ & _ & Hlo & Hhi & _).
  assert (Hsteps : forall lo hi,
            lower_boundary power m p = Some lo ->
            upper_boundary power m p = Some hi ->
            (lo + 2 <= hi)%nat
            /\ fwhm_spec power freq_grid m p
               == inject_Z (Z.of_nat hi - Z.of_nat lo) * grid_step
            /\ 2 * grid_step <= fwhm_spec power freq_grid m p).
  { intros lo hi Hl Hh.
    destruct (Hlo lo Hl) as (Hlp & _). destruct (Hhi hi Hh) as (Hph & Hbound & _).
    assert (Hhi_lt : (hi < grid_size)%nat).
    { unfold rounds_left in Hbound. rewrite Hsize in Hbound. lia. }
    assert (Hval : fwhm_spec power freq_grid m p
                   == inject_Z (Z.of_nat hi - Z.of_nat lo) * grid_step).
    { unfold fwhm_spec. rewrite Hl, Hh.
      apply freq_grid_distance; [lia | exact Hhi_lt]. }
    split; [lia|]. split; [exact Hval|]. rewrite Hval.
    apply Qmult_le_compat_r; [|discriminate].
    change 2 with (inject_Z 2). rewrite <- Zle_Qle. lia. }
  eexists _, p. split; [exact Hrun|]. cbn [l_maxpgram l_fwhm].
  split; [exact Hp|]. split; [|split; [|exact Hsteps]].
  - destruct (lower_boundary power m p) as [lo|] eqn:Hl;
      destruct (upper_boundary power m p) as [hi|] eqn:Hh;
      try (unfold fwhm_spec; rewrite Hl, ?Hh; apply Qle_refl).
    destruct (Hsteps lo hi eq_refl eq_refl) as (_ & _ & Hge).
    eapply Qle_trans; [|exact Hge]. discriminate.
  - intros Hmiss. unfold fwhm_spec.
    destruct Hmiss as [-> | ->]; [reflexivity|].
    destruct (lower_boundary power m p); reflexivity.
Qed.

(** *** The power near one year *)


(** *** The flat spectrum *)






End periodogram_more.

(** ** The periodogram on a spectrum that may hold NaN *)

Module periodogram_nan_facts.

Import periodogram periodogram_facts periodogram_nan.
Local Open Scope Q_scope.

(** Indexing inside the array returns. *)
Lemma take_returns {A} (a : list A) (indices : list nat) :
  Forall (fun i => (i < length a)%nat) indices ->
  exists xs, take a indices = Ok xs /\ length xs = length indices.
Proof.
  induction indices as [|i rest IH]; intros Hin; [now exists []|].
  apply Forall_cons in Hin as (Hi & Hrest).
  destruct (IH Hrest) as (xs & Hxs & Hlen).
  destruct (lookup_lt_is_Some_2 a i Hi) as (x & Hx).
  exists (x :: xs). split; [|cbn; now rewrite Hlen].
  cbn [take]. unfold getitem. rewrite Hx. cbn [Py.bind]. now rewrite Hxs.
Qed.

Lemma take_where_returns {A} (a : list A) (mask : list bool) :
  (length mask <= length a)%nat ->
  exists xs, take a (where_ mask) = Ok xs
             /\ length xs = length (where_ mask).
Proof.
  intros Hlen. apply take_returns. apply Forall_forall. intros i Hi.
  apply where_bound in Hi. lia.
Qed.

Lemma pmax_NaN_l y : pmax NaN y = NaN.
Proof. reflexivity. Qed.

Lemma fold_left_pmax_NaN (a : list power) : fold_left pmax a NaN = NaN.
Proof. induction a as [|y a IH]; [reflexivity | exact IH]. Qed.

(** The maximum of an array that holds a NaN is NaN. *)
Lemma fold_left_pmax_holds_NaN (a : list power) (x : power) :
  NaN ∈ x :: a -> fold_left pmax a x = NaN.
Proof.
  revert x. induction a as [|y a IH]; intros x Hin.
  - apply list_elem_of_singleton in Hin. now subst.
  - cbn [fold_left]. apply elem_of_cons in Hin as [<- | Hin].
    + apply fold_left_pmax_NaN.
    + apply IH. apply elem_of_cons in Hin as [<- | Hin].
      * destruct x; left.
      * now right.
Qed.

Lemma np_max_holds_NaN (a : list power) :
  NaN ∈ a -> np_max a = Ok NaN.
Proof.
  destruct a as [|x a]; [intros H; inversion H|].
  intros Hin. cbn [np_max]. now rewrite fold_left_pmax_holds_NaN.
Qed.

Lemma np_max_of_some (a : list power) :
  a <> [] -> exists m, np_max a = Ok m.
Proof. destruct a; [congruence | cbn; eauto]. Qed.

(** No index passes a mask that holds nowhere. *)
Lemma where_from_nowhere (mask : list bool) i :
  Forall (fun b => b = false) mask -> where_from i mask = [].
Proof.
  revert i. induction mask as [|b mask IH]; intros i Hall; [reflexivity|].
  apply Forall_cons in Hall as (-> & Hall). cbn [where_from]. now apply IH.
Qed.

Lemma eqb_NaN_l (a : list power) :
  where_ (map (fun p => eqb NaN p) a) = [].
Proof.
  apply where_from_nowhere. apply Forall_forall. intros b Hb.
  apply list_elem_of_fmap in Hb as (p & -> & _). reflexivity.
Qed.

(** What [lombscargle] raises, [pgram] raises. *)
Lemma pgram_raises_with_lombscargle lombscargle tdata Idata e :
  lombscargle (map (fun t => t - 2450000) tdata) Idata freq_grid = Raise e ->
  pgram lombscargle tdata Idata = Raise e.
Proof.
  unfold pgram. cbv zeta. generalize freq_grid. intros freq Hspec.
  now rewrite Hspec.
Qed.

(** On a spectrum of the size of the grid that holds a NaN, the lookup of
    the peak frequency finds no index: [pgram] raises [IndexError]. *)
Lemma pgram_raises_on_NaN lombscargle tdata Idata (power : list power) :
  lombscargle (map (fun t => t - 2450000) tdata) Idata freq_grid = Ok power ->
  length power = length freq_grid ->
  NaN ∈ power ->
  pgram lombscargle tdata Idata = Raise IndexError.
Proof.
  intros Hspec Hsize Hnan. pose proof band_nonempty as Hband.
  unfold pgram. cbv zeta. unfold band_mask in Hband.
  revert Hspec Hsize Hband. generalize freq_grid.
  intros freq Hspec Hsize Hband. rewrite Hspec. cbn [Py.bind].
  destruct (take_where_returns power
              (map (fun f => Qltb (1 # 100) f) freq)) as (xs & Htake & Hxs).
  { rewrite length_map. lia. }
  rewrite Htake. cbn [Py.bind].
  destruct (np_max_of_some xs) as (m & Hm).
  { intros ->. cbn in Hxs. symmetry in Hxs. apply length_zero_iff_nil in Hxs.
    now apply Hband. }
  rewrite Hm. cbn [Py.bind].
  rewrite (np_max_holds_NaN power Hnan). cbn [Py.bind].
  rewrite eqb_NaN_l. reflexivity.
Qed.

(** *** Spectra without NaN

    On a spectrum of numbers the statements modelled here do what the
    ones of [periodogram] do. *)

Definition lift {A B} (f : A -> B) (r : result A) : result B :=
  match r with
  | Ok a => Ok (f a)
  | Raise e => Raise e
  end.

Lemma getitem_Num (a : list Q) (i : nat) :
  getitem (map Num a) i = lift Num (getitem a i).
Proof.
  unfold getitem. rewrite list_lookup_fmap. now destruct (a !! i).
Qed.

Lemma take_Num (a : list Q) (indices : list nat) :
  take (map Num a) indices = lift (map Num) (take a indices).
Proof.
  induction indices as [|i rest IH]; [reflexivity|].
  cbn [take]. rewrite getitem_Num, IH.
  destruct (getitem a i); [|reflexivity]. cbn [lift Py.bind].
  now destruct (take a rest).
Qed.

Lemma fold_left_pmax_Num (a : list Q) (x : Q) :
  fold_left pmax (map Num a) (Num x) = Num (fold_left Qmax a x).
Proof.
  revert x. induction a as [|y a IH]; intros x; [reflexivity|].
  cbn [map fold_left pmax]. apply IH.
Qed.

Lemma np_max_Num (a : list Q) :
  np_max (map Num a) = lift Num (periodogram.np_max a).
Proof.
  destruct a as [|x a]; [reflexivity|].
  cbn [map np_max periodogram.np_max lift]. now rewrite fold_left_pmax_Num.
Qed.

Lemma numbers_Num (a : list Q) : numbers (map Num a) = Some a.
Proof.
  induction a as [|x a IH]; [reflexivity|].
  cbn [map numbers]. now rewrite IH.
Qed.

Lemma np_mean_Num (a : list Q) :
  np_mean (map Num a) = periodogram.np_mean a.
Proof. unfold np_mean. now rewrite numbers_Num. Qed.

Lemma fwhm_loop_Num (pgram freq : list Q) (m : Q) :
  forall j i st,
    fwhm_loop (map Num pgram) freq (Num m) j i st
    = periodogram.fwhm_loop pgram freq m j i st.
Proof.
  induction j as [|j IH]; intros i st; [reflexivity|].
  cbn [fwhm_loop periodogram.fwhm_loop]. rewrite length_map.
  destruct (i <? length pgram - 1)%nat; [|reflexivity].
  rewrite !getitem_Num.
  destruct (getitem pgram (S j)) as [pj|e]; [|reflexivity].
  cbn [lift Py.bind geb half].
  destruct (getitem pgram j) as [pj1|e]; cbn [lift Py.bind ltb];
    destruct (getitem pgram i) as [pi|e']; cbn [lift Py.bind geb half];
    destruct (getitem pgram (i + 1)) as [pi1|e'']; cbn [lift Py.bind ltb];
    destruct (Qle_bool (m / 2) pj); cbn [Py.bind];
    try destruct (Qltb pj1 (m / 2) && negb (lowflag st));
    try destruct (getitem freq j) as [f|ef]; cbn [Py.bind];
    try destruct (Qle_bool (m / 2) pi); cbn [Py.bind];
    try reflexivity;
    repeat match goal with
           | |- context [if ?b then _ else _] => destruct b; cbn [Py.bind]
           | |- context [getitem freq ?k] =>
               destruct (getitem freq k); cbn [Py.bind]
           end;
    try reflexivity; apply IH.
Qed.

Lemma getfwhm_Num (pgram freq : list Q) (m : Q) :
  getfwhm (map Num pgram) freq (Num m) = periodogram.getfwhm pgram freq m.
Proof.
  unfold getfwhm, periodogram.getfwhm. rewrite map_map. cbn [eqb].
  destruct (getitem (where_ (map (fun x => Qeq_bool x m) pgram)) 0)
    as [i|e]; [|reflexivity].
  cbn [Py.bind]. now rewrite fwhm_loop_Num.
Qed.

(** The dictionary of [periodogram] as one of this module. *)
Definition of_numbers (d : periodogram.pgram_dict) : pgram_dict :=
  mkPgramDict
    (Num (periodogram.maxpgram d))
    (periodogram.freq_at_maxpgram d)
    (periodogram.parallax_period d)
    (periodogram.maxpgram365 d)
    (periodogram.maxpgram365_norm d)
    (periodogram.fwhm d)
    (periodogram.freq d)
    (map Num (periodogram.pgram_power d)).

(** On a spectrum of numbers [pgram] ends as the one of [periodogram]
    does, with the same dictionary. *)
Lemma pgram_of_numbers lombscargle tdata Idata :
  pgram (fun t y f => Ok (map Num (lombscargle t y f))) tdata Idata
  = lift of_numbers (periodogram.pgram lombscargle tdata Idata).
Proof.
  unfold pgram, periodogram.pgram, pgram_locals, analyse. cbv zeta.
  generalize (lombscargle (map (fun t => t - 2450000) tdata) Idata freq_grid).
  generalize freq_grid. intros freq power. cbn [Py.bind].
  rewrite take_Num.
  destruct (take power (where_ (map (fun f => Qltb (1 # 100) f) freq)))
    as [pgramtemp|e]; [|reflexivity].
  cbn [lift Py.bind]. rewrite np_max_Num.
  destruct (periodogram.np_max pgramtemp) as [m|e]; [|reflexivity].
  cbn [lift Py.bind]. rewrite np_max_Num.
  destruct (periodogram.np_max power) as [top|e]; [|reflexivity].
  cbn [lift Py.bind]. rewrite map_map. cbn [eqb].
  destruct (take freq (where_ (map (fun x => Qeq_bool top x) power)))
    as [at_top|e]; [|reflexivity].
  cbn [Py.bind].
  destruct (getitem at_top 0) as [freq_at_maxgram|e]; [|reflexivity].
  cbn [Py.bind]. rewrite take_Num.
  destruct (take power
              (where_ (map (fun f => Qltb (Qabs (f - (17 # 1000)))
                                       (1 # 100000)) freq)))
    as [near365|e]; [|reflexivity].
  cbn [lift Py.bind]. rewrite getfwhm_Num, np_mean_Num.
  destruct (periodogram.getfwhm power freq m) as [w|e]; [|reflexivity].
  reflexivity.
Qed.

(** [pgram] looks at [lombscargle] through the spectrum of the series
    only. *)
Lemma pgram_of_spectrum lombscargle lombscargle' tdata Idata :
  lombscargle (map (fun t => t - 2450000) tdata) Idata freq_grid
  = lombscargle' (map (fun t => t - 2450000) tdata) Idata freq_grid ->
  pgram lombscargle tdata Idata = pgram lombscargle' tdata Idata.
Proof.
  unfold pgram. cbv zeta. generalize freq_grid. intros freq Heq.
  now rewrite Heq.
Qed.

(** The dictionary of [periodogram.pgram] on a spectrum of the size of the
    grid with powers that are not negative. *)
Lemma pgram_on_numbers (power : list Q) tdata Idata :
  length power = length freq_grid ->
  Forall (fun x => 0 <= x) power ->
  exists d m p,
    periodogram.pgram (fun _ _ _ => power) tdata Idata = Ok d
    /\ periodogram.np_max
         (map (at_ power) (where_ (band_mask freq_grid))) = Ok m
    /\ first_index power m = Some p
    /\ periodogram.freq d = freq_grid
    /\ periodogram.pgram_power d = power
    /\ periodogram.fwhm d
       = periodogram.round (fwhm_spec power freq_grid m p) 6
    /\ lockstep_walk power freq_grid m p.
Proof.
  intros Hsize Hpos.
  destruct (periodogram_more.analyse_value freq_grid power Hsize
              band_nonempty Hpos)
    as (m & top & p & q & Hm & _ & Hp & _ & Hwalk & Hrun).
  eexists _, m, p. split.
  { unfold periodogram.pgram. rewrite pgram_locals_analyse. rewrite Hrun.
    cbn [Py.bind]. reflexivity. }
  cbn [periodogram.freq periodogram.pgram_power periodogram.fwhm l_freq
         l_pgram l_fwhm].
  repeat (split; [first [assumption | reflexivity]|]). exact Hwalk.
Qed.

(** C6, as the code has it: the analysis does not always complete.  What
    [lombscargle] raises, [pgram] raises; on a spectrum of the size of the
    grid that holds a NaN, the spectrum of a series without variation,
    [pgram] raises [IndexError].  On a spectrum of the size of the grid
    of numbers that are not negative it returns, and the width it reports
    is the rounded value of the lock-step walk from the first grid index
    [p] where the power equals the peak power [m]: the frequency at the
    first sample under half the peak on the upper side minus the one on
    the lower side, and exactly zero when a side has no such sample before
    one of the two walks reaches its index bound. *)
Theorem pgram_fwhm_lockstep
    (lombscargle : list Q -> list Q -> list Q -> result (list power))
    tdata Idata :
  (forall e,
     lombscargle (map (fun t => t - 2450000) tdata) Idata freq_grid = Raise e ->
     pgram lombscargle tdata Idata = Raise e)
  /\ (forall spectrum : list power,
        lombscargle (map (fun t => t - 2450000) tdata) Idata freq_grid
        = Ok spectrum ->
        length spectrum = length freq_grid ->
        NaN ∈ spectrum ->
        pgram lombscargle tdata Idata = Raise IndexError)
  /\ (forall numbers : list Q,
        lombscargle (map (fun t => t - 2450000) tdata) Idata freq_grid
        = Ok (map Num numbers) ->
        length numbers = length freq_grid ->
        Forall (fun x => 0 <= x) numbers ->
        exists d m p,
          pgram lombscargle tdata Idata = Ok d
          /\ periodogram.np_max
               (map (at_ numbers) (where_ (band_mask freq_grid))) = Ok m
          /\ first_index numbers m = Some p
          /\ freq d = freq_grid
          /\ pgram_power d = map Num numbers
          /\ fwhm d = periodogram.round (fwhm_spec numbers freq_grid m p) 6
          /\ (lower_boundary numbers m p = None
              \/ upper_boundary numbers m p = None -> fwhm d = 0)
          /\ lockstep_walk numbers freq_grid m p).
Proof.
  split; [intros e; apply pgram_raises_with_lombscargle|].
  split; [intros spectrum; apply pgram_raises_on_NaN|].
  intros numbers Hspec Hlen Hpos.
  destruct (pgram_on_numbers numbers tdata Idata Hlen Hpos)
    as (d & m & p & Hrun & Hm & Hp & Hfreq & Hpow & Hfwhm & Hwalk).
  exists (of_numbers d), m, p. split.
  { rewrite (pgram_of_spectrum lombscargle
               (fun t y f => Ok (map Num ((fun _ _ _ => numbers) t y f)))
               tdata Idata Hspec).
    rewrite (pgram_of_numbers (fun _ _ _ => numbers)), Hrun. reflexivity. }
  cbn [of_numbers freq pgram_power fwhm].
  split; [exact Hm|]. split; [exact Hp|]. split; [exact Hfreq|].
  split; [now rewrite Hpow|]. split; [exact Hfwhm|]. split; [|exact Hwalk].
  intros Hmiss. rewrite Hfwhm. unfold fwhm_spec.
  destruct Hmiss as [-> | ->]; [apply round_zero|].
  destruct (lower_boundary numbers m p); apply round_zero.
Qed.

End periodogram_nan_facts.

(** ** The periodogram of a single line and of a flat series *)

Module periodogram_cases.

Import periodogram periodogram_facts periodogram_more scenarios_peak.
Local Open Scope Q_scope.

(** *** A spectrum with one line *)

Lemma peak_spectrum_like : periodogram_like peak_spectrum.
Proof.
  split; intros t y f; unfold peak_spectrum.
  - now rewrite length_map, length_seq.
  - apply Forall_forall. intros x Hx.
    apply list_elem_of_fmap in Hx as (i & -> & _).
    destruct (Nat.eqb i peak_index); discriminate.
Qed.

Lemma peak_spectrum_at tdata Idata k :
  (k < grid_size)%nat ->
  at_ (spectrum peak_spectrum tdata Idata) k
  = if Nat.eqb k peak_index then 1 else 1 # 10.
Proof.
  intros Hk. unfold at_, spectrum, peak_spectrum.
  rewrite length_freq_grid, list_lookup_fmap, lookup_seq_lt by exact Hk.
  reflexivity.
Qed.

Lemma peak_index_in_grid : (S peak_index < grid_size)%nat.
Proof. apply Nat.ltb_lt. vm_compute. reflexivity. Qed.

(** The maximum over the indices of a mask bounds the powers there and
    is one of them. *)
Lemma masked_maximum (power : list Q) (mask : list bool) m :
  np_max (map (at_ power) (where_ mask)) = Ok m ->
  (forall k, mask !! k = Some true -> at_ power k <= m)
  /\ (exists k, mask !! k = Some true /\ at_ power k = m).
Proof.
  intros Hm. split.
  - pose proof (np_max_upper _ _ Hm) as Hup. rewrite Forall_forall in Hup.
    intros k Hk. apply Hup. apply list_elem_of_fmap_2. now apply elem_of_where.
  - apply np_max_in, list_elem_of_fmap in Hm as (k & -> & Hk).
    exists k. split; [now apply elem_of_where | reflexivity].
Qed.

(** The band maximum of the line spectrum is the line. *)
Lemma peak_spectrum_maximum tdata Idata m :
  np_max (map (at_ (spectrum peak_spectrum tdata Idata))
            (where_ (band_mask freq_grid))) = Ok m ->
  m = 1.
Proof.
  intros Hm. pose proof peak_index_in_grid as Hin.
  destruct (masked_maximum _ _ _ Hm) as (Hup & k & Hk & Hreach).
  assert (Hge : at_ (spectrum peak_spectrum tdata Idata) peak_index <= m).
  { apply Hup. apply (proj2 (in_band peak_index)). unfold peak_index. lia. }
  rewrite peak_spectrum_at, Nat.eqb_refl in Hge by lia.
  apply in_band in Hk.
  rewrite peak_spectrum_at in Hreach by (unfold grid_size; lia).
  destruct (Nat.eqb k peak_index); [now symmetry|].
  exfalso. rewrite <- Hreach in Hge. revert Hge. unfold Qle. cbn. lia.
Qed.

(** The line is the first and only index where the power is 1. *)
Lemma peak_spectrum_first tdata Idata p :
  first_index (spectrum peak_spectrum tdata Idata) 1 = Some p ->
  p = peak_index.
Proof.
  intros Hp. destruct (first_index_spec _ _ _ Hp) as (Hlt & Heq & _).
  rewrite (length_spectrum _ _ _ peak_spectrum_like) in Hlt.
  rewrite (peak_spectrum_at tdata Idata p Hlt) in Heq.
  destruct (Nat.eqb_spec p peak_index) as [->|Hne]; [reflexivity|].
  discriminate Heq.
Qed.

(** Both neighbours of the line are under half its power. *)
Lemma peak_spectrum_boundaries tdata Idata :
  lower_boundary (spectrum peak_spectrum tdata Idata) 1 peak_index
  = Some (Nat.pred peak_index)
  /\ upper_boundary (spectrum peak_spectrum tdata Idata) 1 peak_index
     = Some (S peak_index).
Proof.
  pose proof peak_index_in_grid as Hin.
  assert (Hrounds : exists r,
             rounds_left (length (spectrum peak_spectrum tdata Idata))
               peak_index peak_index = S r).
  { rewrite (length_spectrum _ _ _ peak_spectrum_like).
    unfold rounds_left, peak_index, grid_size.
    exists (Z.to_nat 4998). lia. }
  destruct Hrounds as (r & Hr).
  unfold lower_boundary, upper_boundary. rewrite Hr. cbn [scan_down scan_up].
  unfold belowL, belowU.
  rewrite (peak_spectrum_at tdata Idata (peak_index - 1)) by lia.
  rewrite (peak_spectrum_at tdata Idata (peak_index + 1)) by lia.
  destruct (Nat.eqb_spec (peak_index - 1) peak_index) as [Heq|_];
    [unfold peak_index in Heq; lia|].
  destruct (Nat.eqb_spec (peak_index + 1) peak_index) as [Heq|_];
    [lia|].
  split; reflexivity.
Qed.

Lemma Ok_inj {A} (a b : A) : Ok a = Ok b -> a = b.
Proof. now intros [= ->]. Qed.

(** Rounding does not see how a fraction is written. *)
Lemma round_half_even_comp x y :
  x == y -> round_half_even x = round_half_even y.
Proof.
  intros Hxy. unfold round_half_even.
  rewrite (Qfloor_comp _ _ Hxy).
  assert (Hd : x - inject_Z (Qfloor y) == y - inject_Z (Qfloor y))
    by now rewrite Hxy.
  now rewrite (Qcompare_comp _ _ Hd (1 # 2) (1 # 2) (Qeq_refl _)).
Qed.

Lemma round_comp x y ndigits : x == y -> round x ndigits = round y ndigits.
Proof.
  intros Hxy. unfold round.
  rewrite (round_half_even_comp (x * inject_Z (10 ^ Z.of_nat ndigits))
             (y * inject_Z (10 ^ Z.of_nat ndigits)));
    [reflexivity | now rewrite Hxy].
Qed.

(** The line is two grid steps wide. *)
Lemma peak_width :
  at_ freq_grid (S peak_index) - at_ freq_grid (Nat.pred peak_index)
  == 2 * grid_step.
Proof.
  pose proof peak_index_in_grid as Hin.
  rewrite freq_grid_distance by lia.
  apply Qmult_comp; [|reflexivity]. vm_compute. reflexivity.
Qed.

(** The analysis of the line spectrum: the peak is the line, both
    boundaries are its neighbours and the width is two grid steps. *)
Lemma fwhm_whole_grid_steps_witness :
  let power := spectrum peak_spectrum sample_times sample_magnitudes in
  exists l,
    pgram_locals peak_spectrum sample_times sample_magnitudes = Ok l
    /\ l_maxpgram l = 1
    /\ first_index power 1 = Some peak_index
    /\ lower_boundary power 1 peak_index = Some (Nat.pred peak_index)
    /\ upper_boundary power 1 peak_index = Some (S peak_index)
    /\ l_fwhm l == 2 * grid_step.
Proof.
  intros power.
  destruct (fwhm_whole_grid_steps peak_spectrum sample_times sample_magnitudes
              peak_spectrum_like)
    as (l & p & Hrun & Hp & _ & _ & Hsteps).
  fold power in Hp, Hsteps.
  destruct (pgram_locals_value peak_spectrum sample_times sample_magnitudes
              peak_spectrum_like)
    as (m & top & p' & q & Hm & _ & _ & _ & _ & Hval).
  rewrite Hval in Hrun. apply Ok_inj in Hrun. subst l.
  cbn [l_maxpgram l_fwhm] in *.
  pose proof (peak_spectrum_maximum sample_times sample_magnitudes m Hm) as ->.
  pose proof (peak_spectrum_first sample_times sample_magnitudes p Hp) as ->.
  destruct (peak_spectrum_boundaries sample_times sample_magnitudes) as (Hlo & Hhi).
  fold power in Hlo, Hhi.
  destruct (Hsteps _ _ Hlo Hhi) as (_ & Hwidth & _).
  eexists. split; [exact Hval|]. cbn [l_maxpgram l_fwhm].
  split; [reflexivity|]. split; [exact Hp|]. split; [exact Hlo|].
  split; [exact Hhi|]. rewrite Hwidth.
  apply Qmult_comp; [|reflexivity]. vm_compute. reflexivity.
Defined.

(** The dictionary of the line spectrum: the analysis completes, the
    boundaries are the two neighbours of the line and the reported width
    is their rounded distance, 0.000006. *)
Lemma pgram_fwhm_lockstep_witness :
  let numbers := spectrum peak_spectrum sample_times sample_magnitudes in
  exists d,
    periodogram_nan.pgram peak_powers sample_times sample_magnitudes = Ok d
    /\ first_index numbers 1 = Some peak_index
    /\ lower_boundary numbers 1 peak_index = Some (Nat.pred peak_index)
    /\ upper_boundary numbers 1 peak_index = Some (S peak_index)
    /\ periodogram_nan.fwhm d
       = round (at_ freq_grid (S peak_index)
                - at_ freq_grid (Nat.pred peak_index)) 6
    /\ periodogram_nan.fwhm d = 3 # 500000.
Proof.
  intros numbers. destruct peak_spectrum_like as (Hlen & Hpos).
  destruct (periodogram_nan_facts.pgram_fwhm_lockstep peak_powers
              sample_times sample_magnitudes) as (_ & _ & Hnum).
  destruct (Hnum numbers) as (d & m & p & Hrun & Hm & Hp & _ & _ & Hfwhm & _).
  { unfold peak_powers, numbers, spectrum. reflexivity. }
  { apply Hlen. }
  { apply Hpos. }
  pose proof (peak_spectrum_maximum sample_times sample_magnitudes m Hm) as ->.
  pose proof (peak_spectrum_first sample_times sample_magnitudes p Hp) as ->.
  destruct (peak_spectrum_boundaries sample_times sample_magnitudes)
    as (Hlo & Hhi).
  fold numbers in Hlo, Hhi.
  unfold fwhm_spec in Hfwhm. rewrite Hlo, Hhi in Hfwhm.
  exists d. split; [exact Hrun|]. split; [exact Hp|]. split; [exact Hlo|].
  split; [exact Hhi|]. split; [exact Hfwhm|].
  rewrite Hfwhm, (round_comp _ _ 6 peak_width). vm_compute. reflexivity.
Defined.

(** C6, as stated, fails: for a series that is zero throughout the
    spectrum has the size of the grid and holds NaN at every frequency;
    the analysis does not complete, [pgram] raises [IndexError]. *)
Lemma pgram_nan_spectrum_raises :
  (forall t y f, exists spectrum,
      nan_spectrum t y f = Ok spectrum /\ length spectrum = length f)
  /\ periodogram_nan.pgram nan_spectrum sample_times flat_magnitudes
     = Raise IndexError.
Proof.
  split.
  { intros t y f. eexists. split; [reflexivity | apply length_map]. }
  apply (periodogram_nan_facts.pgram_raises_on_NaN nan_spectrum _ _
           (map (fun _ => periodogram_nan.NaN) freq_grid)).
  - reflexivity.
  - apply length_map.
  - assert (Hlt : (0 < length freq_grid)%nat).
    { rewrite length_freq_grid. apply Nat.ltb_lt. vm_compute. reflexivity. }
    destruct (lookup_lt_is_Some_2 freq_grid 0 Hlt) as (f & Hf).
    apply list_elem_of_lookup_2 in Hf.
    apply (list_elem_of_fmap_2 (fun _ : Q => periodogram_nan.NaN)
             freq_grid f Hf).
Qed.

End periodogram_cases.
